(** * Arithmetic functions over columns (dbms/include/DB/Functions/FunctionsArithmetic.h)

    A shallow embedding of the binary arithmetic functions of the engine:
    the scalar operations ([PlusImpl] ... [BitShiftRightImpl]), the four
    block kernels of [BinaryOperationImplBase], the divide-by-constant
    kernels [DivideIntegralByConstantImpl] and [ModuloByConstantImpl] with
    the table of [BinaryOperationImpl] specialisations, the date overlay
    [DateBinaryOperationTraits], and the two entry points of
    [FunctionBinaryArithmetic]: [getReturnType] and [execute].

    Conventions.  An integer of a C++ type is a [Z] inside the range of the
    type; conversions between integer types wrap modulo [2^bits].  A floating
    value is a [spec_float] of the Standard Library.  A computation ends in
    one of three ways: it returns ([Ok]), it throws a [DB::Exception]
    ([Throw]), or it leaves the behaviour the language defines ([Undefined]:
    a signed overflow, [INT_MIN / -1] and the [idiv] trap it stands for, an
    access outside a buffer, a floating value that does not fit the integer
    type it is converted to). *)

From Stdlib Require Import String DecimalString ZArith List Bool Lia SpecFloat.
Import ListNotations.
Local Open Scope Z_scope.

(** ** Scalar types *)

(** The field types of the numeric columns. *)
Inductive NumType : Set :=
| UInt8 | UInt16 | UInt32 | UInt64
| Int8 | Int16 | Int32 | Int64
| Float32 | Float64.

Definition NumType_eq_dec (x y : NumType) : {x = y} + {x <> y}.
Proof. decide equality. Defined.

Definition NumType_eqb (x y : NumType) : bool :=
  if NumType_eq_dec x y then true else false.

(** [std::is_integral], [std::is_floating_point], [std::is_signed]. *)
Definition is_integral (T : NumType) : bool :=
  match T with Float32 | Float64 => false | _ => true end.

Definition is_floating (T : NumType) : bool := negb (is_integral T).

Definition is_signed (T : NumType) : bool :=
  match T with UInt8 | UInt16 | UInt32 | UInt64 => false | _ => true end.

Definition bits (T : NumType) : Z :=
  match T with
  | UInt8 | Int8 => 8
  | UInt16 | Int16 => 16
  | UInt32 | Int32 | Float32 => 32
  | UInt64 | Int64 | Float64 => 64
  end.

Definition sizeof (T : NumType) : nat :=
  match T with
  | UInt8 | Int8 => 1
  | UInt16 | Int16 => 2
  | UInt32 | Int32 | Float32 => 4
  | UInt64 | Int64 | Float64 => 8
  end.

Definition min_value (T : NumType) : Z :=
  if is_signed T then - 2 ^ (bits T - 1) else 0.

Definition max_value (T : NumType) : Z :=
  if is_signed T then 2 ^ (bits T - 1) - 1 else 2 ^ bits T - 1.

Definition in_range (T : NumType) (z : Z) : Prop :=
  min_value T <= z <= max_value T.

Definition in_rangeb (T : NumType) (z : Z) : bool :=
  (min_value T <=? z) && (z <=? max_value T).

(** Two's complement reduction of an integer into the range of [T]. *)
Definition wrap (T : NumType) (z : Z) : Z :=
  if is_signed T
  then (z + 2 ^ (bits T - 1)) mod 2 ^ bits T - 2 ^ (bits T - 1)
  else z mod 2 ^ bits T.

(** Precision and exponent bound of the two binary formats. *)
Definition prec (T : NumType) : Z :=
  match T with Float32 => 24 | _ => 53 end.

Definition emax (T : NumType) : Z :=
  match T with Float32 => 128 | _ => 1024 end.

(** ** Values *)

Inductive Value : Type :=
| VInt (z : Z)
| VFloat (f : spec_float).

Definition has_type (T : NumType) (v : Value) : Prop :=
  match v with
  | VInt z => is_integral T = true /\ in_range T z
  | VFloat _ => is_floating T = true
  end.

(** [std::numeric_limits<T>::min()]: the least value of an integer type, the
    least positive normal value of a floating type. *)
Definition numeric_limits_min (T : NumType) : Value :=
  if is_integral T then VInt (min_value T)
  else VFloat (S754_finite false (Z.to_pos (2 ^ (prec T - 1))) (3 - emax T - prec T)).

(** ** Outcomes *)

Inductive ErrorCode : Set :=
| ILLEGAL_DIVISION
| ILLEGAL_TYPE_OF_ARGUMENT
| ILLEGAL_COLUMN
| NUMBER_OF_ARGUMENTS_DOESNT_MATCH.

Record Exception : Set := mkException { message : string; code : ErrorCode }.

Inductive outcome (A : Type) : Type :=
| Ok (a : A)
| Throw (e : Exception)
| Undefined.

Arguments Ok {A} a.
Arguments Throw {A} e.
Arguments Undefined {A}.

Definition bind {A B : Type} (m : outcome A) (k : A -> outcome B) : outcome B :=
  match m with
  | Ok a => k a
  | Throw e => Throw e
  | Undefined => Undefined
  end.

Declare Scope outcome_scope.
Delimit Scope outcome_scope with outcome.
Notation "x <- m ;; k" := (bind m (fun x => k))
  (at level 100, m at next level, right associativity) : outcome_scope.
Notation "m ;;; k" := (bind m (fun _ => k))
  (at level 100, right associativity) : outcome_scope.
Local Open Scope outcome_scope.

Definition of_option {A : Type} (o : option A) : outcome A :=
  match o with Some a => Ok a | None => Undefined end.

(** The two faults of integer division, told apart by their message. *)
Definition DivisionByZero : Exception :=
  mkException "Division by zero" ILLEGAL_DIVISION.

Definition DivisionOverflow : Exception :=
  mkException "Division of minimal signed number by minus one" ILLEGAL_DIVISION.

(** ** Conversions *)

(** The integer part of a floating value (the fraction is discarded);
    nothing for an infinity or a NaN. *)
Definition truncate (f : spec_float) : option Z :=
  match f with
  | S754_zero _ => Some 0
  | S754_finite s m e =>
      Some (cond_Zopp s (if 0 <=? e then Zpos m * 2 ^ e else Zpos m / 2 ^ (- e)))
  | _ => None
  end.

Definition float_of_Z (T : NumType) (z : Z) : spec_float :=
  binary_normalize (prec T) (emax T) z 0 false.

Definition float_round (T : NumType) (f : spec_float) : spec_float :=
  match f with
  | S754_finite s m e => binary_normalize (prec T) (emax T) (cond_Zopp s (Zpos m)) e s
  | _ => f
  end.

(** Conversion of a value of type [from] to type [to], explicit
    ([static_cast]) or implicit.  Between integer types the value is reduced
    modulo [2^bits]; from a floating to an integer type it is truncated, and
    the behaviour is undefined when the integer part does not fit. *)
Definition conv (from to : NumType) (v : Value) : option Value :=
  if NumType_eq_dec from to then Some v
  else if is_integral to then
    match v with
    | VInt z => Some (VInt (wrap to z))
    | VFloat f =>
        match truncate f with
        | Some z => if in_rangeb to z then Some (VInt z) else None
        | None => None
        end
    end
  else
    match v with
    | VInt z => Some (VFloat (float_of_Z to z))
    | VFloat f => Some (VFloat (float_round to f))
    end.

(** Integral promotion: the types narrower than [int] are computed in [int]. *)
Definition promote (T : NumType) : NumType :=
  match T with
  | UInt8 | UInt16 | Int8 | Int16 => Int32
  | _ => T
  end.

Definition to_unsigned (T : NumType) : NumType :=
  match T with
  | Int8 => UInt8 | Int16 => UInt16 | Int32 => UInt32 | Int64 => UInt64
  | _ => T
  end.

(** The usual arithmetic conversions: the type in which [a op b] is
    computed for operands of types [A] and [B]. *)
Definition common (A B : NumType) : NumType :=
  match A, B with
  | Float64, _ | _, Float64 => Float64
  | Float32, _ | _, Float32 => Float32
  | _, _ =>
      let A' := promote A in
      let B' := promote B in
      if bits A' =? bits B'
      then (if is_signed A' && is_signed B' then A' else to_unsigned A')
      else if bits A' <? bits B' then B' else A'
  end.

(** ** Expressions *)

Inductive operator : Set :=
| Add | Sub | Mul | Div | Rem | And | Or | Xor | Shl | Shr.

(** An operator on two integers of the type [C] of the computation. *)
Definition int_binop (C : NumType) (op : operator) (x y : Z) : outcome Z :=
  match op with
  | Add | Sub | Mul =>
      let r := match op with Add => x + y | Sub => x - y | _ => x * y end in
      if is_signed C
      then (if in_rangeb C r then Ok r else Undefined)
      else Ok (r mod 2 ^ bits C)
  | Div | Rem =>
      if y =? 0 then Undefined
      else if is_signed C && (x =? min_value C) && (y =? -1) then Undefined
      else Ok (match op with Div => Z.quot x y | _ => Z.rem x y end)
  | And => Ok (Z.land x y)
  | Or => Ok (Z.lor x y)
  | Xor => Ok (Z.lxor x y)
  | Shl =>
      if (y <? 0) || (bits C <=? y) then Undefined
      else if is_signed C
      then (if (x <? 0) || (2 ^ bits C <=? x * 2 ^ y) then Undefined
            else Ok (wrap C (x * 2 ^ y)))
      else Ok ((x * 2 ^ y) mod 2 ^ bits C)
  | Shr =>
      if (y <? 0) || (bits C <=? y) then Undefined
      else Ok (Z.shiftr x y)
  end.

(** An operator on two floating values of the format [C]; the remainder, the
    bitwise operators and the shifts have no floating form. *)
Definition float_binop (C : NumType) (op : operator) (f g : spec_float)
  : outcome spec_float :=
  match op with
  | Add => Ok (SFadd (prec C) (emax C) f g)
  | Sub => Ok (SFsub (prec C) (emax C) f g)
  | Mul => Ok (SFmul (prec C) (emax C) f g)
  | Div => Ok (SFdiv (prec C) (emax C) f g)
  | _ => Undefined
  end.

(** [a op b] for [a] of type [A] and [b] of type [B]: both operands are
    brought to the common type, in which the operator is computed.  The
    result is returned with its type. *)
Definition binary_expr (A : NumType) (a : Value) (op : operator)
  (B : NumType) (b : Value) : outcome (NumType * Value) :=
  let C := common A B in
  x <- of_option (conv A C a) ;;
  y <- of_option (conv B C b) ;;
  match x, y with
  | VInt x, VInt y => r <- int_binop C op x y ;; Ok (C, VInt r)
  | VFloat f, VFloat g => r <- float_binop C op f g ;; Ok (C, VFloat r)
  | _, _ => Undefined
  end.

(** [a == b] for [a] of type [A] and [b] of type [B]. *)
Definition equal (A : NumType) (a : Value) (B : NumType) (b : Value) : bool :=
  let C := common A B in
  match conv A C a, conv B C b with
  | Some (VInt x), Some (VInt y) => x =? y
  | Some (VFloat f), Some (VFloat g) => SFeqb f g
  | _, _ => false
  end.

(** [-a] for [a] of type [A], with the type of the result. *)
Definition negate_expr (A : NumType) (a : Value) : outcome (NumType * Value) :=
  let P := promote A in
  x <- of_option (conv A P a) ;;
  match x with
  | VInt x =>
      if is_signed P
      then (if x =? min_value P then Undefined else Ok (P, VInt (- x)))
      else Ok (P, VInt ((- x) mod 2 ^ bits P))
  | VFloat f => Ok (P, VFloat (SFopp f))
  end.

(** A literal of type [int]. *)
Definition int_literal (z : Z) : Value := VInt z.

(** ** Result types (NumberTraits.h) *)

(** Modelled from the spec: NumberTraits.h, which computes the result type
    of every operation from the types of its operands, is not among the
    sources.  Its type functions are the fields of this class, and the
    development holds for every instance.  Of [ToInteger], the integer
    projection of the spec, two facts are kept: it yields an integer type,
    and it leaves an integer type as it is. *)
Class NumberTraits : Type := {
  ResultOfAdditionMultiplication : NumType -> NumType -> NumType;
  ResultOfSubtraction : NumType -> NumType -> NumType;
  ResultOfFloatingPointDivision : NumType -> NumType -> NumType;
  ResultOfIntegerDivision : NumType -> NumType -> NumType;
  ResultOfModulo : NumType -> NumType -> NumType;
  ResultOfBit : NumType -> NumType -> NumType;
  ToInteger : NumType -> NumType;
  ToInteger_is_integral : forall T, is_integral (ToInteger T) = true;
  ToInteger_of_integral : forall T, is_integral T = true -> ToInteger T = T
}.

(** The binary operations, by the name of their struct. *)
Inductive Operation : Set :=
| PlusImpl | MultiplyImpl | MinusImpl | DivideFloatingImpl
| DivideIntegralImpl | ModuloImpl
| BitAndImpl | BitOrImpl | BitXorImpl | BitShiftLeftImpl | BitShiftRightImpl.

Definition Operation_eq_dec (x y : Operation) : {x = y} + {x <> y}.
Proof. decide equality. Defined.

Section ScalarOperations.

Context {NT : NumberTraits}.

(** [Op<A, B>::ResultType]. *)
Definition ResultType (Op : Operation) (A B : NumType) : NumType :=
  match Op with
  | PlusImpl | MultiplyImpl => ResultOfAdditionMultiplication A B
  | MinusImpl => ResultOfSubtraction A B
  | DivideFloatingImpl => ResultOfFloatingPointDivision A B
  | DivideIntegralImpl => ResultOfIntegerDivision A B
  | ModuloImpl => ResultOfModulo A B
  | BitAndImpl | BitOrImpl | BitXorImpl | BitShiftLeftImpl | BitShiftRightImpl =>
      ResultOfBit A B
  end.

Definition static_cast (from to : NumType) (v : Value) : outcome Value :=
  of_option (conv from to v).

(** The conversion of the value of a [return] expression to the return type. *)
Definition return_as (R : NumType) (r : NumType * Value) : outcome Value :=
  of_option (conv (fst r) R (snd r)).

Definition PlusImpl_apply (A B R : NumType) (a b : Value) : outcome Value :=
  x <- static_cast A R a ;;
  r <- binary_expr R x Add B b ;;
  return_as R r.

Definition MultiplyImpl_apply (A B R : NumType) (a b : Value) : outcome Value :=
  x <- static_cast A R a ;;
  r <- binary_expr R x Mul B b ;;
  return_as R r.

Definition MinusImpl_apply (A B R : NumType) (a b : Value) : outcome Value :=
  x <- static_cast A R a ;;
  r <- binary_expr R x Sub B b ;;
  return_as R r.

Definition DivideFloatingImpl_apply (A B R : NumType) (a b : Value) : outcome Value :=
  x <- static_cast A R a ;;
  r <- binary_expr R x Div B b ;;
  return_as R r.

Definition throwIfDivisionLeadsToFPE (A B : NumType) (a b : Value) : outcome unit :=
  if equal B b Int32 (int_literal 0)
  then Throw DivisionByZero
  else if is_signed A && is_signed B
          && equal A a A (numeric_limits_min A)
          && equal B b Int32 (int_literal (-1))
  then Throw DivisionOverflow
  else Ok tt.

Definition DivideIntegralImpl_apply (A B R : NumType) (a b : Value) : outcome Value :=
  throwIfDivisionLeadsToFPE A B a b ;;;
  x <- static_cast A R a ;;
  r <- binary_expr R x Div B b ;;
  return_as R r.

Definition ModuloImpl_apply (A B R : NumType) (a b : Value) : outcome Value :=
  let I := ToInteger A in
  x <- static_cast A I a ;;
  y <- static_cast B I b ;;
  throwIfDivisionLeadsToFPE I I x y ;;;
  r <- binary_expr I x Rem I y ;;
  return_as R r.

(** The bitwise operations and the shifts cast both operands to the result
    type. *)
Definition bitwise_apply (op : operator) (A B R : NumType) (a b : Value)
  : outcome Value :=
  x <- static_cast A R a ;;
  y <- static_cast B R b ;;
  r <- binary_expr R x op R y ;;
  return_as R r.

Definition BitAndImpl_apply := bitwise_apply And.
Definition BitOrImpl_apply := bitwise_apply Or.
Definition BitXorImpl_apply := bitwise_apply Xor.
Definition BitShiftLeftImpl_apply := bitwise_apply Shl.
Definition BitShiftRightImpl_apply := bitwise_apply Shr.

(** [Op::template apply<Result>(a, b)]. *)
Definition apply (Op : Operation) (A B R : NumType) (a b : Value) : outcome Value :=
  match Op with
  | PlusImpl => PlusImpl_apply A B R a b
  | MultiplyImpl => MultiplyImpl_apply A B R a b
  | MinusImpl => MinusImpl_apply A B R a b
  | DivideFloatingImpl => DivideFloatingImpl_apply A B R a b
  | DivideIntegralImpl => DivideIntegralImpl_apply A B R a b
  | ModuloImpl => ModuloImpl_apply A B R a b
  | BitAndImpl => BitAndImpl_apply A B R a b
  | BitOrImpl => BitOrImpl_apply A B R a b
  | BitXorImpl => BitXorImpl_apply A B R a b
  | BitShiftLeftImpl => BitShiftLeftImpl_apply A B R a b
  | BitShiftRightImpl => BitShiftRightImpl_apply A B R a b
  end.

(** ** Buffers and loops *)

(** A [PODArray<T>]: its elements, in order.  Access by index is unchecked
    in the source, so an index past the end is undefined behaviour. *)
Definition PODArray : Type := list Value.

Definition read (a : PODArray) (i : nat) : outcome Value :=
  of_option (nth_error a i).

Fixpoint update {X : Type} (c : list X) (i : nat) (v : X) : list X :=
  match c, i with
  | [], _ => []
  | _ :: t, O => v :: t
  | h :: t, S i' => h :: update t i' v
  end.

Definition write (c : PODArray) (i : nat) (v : Value) : outcome PODArray :=
  if (i <? length c)%nat then Ok (update c i v) else Undefined.

(** [for (size_t i = first; i < first + n; ++i) body]. *)
Fixpoint for_loop {S : Type} (n first : nat) (body : nat -> S -> outcome S) (s : S)
  : outcome S :=
  match n with
  | O => Ok s
  | Datatypes.S n' => s' <- body first s ;; for_loop n' (Datatypes.S first) body s'
  end.

(** [while (cond) body], with a bound on the number of iterations. *)
Fixpoint while {S : Type} (fuel : nat) (cond : S -> bool) (body : S -> outcome S) (s : S)
  : outcome S :=
  if cond s then
    match fuel with
    | O => Undefined
    | Datatypes.S fuel' => s' <- body s ;; while fuel' cond body s'
    end
  else Ok s.

(** ** The block kernels of [BinaryOperationImplBase] *)

Definition BinaryOperationImplBase_vector_vector (A B : NumType) (Op : Operation)
  (R : NumType) (a b c : PODArray) : outcome PODArray :=
  let size := length a in
  for_loop size 0 (fun i c =>
    x <- read a i ;;
    y <- read b i ;;
    r <- apply Op A B R x y ;;
    write c i r) c.

Definition BinaryOperationImplBase_vector_constant (A B : NumType) (Op : Operation)
  (R : NumType) (a : PODArray) (b : Value) (c : PODArray) : outcome PODArray :=
  let size := length a in
  for_loop size 0 (fun i c =>
    x <- read a i ;;
    r <- apply Op A B R x b ;;
    write c i r) c.

Definition BinaryOperationImplBase_constant_vector (A B : NumType) (Op : Operation)
  (R : NumType) (a : Value) (b c : PODArray) : outcome PODArray :=
  let size := length b in
  for_loop size 0 (fun i c =>
    y <- read b i ;;
    r <- apply Op A B R a y ;;
    write c i r) c.

Definition BinaryOperationImplBase_constant_constant (A B : NumType) (Op : Operation)
  (R : NumType) (a b : Value) : outcome Value :=
  apply Op A B R a b.

End ScalarOperations.

(** ** Division by a constant: libdivide and the 128-bit registers *)

(** Modelled from the spec: libdivide.h is not among the sources.  The spec
    describes the divider as a precomputed reciprocal for the constant [b],
    with a per-element [a / divider] that produces the same result as
    [a / b] under two's-complement semantics, in a scalar and in a SIMD
    form.  [libdivide::divider<A> divider(b)] takes its argument as an [A],
    so [b] is converted to [A] first; no reciprocal exists for zero. *)
Record divider : Set := mkDivider { denom : Z }.

Definition libdivide_divider (A B : NumType) (b : Value) : outcome divider :=
  d <- of_option (conv B A b) ;;
  match d with
  | VInt d => if d =? 0 then Undefined else Ok (mkDivider d)
  | VFloat _ => Undefined
  end.

(** Modelled from the spec: [a / divider] for [a] of type [A]. *)
Definition libdivide_divide (A : NumType) (x : Z) (d : divider) : Z :=
  wrap A (Z.quot x (denom d)).

Definition scalar_divide (A : NumType) (x : Value) (d : divider) : outcome Value :=
  match x with
  | VInt x => Ok (VInt (libdivide_divide A x d))
  | VFloat _ => Undefined
  end.

(** The bytes of an integer, least significant first, and back. *)
Fixpoint le_split (n : nat) (z : Z) : list Z :=
  match n with
  | O => []
  | S n' => z mod 256 :: le_split n' (z / 256)
  end.

Fixpoint le_combine (bs : list Z) : Z :=
  match bs with
  | [] => 0
  | h :: t => h + 256 * le_combine t
  end.

(** An [__m128i]: sixteen bytes. *)
Definition m128i : Type := list Z.

Fixpoint mapM {X Y : Type} (f : X -> outcome Y) (l : list X) : outcome (list Y) :=
  match l with
  | [] => Ok []
  | x :: t => y <- f x ;; ys <- mapM f t ;; Ok (y :: ys)
  end.

Definition to_bytes (T : NumType) (v : Value) : outcome (list Z) :=
  match v with
  | VInt z => Ok (le_split (sizeof T) z)
  | VFloat _ => Undefined
  end.

Definition from_bytes (T : NumType) (bs : list Z) : Value :=
  VInt (wrap T (le_combine bs)).

(** The register seen as [16 / sizeof(T)] lanes of [sizeof(T)] bytes. *)
Definition lanes (T : NumType) (v : m128i) : list (list Z) :=
  map (fun j => firstn (sizeof T) (skipn (j * sizeof T) v))
      (seq 0 (16 / sizeof T)).

(** [_mm_loadu_si128] of the sixteen bytes that start at element [pos] of a
    buffer of [T]. *)
Definition load128 (T : NumType) (a : PODArray) (pos : nat) : outcome m128i :=
  bs <- mapM (fun i => x <- read a i ;; to_bytes T x) (seq pos (16 / sizeof T)) ;;
  Ok (concat bs).

Fixpoint write_all (c : PODArray) (pos : nat) (vs : list Value) : outcome PODArray :=
  match vs with
  | [] => Ok c
  | v :: t => c' <- write c pos v ;; write_all c' (S pos) t
  end.

(** [_mm_storeu_si128] of sixteen bytes at element [pos] of a buffer of the
    integer type [T]: they cover [16 / sizeof(T)] elements. *)
Definition store128 (T : NumType) (c : PODArray) (pos : nat) (v : m128i)
  : outcome PODArray :=
  if is_integral T
  then write_all c pos (map (from_bytes T) (lanes T v))
  else Undefined.

(** Modelled from the spec: the SIMD form of [a / divider], lane by lane. *)
Definition sse_divide (A : NumType) (v : m128i) (d : divider) : m128i :=
  concat (map (fun bs => le_split (sizeof A)
                           (libdivide_divide A (wrap A (le_combine bs)) d))
              (lanes A v)).

(** The two pointers of the fast loop and the buffer they write. *)
Record cursor : Type := mkCursor { a_pos : nat; c_pos : nat; c_buf : PODArray }.

Section ByConstant.

Context {NT : NumberTraits}.

(** The value of an expression converted to the type of the element it is
    assigned to. *)
Definition assigned_as (R : NumType) (r : NumType * Value) : outcome Value :=
  of_option (conv (fst r) R (snd r)).

Definition DivideIntegralByConstantImpl_vector_constant (A B : NumType)
  (a : PODArray) (b : Value) (c : PODArray) : outcome PODArray :=
  let R := ResultType DivideIntegralImpl A B in
  if equal B b Int32 (int_literal 0) then Throw DivisionByZero
  else if is_signed B && equal B b Int32 (int_literal (-1)) then
    let size := length a in
    for_loop size 0 (fun i c =>
      x <- read c i ;;
      r <- negate_expr R x ;;
      v <- assigned_as R r ;;
      write c i v) c
  else
    divider <- libdivide_divider A B b ;;
    let size := length a in
    let a_end := size in
    let values_per_sse_register := (16 / sizeof A)%nat in
    let a_end_sse := (size / values_per_sse_register * values_per_sse_register)%nat in
    s <- while size (fun s => (a_pos s <? a_end_sse)%nat) (fun s =>
           v <- load128 A a (a_pos s) ;;
           c' <- store128 R (c_buf s) (c_pos s) (sse_divide A v divider) ;;
           Ok (mkCursor (a_pos s + values_per_sse_register)
                        (c_pos s + values_per_sse_register) c'))
         (mkCursor 0 0 c) ;;
    s <- while size (fun s => (a_pos s <? a_end)%nat) (fun s =>
           x <- read a (a_pos s) ;;
           q <- scalar_divide A x divider ;;
           v <- assigned_as R (A, q) ;;
           c' <- write (c_buf s) (c_pos s) v ;;
           Ok (mkCursor (S (a_pos s)) (S (c_pos s)) c'))
         s ;;
    Ok (c_buf s).

Definition ModuloByConstantImpl_vector_constant (A B : NumType)
  (a : PODArray) (b : Value) (c : PODArray) : outcome PODArray :=
  let R := ResultType ModuloImpl A B in
  if equal B b Int32 (int_literal 0) then Throw DivisionByZero
  else if (is_signed B && equal B b Int32 (int_literal (-1)))
          || equal B b Int32 (int_literal 1) then
    let size := length a in
    for_loop size 0 (fun i c =>
      v <- assigned_as R (Int32, int_literal 0) ;;
      write c i v) c
  else
    divider <- libdivide_divider A B b ;;
    let size := length a in
    for_loop size 0 (fun i c =>
      x <- read a i ;;
      q <- scalar_divide A x divider ;;
      m <- binary_expr A q Mul B b ;;
      d <- binary_expr A x Sub (fst m) (snd m) ;;
      v <- assigned_as R d ;;
      write c i v) c.

(** The explicit specialisations of [BinaryOperationImpl], in the order of
    the source: left type, right type, operation. *)
Definition specializations : list (NumType * NumType * Operation) :=
  [ (UInt64, UInt8, DivideIntegralImpl); (UInt64, UInt16, DivideIntegralImpl);
    (UInt64, UInt32, DivideIntegralImpl); (UInt64, UInt64, DivideIntegralImpl);
    (UInt32, UInt8, DivideIntegralImpl); (UInt32, UInt16, DivideIntegralImpl);
    (UInt32, UInt32, DivideIntegralImpl); (UInt32, UInt64, DivideIntegralImpl);
    (Int64, Int8, DivideIntegralImpl); (Int64, Int16, DivideIntegralImpl);
    (Int64, Int32, DivideIntegralImpl); (Int64, Int64, DivideIntegralImpl);
    (Int32, Int8, DivideIntegralImpl); (Int32, Int16, DivideIntegralImpl);
    (Int32, Int32, DivideIntegralImpl); (Int32, Int64, DivideIntegralImpl);
    (UInt64, UInt8, ModuloImpl); (UInt64, UInt16, ModuloImpl);
    (UInt64, UInt32, ModuloImpl); (UInt64, UInt64, ModuloImpl);
    (UInt32, UInt8, ModuloImpl); (UInt32, UInt16, ModuloImpl);
    (UInt32, UInt32, ModuloImpl); (UInt32, UInt64, ModuloImpl);
    (Int64, Int8, ModuloImpl); (Int64, Int16, ModuloImpl);
    (Int64, Int32, ModuloImpl); (Int64, Int64, ModuloImpl);
    (Int32, Int8, ModuloImpl); (Int32, Int16, ModuloImpl);
    (Int32, Int32, ModuloImpl); (Int32, Int64, ModuloImpl) ].

Definition specialized (A B : NumType) (Op : Operation) : bool :=
  existsb (fun s =>
    match s with
    | (A', B', Op') =>
        NumType_eqb A A' && NumType_eqb B B'
        && (if Operation_eq_dec Op Op' then true else false)
    end) specializations.

(** [BinaryOperationImpl<A, B, Op<A, B>, ResultType>].  A specialisation is
    written for the default fourth argument, [Op<A, B>::ResultType], and is
    chosen only when the kernel is asked for with that result type. *)
Definition overridden (A B : NumType) (Op : Operation) (R : NumType) : bool :=
  specialized A B Op && NumType_eqb R (ResultType Op A B).

Definition BinaryOperationImpl_vector_vector (A B : NumType) (Op : Operation)
  (R : NumType) (a b c : PODArray) : outcome PODArray :=
  BinaryOperationImplBase_vector_vector A B Op R a b c.

Definition BinaryOperationImpl_vector_constant (A B : NumType) (Op : Operation)
  (R : NumType) (a : PODArray) (b : Value) (c : PODArray) : outcome PODArray :=
  if overridden A B Op R then
    match Op with
    | DivideIntegralImpl => DivideIntegralByConstantImpl_vector_constant A B a b c
    | ModuloImpl => ModuloByConstantImpl_vector_constant A B a b c
    | _ => BinaryOperationImplBase_vector_constant A B Op R a b c
    end
  else BinaryOperationImplBase_vector_constant A B Op R a b c.

Definition BinaryOperationImpl_constant_vector (A B : NumType) (Op : Operation)
  (R : NumType) (a : Value) (b c : PODArray) : outcome PODArray :=
  BinaryOperationImplBase_constant_vector A B Op R a b c.

Definition BinaryOperationImpl_constant_constant (A B : NumType) (Op : Operation)
  (R : NumType) (a b : Value) : outcome Value :=
  BinaryOperationImplBase_constant_constant A B Op R a b.

End ByConstant.

(** ** Data types, columns and blocks *)

(** The data types the function is instantiated for. *)
Inductive DataType : Set :=
| DataTypeDate | DataTypeDateTime
| DataTypeUInt8 | DataTypeUInt16 | DataTypeUInt32 | DataTypeUInt64
| DataTypeInt8 | DataTypeInt16 | DataTypeInt32 | DataTypeInt64
| DataTypeFloat32 | DataTypeFloat64.

Definition DataType_eq_dec (x y : DataType) : {x = y} + {x <> y}.
Proof. decide equality. Defined.

(** Modelled from the spec: [T::FieldType], declared with the data types,
    which are not among the sources.  A numeric type is stored as itself, a
    date as a [UInt16], a date with time as a [UInt32]. *)
Definition FieldType (T : DataType) : NumType :=
  match T with
  | DataTypeDate => UInt16
  | DataTypeDateTime => UInt32
  | DataTypeUInt8 => UInt8
  | DataTypeUInt16 => UInt16
  | DataTypeUInt32 => UInt32
  | DataTypeUInt64 => UInt64
  | DataTypeInt8 => Int8
  | DataTypeInt16 => Int16
  | DataTypeInt32 => Int32
  | DataTypeInt64 => Int64
  | DataTypeFloat32 => Float32
  | DataTypeFloat64 => Float64
  end.

(** Modelled from the spec: [DataTypeFromFieldType<T>::Type], the numeric
    data type stored as [T]. *)
Definition DataTypeFromFieldType (T : NumType) : DataType :=
  match T with
  | UInt8 => DataTypeUInt8
  | UInt16 => DataTypeUInt16
  | UInt32 => DataTypeUInt32
  | UInt64 => DataTypeUInt64
  | Int8 => DataTypeInt8
  | Int16 => DataTypeInt16
  | Int32 => DataTypeInt32
  | Int64 => DataTypeInt64
  | Float32 => DataTypeFloat32
  | Float64 => DataTypeFloat64
  end.

Definition IsIntegral (T : DataType) : bool :=
  match T with
  | DataTypeUInt8 | DataTypeUInt16 | DataTypeUInt32 | DataTypeUInt64
  | DataTypeInt8 | DataTypeInt16 | DataTypeInt32 | DataTypeInt64 => true
  | _ => false
  end.

Definition IsFloating (T : DataType) : bool :=
  match T with DataTypeFloat32 | DataTypeFloat64 => true | _ => false end.

Definition IsNumeric (T : DataType) : bool := IsIntegral T || IsFloating T.

Definition IsDateOrDateTime (T : DataType) : bool :=
  match T with DataTypeDate | DataTypeDateTime => true | _ => false end.

(** A data type object as a block or an argument list holds it: one of the
    types above, or any other descendant of [IDataType]. *)
Inductive IDataType : Set :=
| DataTypeObject (T : DataType)
| ForeignDataType (type_name : string).

(** [typeid_cast<const T *>(x)] as a condition. *)
Definition is_DataType (T : DataType) (x : IDataType) : bool :=
  match x with
  | DataTypeObject T' => if DataType_eq_dec T' T then true else false
  | ForeignDataType _ => false
  end.

(** A column object: a vector, a constant, or any other descendant of
    [IColumn]. *)
Inductive IColumn : Type :=
| ColumnVector (T : NumType) (data : PODArray)
| ColumnConst (T : NumType) (s : nat) (data : Value)
| ForeignColumn (column_name : string).

(** [typeid_cast<ColumnVector<T> *>(col)] and [typeid_cast<ColumnConst<T> *>(col)]:
    what the cast pointer gives access to, when the cast succeeds. *)
Definition as_ColumnVector (T : NumType) (col : IColumn) : option PODArray :=
  match col with
  | ColumnVector T' data => if NumType_eq_dec T' T then Some data else None
  | _ => None
  end.

Definition as_ColumnConst (T : NumType) (col : IColumn) : option (nat * Value) :=
  match col with
  | ColumnConst T' s data => if NumType_eq_dec T' T then Some (s, data) else None
  | _ => None
  end.

Definition TypeName (T : NumType) : string :=
  match T with
  | UInt8 => "UInt8" | UInt16 => "UInt16" | UInt32 => "UInt32" | UInt64 => "UInt64"
  | Int8 => "Int8" | Int16 => "Int16" | Int32 => "Int32" | Int64 => "Int64"
  | Float32 => "Float32" | Float64 => "Float64"
  end.

(** Modelled from the spec: the name a declared type exposes for
    diagnostics (the classes of the data types are not among the sources). *)
Definition IDataType_getName (x : IDataType) : string :=
  match x with
  | DataTypeObject DataTypeDate => "Date"
  | DataTypeObject DataTypeDateTime => "DateTime"
  | DataTypeObject T => TypeName (FieldType T)
  | ForeignDataType n => n
  end.

(** Modelled from the spec: the name a column exposes for diagnostics (the
    classes of the columns are not among the sources). *)
Definition IColumn_getName (col : IColumn) : string :=
  match col with
  | ColumnVector T _ => "ColumnVector<" ++ TypeName T ++ ">"
  | ColumnConst T _ _ => "ColumnConst<" ++ TypeName T ++ ">"
  | ForeignColumn n => n
  end.

(** Columns live in a store and are held by pointer: an address of the
    store, or the null pointer.  Nothing is ever freed. *)
Definition ColumnPtr : Set := option nat.

Record ColumnWithNameAndType : Set := mkColumnWithNameAndType {
  column : ColumnPtr;
  type : IDataType;
  name : string
}.

Definition Block : Set := list ColumnWithNameAndType.

Definition ColumnNumbers : Set := list nat.

Record State : Type := mkState { memory : list IColumn; block : Block }.

Definition getByPosition (st : State) (i : nat) : outcome ColumnWithNameAndType :=
  of_option (nth_error (block st) i).

Definition deref (st : State) (p : ColumnPtr) : outcome IColumn :=
  match p with
  | Some addr => of_option (nth_error (memory st) addr)
  | None => Undefined
  end.

(** [new Column]: the object is placed at an address no pointer holds yet. *)
Definition new_column (st : State) (col : IColumn) : nat * State :=
  (length (memory st), mkState (memory st ++ [col]) (block st)).

(** [block.getByPosition(i).column = p]. *)
Definition set_column (st : State) (i : nat) (p : ColumnPtr) : outcome State :=
  match nth_error (block st) i with
  | Some e =>
      Ok (mkState (memory st)
                  (update (block st) i (mkColumnWithNameAndType p (type e) (name e))))
  | None => Undefined
  end.

Definition store (st : State) (addr : nat) (col : IColumn) : State :=
  mkState (update (memory st) addr col) (block st).

(** [vec.resize(n)] on a new vector: [n] elements that nothing initialises.
    What they hold is whatever the allocator left there, given by [garbage]. *)
Definition indeterminate (R : NumType) (z : Z) : Value :=
  if is_integral R then VInt (wrap R z) else VFloat (float_of_Z R z).

Definition resize (garbage : nat -> Z) (R : NumType) (n : nat) : PODArray :=
  map (fun i => indeterminate R (garbage i)) (seq 0 n).

(** A chain [f x1 || f x2 || ...] of calls that return [bool] and work on a
    state: the first to return [true] ends it. *)
Fixpoint any_of {X S : Type} (l : list X) (f : X -> S -> outcome (bool * S)) (s : S)
  : outcome (bool * S) :=
  match l with
  | [] => Ok (false, s)
  | x :: t => r <- f x s ;; if fst r then Ok r else any_of t f (snd r)
  end.

(** The types tried for either argument, in the order of the source. *)
Definition candidates : list DataType :=
  [ DataTypeDate; DataTypeDateTime;
    DataTypeUInt8; DataTypeUInt16; DataTypeUInt32; DataTypeUInt64;
    DataTypeInt8; DataTypeInt16; DataTypeInt32; DataTypeInt64;
    DataTypeFloat32; DataTypeFloat64 ].

(** ** The result type of an operation on two data types *)

Section Traits.

Context {NT : NumberTraits}.

(** [DateBinaryOperationTraits<Operation, LeftDataType, RightDataType>];
    [None] is [InvalidType]. *)
Definition DateBinaryOperationTraits (Op : Operation) (LeftDataType RightDataType : DataType)
  : option DataType :=
  if Operation_eq_dec Op PlusImpl then
    if IsDateOrDateTime LeftDataType && IsIntegral RightDataType
    then Some LeftDataType
    else if IsIntegral LeftDataType && IsDateOrDateTime RightDataType
    then Some RightDataType
    else None
  else if Operation_eq_dec Op MinusImpl then
    if IsDateOrDateTime LeftDataType then
      if DataType_eq_dec LeftDataType RightDataType
      then Some DataTypeInt32
      else if IsIntegral RightDataType
      then Some LeftDataType
      else None
    else None
  else None.

(** [BinaryOperationTraits<Operation, LeftDataType, RightDataType>]. *)
Definition BinaryOperationTraits (Op : Operation) (LeftDataType RightDataType : DataType)
  : option DataType :=
  if IsDateOrDateTime LeftDataType || IsDateOrDateTime RightDataType
  then DateBinaryOperationTraits Op LeftDataType RightDataType
  else Some (DataTypeFromFieldType
               (ResultType Op (FieldType LeftDataType) (FieldType RightDataType))).

End Traits.

(** ** [FunctionBinaryArithmetic<Op, Name>] *)

Definition toString (n : nat) : string := NilZero.string_of_uint (Nat.to_uint n).

(** A [DataTypePtr]: a data type object or the null pointer. *)
Definition DataTypePtr : Set := option IDataType.

Section FunctionBinaryArithmetic.

Context {NT : NumberTraits}.

(** The operation the function is instantiated with; its name follows from
    it (the typedefs [FunctionPlus] ... [FunctionBitShiftRight]). *)
Variable Op : Operation.

(** What the allocator leaves in a buffer that is sized and not filled. *)
Variable garbage : nat -> Z.

Definition getName : string :=
  match Op with
  | PlusImpl => "plus"
  | MinusImpl => "minus"
  | MultiplyImpl => "multiply"
  | DivideFloatingImpl => "divide"
  | DivideIntegralImpl => "intDiv"
  | ModuloImpl => "modulo"
  | BitAndImpl => "bitAnd"
  | BitOrImpl => "bitOr"
  | BitXorImpl => "bitXor"
  | BitShiftLeftImpl => "bitShiftLeft"
  | BitShiftRightImpl => "bitShiftRight"
  end.

(** *** getReturnType *)

(** The two overloads of [checkRightTypeImpl]: for [InvalidType] and for a
    well-defined result. *)
Definition checkRightTypeImpl (ResultDataType : option DataType) (type_res : DataTypePtr)
  : outcome (bool * DataTypePtr) :=
  match ResultDataType with
  | None => Ok (false, type_res)
  | Some T => Ok (true, Some (DataTypeObject T))
  end.

Definition checkRightType (LeftDataType RightDataType : DataType)
  (arguments : list IDataType) (type_res : DataTypePtr) : outcome (bool * DataTypePtr) :=
  let ResultDataType := BinaryOperationTraits Op LeftDataType RightDataType in
  arg1 <- of_option (nth_error arguments 1) ;;
  if is_DataType RightDataType arg1
  then checkRightTypeImpl ResultDataType type_res
  else Ok (false, type_res).

Definition checkLeftType (T0 : DataType) (arguments : list IDataType)
  (type_res : DataTypePtr) : outcome (bool * DataTypePtr) :=
  arg0 <- of_option (nth_error arguments 0) ;;
  if is_DataType T0 arg0 then
    r <- any_of candidates (fun R => checkRightType T0 R arguments) type_res ;;
    if fst r then Ok (true, snd r)
    else
      arg1 <- of_option (nth_error arguments 1) ;;
      Throw (mkException ("Illegal type " ++ IDataType_getName arg1
                          ++ " of second argument of function " ++ getName)
                         ILLEGAL_TYPE_OF_ARGUMENT)
  else Ok (false, type_res).

Definition getReturnType (arguments : list IDataType) : outcome DataTypePtr :=
  if negb (length arguments =? 2)%nat then
    Throw (mkException ("Number of arguments for function " ++ getName
                        ++ " doesn't match: passed " ++ toString (length arguments)
                        ++ ", should be 2.")
                       NUMBER_OF_ARGUMENTS_DOESNT_MATCH)
  else
    r <- any_of candidates (fun T0 => checkLeftType T0 arguments) None ;;
    if fst r then Ok (snd r)
    else
      arg0 <- of_option (nth_error arguments 0) ;;
      Throw (mkException ("Illegal type " ++ IDataType_getName arg0
                          ++ " of first argument of function " ++ getName)
                         ILLEGAL_TYPE_OF_ARGUMENT).

(** *** execute *)

(** The shape of the left column a function template is instantiated for:
    [ColumnVector<T0>] or [ColumnConst<T0>]. *)
Inductive ColumnType : Set := Vector | Constant.

Definition argument (arguments : ColumnNumbers) (i : nat) : outcome nat :=
  of_option (nth_error arguments i).

(** [col_left->getData()] and [col_left->size()] through the typed pointer
    [col_left]. *)
Definition ColumnVector_getData (st : State) (col : nat) : outcome PODArray :=
  c <- deref st (Some col) ;;
  match c with ColumnVector _ data => Ok data | _ => Undefined end.

Definition ColumnConst_getData (st : State) (col : nat) : outcome Value :=
  c <- deref st (Some col) ;;
  match c with ColumnConst _ _ data => Ok data | _ => Undefined end.

Definition ColumnConst_size (st : State) (col : nat) : outcome nat :=
  c <- deref st (Some col) ;;
  match c with ColumnConst _ s _ => Ok s | _ => Undefined end.

(** The [ColumnVector] overload of [executeRightTypeImpl]. *)
Definition executeRightTypeImpl_ColumnVector (T0 T1 ResultType : NumType)
  (arguments : ColumnNumbers) (result : nat) (col_left : nat) (st : State)
  : outcome (bool * State) :=
  arg1 <- argument arguments 1 ;;
  e1 <- getByPosition st arg1 ;;
  right <- deref st (column e1) ;;
  match as_ColumnVector T1 right, as_ColumnConst T1 right with
  | Some col_right, _ =>
      let (col_res, st) := new_column st (ColumnVector ResultType []) in
      st <- set_column st result (Some col_res) ;;
      left <- ColumnVector_getData st col_left ;;
      let vec_res := resize garbage ResultType (length left) in
      c <- BinaryOperationImpl_vector_vector T0 T1 Op ResultType left col_right vec_res ;;
      Ok (true, store st col_res (ColumnVector ResultType c))
  | None, Some (_, col_right) =>
      let (col_res, st) := new_column st (ColumnVector ResultType []) in
      st <- set_column st result (Some col_res) ;;
      left <- ColumnVector_getData st col_left ;;
      let vec_res := resize garbage ResultType (length left) in
      c <- BinaryOperationImpl_vector_constant T0 T1 Op ResultType left col_right vec_res ;;
      Ok (true, store st col_res (ColumnVector ResultType c))
  | None, None => Ok (false, st)
  end.

(** The [ColumnConst] overload of [executeRightTypeImpl]. *)
Definition executeRightTypeImpl_ColumnConst (T0 T1 ResultType : NumType)
  (arguments : ColumnNumbers) (result : nat) (col_left : nat) (st : State)
  : outcome (bool * State) :=
  arg1 <- argument arguments 1 ;;
  e1 <- getByPosition st arg1 ;;
  right <- deref st (column e1) ;;
  match as_ColumnVector T1 right, as_ColumnConst T1 right with
  | Some col_right, _ =>
      let (col_res, st) := new_column st (ColumnVector ResultType []) in
      st <- set_column st result (Some col_res) ;;
      size <- ColumnConst_size st col_left ;;
      let vec_res := resize garbage ResultType size in
      left <- ColumnConst_getData st col_left ;;
      c <- BinaryOperationImpl_constant_vector T0 T1 Op ResultType left col_right vec_res ;;
      Ok (true, store st col_res (ColumnVector ResultType c))
  | None, Some (_, col_right) =>
      left <- ColumnConst_getData st col_left ;;
      res <- BinaryOperationImpl_constant_constant T0 T1 Op ResultType left col_right ;;
      size <- ColumnConst_size st col_left ;;
      let (col_res, st) := new_column st (ColumnConst ResultType size res) in
      st <- set_column st result (Some col_res) ;;
      Ok (true, st)
  | None, None => Ok (false, st)
  end.

Definition executeRightTypeImpl (ColumnType : ColumnType) (T0 T1 ResultType : NumType)
  (arguments : ColumnNumbers) (result : nat) (col_left : nat) (st : State)
  : outcome (bool * State) :=
  match ColumnType with
  | Vector => executeRightTypeImpl_ColumnVector T0 T1 ResultType arguments result col_left st
  | Constant => executeRightTypeImpl_ColumnConst T0 T1 ResultType arguments result col_left st
  end.

(** The two overloads of [executeRightTypeDispatch]: for [InvalidType] and
    for a well-defined result. *)
Definition executeRightTypeDispatch (LeftDataType RightDataType : DataType)
  (ResultDataType : option DataType) (ColumnType : ColumnType)
  (arguments : ColumnNumbers) (result : nat) (col_left : nat) (st : State)
  : outcome (bool * State) :=
  match ResultDataType with
  | None => Ok (false, st)
  | Some ResultDataType =>
      let T0 := FieldType LeftDataType in
      let T1 := FieldType RightDataType in
      let ResultType := FieldType ResultDataType in
      executeRightTypeImpl ColumnType T0 T1 ResultType arguments result col_left st
  end.

(** The two overloads of [executeRightType]: the one for date operations is
    enabled when either type is a date, the other when both are numeric. *)
Definition executeRightType (LeftDataType RightDataType : DataType)
  (ColumnType : ColumnType) (arguments : ColumnNumbers) (result : nat)
  (col_left : nat) (st : State) : outcome (bool * State) :=
  if IsDateOrDateTime LeftDataType || IsDateOrDateTime RightDataType then
    arg1 <- argument arguments 1 ;;
    e1 <- getByPosition st arg1 ;;
    if negb (is_DataType RightDataType (type e1)) then Ok (false, st)
    else
      let ResultDataType := DateBinaryOperationTraits Op LeftDataType RightDataType in
      executeRightTypeDispatch LeftDataType RightDataType ResultDataType ColumnType
        arguments result col_left st
  else
    let T0 := FieldType LeftDataType in
    let T1 := FieldType RightDataType in
    executeRightTypeImpl ColumnType T0 T1 (ResultType Op T0 T1)
      arguments result col_left st.

Definition is_ColumnType (ColumnType : ColumnType) (T : NumType) (col : IColumn) : bool :=
  match ColumnType with
  | Vector => match as_ColumnVector T col with Some _ => true | None => false end
  | Constant => match as_ColumnConst T col with Some _ => true | None => false end
  end.

Definition executeLeftTypeImpl (LeftDataType : DataType) (ColumnType : ColumnType)
  (arguments : ColumnNumbers) (result : nat) (st : State) : outcome (bool * State) :=
  arg0 <- argument arguments 0 ;;
  e0 <- getByPosition st arg0 ;;
  match column e0 with
  | None => Undefined
  | Some col_left =>
      left <- deref st (Some col_left) ;;
      if is_ColumnType ColumnType (FieldType LeftDataType) left then
        r <- any_of candidates
               (fun R => executeRightType LeftDataType R ColumnType arguments result col_left)
               st ;;
        if fst r then Ok (true, snd r)
        else
          arg1 <- argument arguments 1 ;;
          e1 <- getByPosition (snd r) arg1 ;;
          right <- deref (snd r) (column e1) ;;
          Throw (mkException ("Illegal column " ++ IColumn_getName right
                              ++ " of second argument of function " ++ getName)
                             ILLEGAL_COLUMN)
      else Ok (false, st)
  end.

Definition executeLeftTypeDispatch (LeftDataType : DataType)
  (arguments : ColumnNumbers) (result : nat) (st : State) : outcome (bool * State) :=
  any_of [Vector; Constant]
    (fun ColumnType => executeLeftTypeImpl LeftDataType ColumnType arguments result) st.

(** The two overloads of [executeLeftType]: the one for a date checks the
    declared type of the first argument, the one for a numeric type does
    not. *)
Definition executeLeftType (LeftDataType : DataType)
  (arguments : ColumnNumbers) (result : nat) (st : State) : outcome (bool * State) :=
  if IsDateOrDateTime LeftDataType then
    arg0 <- argument arguments 0 ;;
    e0 <- getByPosition st arg0 ;;
    if negb (is_DataType LeftDataType (type e0)) then Ok (false, st)
    else executeLeftTypeDispatch LeftDataType arguments result st
  else executeLeftTypeDispatch LeftDataType arguments result st.

Definition execute (st : State) (arguments : ColumnNumbers) (result : nat)
  : outcome State :=
  r <- any_of candidates (fun L => executeLeftType L arguments result) st ;;
  if fst r then Ok (snd r)
  else
    arg0 <- argument arguments 0 ;;
    e0 <- getByPosition (snd r) arg0 ;;
    left <- deref (snd r) (column e0) ;;
    Throw (mkException ("Illegal column " ++ IColumn_getName left
                        ++ " of first argument of function " ++ getName)
                       ILLEGAL_COLUMN).

End FunctionBinaryArithmetic.

(** ** An instance of the result types, from the promotion table of the spec *)

Definition make_integer (signed : bool) (width : Z) : NumType :=
  if signed
  then (if width <=? 8 then Int8 else if width <=? 16 then Int16
        else if width <=? 32 then Int32 else Int64)
  else (if width <=? 8 then UInt8 else if width <=? 16 then UInt16
        else if width <=? 32 then UInt32 else UInt64).

(** Modelled from the spec: NumberTraits.h is not among the sources.  For
    [+] and [*] the width is twice the larger width, capped at 64, the result
    is signed if either operand is, and a floating operand gives [Float64]. *)
Definition spec_ResultOfAdditionMultiplication (A B : NumType) : NumType :=
  if is_floating A || is_floating B then Float64
  else make_integer (is_signed A || is_signed B) (Z.min 64 (2 * Z.max (bits A) (bits B))).

(** Modelled from the spec: as for [+], and always signed. *)
Definition spec_ResultOfSubtraction (A B : NumType) : NumType :=
  if is_floating A || is_floating B then Float64
  else make_integer true (Z.min 64 (2 * Z.max (bits A) (bits B))).

(** Modelled from the spec: [Float64] if either operand is [Float64] or wider
    than 32 bits, else [Float32]. *)
Definition spec_ResultOfFloatingPointDivision (A B : NumType) : NumType :=
  if (32 <? bits A) || (32 <? bits B) then Float64 else Float32.

(** Modelled from the spec: the integer projection of a type.  An integer
    type is its own projection; for a floating type the spec names no width,
    and the widest signed integer type is taken. *)
Definition spec_ToInteger (T : NumType) : NumType :=
  if is_integral T then T else Int64.

(** Modelled from the spec: the rule of [+], never floating. *)
Definition spec_ResultOfIntegerDivision (A B : NumType) : NumType :=
  if is_floating A || is_floating B then Int64
  else make_integer (is_signed A || is_signed B) (Z.min 64 (2 * Z.max (bits A) (bits B))).

(** Modelled from the spec: width and signedness of the projection of the
    left type. *)
Definition spec_ResultOfModulo (A B : NumType) : NumType := spec_ToInteger A.

(** Modelled from the spec: the larger width, signed if either operand is.
    The spec gives no type for floating operands; the kernels of the source
    are instantiated for them all the same, and the projection is taken. *)
Definition spec_ResultOfBit (A B : NumType) : NumType :=
  if is_floating A || is_floating B then Int64
  else make_integer (is_signed A || is_signed B) (Z.max (bits A) (bits B)).

Definition spec_traits : NumberTraits.
Proof.
  refine {|
    ResultOfAdditionMultiplication := spec_ResultOfAdditionMultiplication;
    ResultOfSubtraction := spec_ResultOfSubtraction;
    ResultOfFloatingPointDivision := spec_ResultOfFloatingPointDivision;
    ResultOfIntegerDivision := spec_ResultOfIntegerDivision;
    ResultOfModulo := spec_ResultOfModulo;
    ResultOfBit := spec_ResultOfBit;
    ToInteger := spec_ToInteger
  |}.
  - intros T; destruct T; reflexivity.
  - intros T; destruct T; simpl; intros H; try reflexivity; discriminate H.
Defined.

(** ** Predicates of the statements *)

(** A value that is zero: the integer [0], or a floating zero of either
    sign. *)
Definition is_zero (v : Value) : Prop :=
  match v with
  | VInt z => z = 0
  | VFloat f => exists s, f = S754_zero s
  end.

(** The value [-1] of a type. *)
Definition minus_one (T : NumType) : Value :=
  if is_integral T then VInt (-1) else VFloat (float_of_Z T (-1)).

(** A value of magnitude below one: the integer [0], a floating zero, or a
    finite floating value [m * 2^e] with [m < 2^(-e)]. *)
Definition abs_lt_one (v : Value) : Prop :=
  match v with
  | VInt z => Z.abs z < 1
  | VFloat (S754_zero _) => True
  | VFloat (S754_finite _ m e) => e < 0 /\ Zpos m < 2 ^ (- e)
  | VFloat _ => False
  end.

(** The operands on which [throwIfDivisionLeadsToFPE<A, B>] reports the
    division of the least value by minus one. *)
Definition overflow_operands (A B : NumType) (a b : Value) : Prop :=
  is_signed A = true /\ is_signed B = true
  /\ a = numeric_limits_min A /\ b = minus_one B.

(** The number of rows a column stands for. *)
Definition IColumn_size (col : IColumn) : nat :=
  match col with
  | ColumnVector _ data => length data
  | ColumnConst _ s _ => s
  | ForeignColumn _ => 0
  end.

(** The column [execute] builds from a left and a right column, for each of
    the four combinations of shapes: the relation its result is proved to
    satisfy. *)
Inductive computed {NT : NumberTraits} (Op : Operation) (garbage : nat -> Z)
  (T0 T1 R : NumType) : IColumn -> IColumn -> IColumn -> Prop :=
| computed_vector_vector (a b c : PODArray) :
    BinaryOperationImpl_vector_vector T0 T1 Op R a b (resize garbage R (length a)) = Ok c ->
    computed Op garbage T0 T1 R (ColumnVector T0 a) (ColumnVector T1 b) (ColumnVector R c)
| computed_vector_constant (a : PODArray) (s : nat) (b : Value) (c : PODArray) :
    BinaryOperationImpl_vector_constant T0 T1 Op R a b (resize garbage R (length a)) = Ok c ->
    computed Op garbage T0 T1 R (ColumnVector T0 a) (ColumnConst T1 s b) (ColumnVector R c)
| computed_constant_vector (s : nat) (a : Value) (b c : PODArray) :
    BinaryOperationImpl_constant_vector T0 T1 Op R a b (resize garbage R s) = Ok c ->
    computed Op garbage T0 T1 R (ColumnConst T0 s a) (ColumnVector T1 b) (ColumnVector R c)
| computed_constant_constant (s : nat) (a : Value) (s' : nat) (b r : Value) :
    BinaryOperationImpl_constant_constant T0 T1 Op R a b = Ok r ->
    computed Op garbage T0 T1 R (ColumnConst T0 s a) (ColumnConst T1 s' b) (ColumnConst R s r).

(** The state after a column has been allocated and put at position
    [result]. *)
Definition with_result (st : State) (result : nat) (e_res : ColumnWithNameAndType)
  (col_res : IColumn) : State :=
  mkState (memory st ++ [col_res])
          (update (block st) result
             (mkColumnWithNameAndType (Some (length (memory st))) (type e_res) (name e_res))).

(** What a call of [execute] that returns has done: it has found a left and
    a right column through the two argument positions, computed a column from
    them, and put it, newly allocated, at position [result]. *)
Definition performed {NT : NumberTraits} (Op : Operation) (garbage : nat -> Z)
  (st : State) (arguments : ColumnNumbers) (result : nat) (st' : State) : Prop :=
  exists arg0 arg1 e0 e1 e_res p0 left right T0 T1 R col_res,
    nth_error arguments 0 = Some arg0 /\ nth_error arguments 1 = Some arg1
    /\ nth_error (block st) arg0 = Some e0 /\ nth_error (block st) arg1 = Some e1
    /\ nth_error (block st) result = Some e_res
    /\ column e0 = Some p0 /\ nth_error (memory st) p0 = Some left
    /\ deref st (column e1) = Ok right
    /\ computed Op garbage T0 T1 R left right col_res
    /\ st' = with_result st result e_res col_res.

(** What the two kernels of a specialised pair are proved to return for the
    constant [b]: the quotients of the elements, and their remainders
    converted to the result type [R]. *)
Definition quotients (b : Z) (zs : list Z) : PODArray :=
  map (fun z => VInt (Z.quot z b)) zs.

Definition remainders (A : NumType) (b : Z) (R : NumType) (zs : list Z) : PODArray :=
  map (fun z => match conv A R (VInt (Z.rem z b)) with
                | Some v => v
                | None => VInt 0
                end) zs.

(** A block for the examples: two argument columns, of the given declared
    types, at positions 0 and 1, and a result position 2 that holds no
    column yet. *)
Definition two_columns (t0 : DataType) (c0 : IColumn) (t1 : DataType) (c1 : IColumn)
  : State :=
  mkState [c0; c1]
    [ mkColumnWithNameAndType (Some 0%nat) (DataTypeObject t0) "a";
      mkColumnWithNameAndType (Some 1%nat) (DataTypeObject t1) "b";
      mkColumnWithNameAndType None (ForeignDataType "") "c" ].

(** The allocator of the examples hands out zeroed memory. *)
Definition zeroed : nat -> Z := fun _ => 0.

(** ** The unary operations *)

(** Modelled from the spec: the result types of the unary operations, which
    NumberTraits.h computes and which is not among the sources.  They are the
    fields of this class, and the development holds for every instance. *)
Class UnaryNumberTraits : Type := {
  ResultOfNegate : NumType -> NumType;
  ResultOfBitNot : NumType -> NumType
}.

(** The unary operations, by the name of their struct. *)
Inductive UnaryOperation : Set := NegateImpl | BitNotImpl.

(** [~a] for [a] of type [A], with the type of the result; the operator has
    no floating form. *)
Definition bitnot_expr (A : NumType) (a : Value) : outcome (NumType * Value) :=
  let P := promote A in
  x <- of_option (conv A P a) ;;
  match x with
  | VInt x =>
      if is_signed P
      then Ok (P, VInt (Z.lnot x))
      else Ok (P, VInt (Z.lnot x mod 2 ^ bits P))
  | VFloat _ => Undefined
  end.

Section UnaryOperations.

Context {UT : UnaryNumberTraits}.

(** [Op<A>::ResultType]. *)
Definition UnaryResultType (Op : UnaryOperation) (A : NumType) : NumType :=
  match Op with
  | NegateImpl => ResultOfNegate A
  | BitNotImpl => ResultOfBitNot A
  end.

Definition NegateImpl_apply (A : NumType) (a : Value) : outcome Value :=
  let ResultType := ResultOfNegate A in
  x <- static_cast A ResultType a ;;
  r <- negate_expr ResultType x ;;
  return_as ResultType r.

Definition BitNotImpl_apply (A : NumType) (a : Value) : outcome Value :=
  let ResultType := ResultOfBitNot A in
  x <- static_cast A ResultType a ;;
  r <- bitnot_expr ResultType x ;;
  return_as ResultType r.

(** [Op::apply(a)]. *)
Definition unary_apply (Op : UnaryOperation) (A : NumType) (a : Value) : outcome Value :=
  match Op with
  | NegateImpl => NegateImpl_apply A a
  | BitNotImpl => BitNotImpl_apply A a
  end.

(** The two kernels of [UnaryOperationImpl]. *)
Definition UnaryOperationImpl_vector (A : NumType) (Op : UnaryOperation)
  (a c : PODArray) : outcome PODArray :=
  let size := length a in
  for_loop size 0 (fun i c =>
    x <- read a i ;;
    r <- unary_apply Op A x ;;
    write c i r) c.

Definition UnaryOperationImpl_constant (A : NumType) (Op : UnaryOperation)
  (a : Value) : outcome Value :=
  unary_apply Op A a.

(** *** [FunctionUnaryArithmetic<Op, Name>] *)

Variable Op : UnaryOperation.

Variable garbage : nat -> Z.

Definition unary_getName : string :=
  match Op with
  | NegateImpl => "negate"
  | BitNotImpl => "bitNot"
  end.

(** The data types tried for the argument, in the order of the source: the
    numeric ones. *)
Definition unary_candidates : list DataType :=
  [ DataTypeUInt8; DataTypeUInt16; DataTypeUInt32; DataTypeUInt64;
    DataTypeInt8; DataTypeInt16; DataTypeInt32; DataTypeInt64;
    DataTypeFloat32; DataTypeFloat64 ].

(** The field types tried for the column of the argument, in the order of
    the source. *)
Definition unary_field_types : list NumType :=
  [ UInt8; UInt16; UInt32; UInt64; Int8; Int16; Int32; Int64; Float32; Float64 ].

Definition checkType (T0 : DataType) (arguments : list IDataType) (result : DataTypePtr)
  : outcome (bool * DataTypePtr) :=
  arg0 <- of_option (nth_error arguments 0) ;;
  if is_DataType T0 arg0
  then Ok (true, Some (DataTypeObject
                         (DataTypeFromFieldType (UnaryResultType Op (FieldType T0)))))
  else Ok (false, result).

Definition unary_getReturnType (arguments : list IDataType) : outcome DataTypePtr :=
  if negb (length arguments =? 1)%nat then
    Throw (mkException ("Number of arguments for function " ++ unary_getName
                        ++ " doesn't match: passed " ++ toString (length arguments)
                        ++ ", should be 1.")
                       NUMBER_OF_ARGUMENTS_DOESNT_MATCH)
  else
    r <- any_of unary_candidates (fun T0 => checkType T0 arguments) None ;;
    if fst r then Ok (snd r)
    else
      arg0 <- of_option (nth_error arguments 0) ;;
      Throw (mkException ("Illegal type " ++ IDataType_getName arg0
                          ++ " of argument of function " ++ unary_getName)
                         ILLEGAL_TYPE_OF_ARGUMENT).

Definition executeType (T0 : NumType) (arguments : ColumnNumbers) (result : nat)
  (st : State) : outcome (bool * State) :=
  arg0 <- argument arguments 0 ;;
  e0 <- getByPosition st arg0 ;;
  col <- deref st (column e0) ;;
  match as_ColumnVector T0 col, as_ColumnConst T0 col with
  | Some data, _ =>
      let ResultType := UnaryResultType Op T0 in
      let (col_res, st) := new_column st (ColumnVector ResultType []) in
      st <- set_column st result (Some col_res) ;;
      let vec_res := resize garbage ResultType (length data) in
      c <- UnaryOperationImpl_vector T0 Op data vec_res ;;
      Ok (true, store st col_res (ColumnVector ResultType c))
  | None, Some (size, data) =>
      let ResultType := UnaryResultType Op T0 in
      res <- UnaryOperationImpl_constant T0 Op data ;;
      let (col_res, st) := new_column st (ColumnConst ResultType size res) in
      st <- set_column st result (Some col_res) ;;
      Ok (true, st)
  | None, None => Ok (false, st)
  end.

Definition unary_execute (st : State) (arguments : ColumnNumbers) (result : nat)
  : outcome State :=
  r <- any_of unary_field_types (fun T0 => executeType T0 arguments result) st ;;
  if fst r then Ok (snd r)
  else
    arg0 <- argument arguments 0 ;;
    e0 <- getByPosition (snd r) arg0 ;;
    col <- deref (snd r) (column e0) ;;
    Throw (mkException ("Illegal column " ++ IColumn_getName col
                        ++ " of argument of function " ++ unary_getName)
                       ILLEGAL_COLUMN).

End UnaryOperations.

(** ** Further predicates of the statements *)

(** A column stored as a vector or as a constant of the field type [T]. *)
Definition stored_as (T : NumType) (col : IColumn) : Prop :=
  match col with
  | ColumnVector T' _ => T' = T
  | ColumnConst T' _ _ => T' = T
  | ForeignColumn _ => False
  end.

(** The column that the four branches of [executeRightTypeImpl] build from a
    left and a right column: a vector filled by the kernel of the two shapes,
    or, from two constants, a constant as long as the left one. *)
Definition kernel_column {NT : NumberTraits} (Op : Operation) (garbage : nat -> Z)
  (T0 T1 R : NumType) (left right : IColumn) : outcome IColumn :=
  match left, right with
  | ColumnVector _ a, ColumnVector _ b =>
      c <- BinaryOperationImpl_vector_vector T0 T1 Op R a b
             (resize garbage R (length a)) ;;
      Ok (ColumnVector R c)
  | ColumnVector _ a, ColumnConst _ _ b =>
      c <- BinaryOperationImpl_vector_constant T0 T1 Op R a b
             (resize garbage R (length a)) ;;
      Ok (ColumnVector R c)
  | ColumnConst _ s a, ColumnVector _ b =>
      c <- BinaryOperationImpl_constant_vector T0 T1 Op R a b
             (resize garbage R s) ;;
      Ok (ColumnVector R c)
  | ColumnConst _ s a, ColumnConst _ _ b =>
      r <- BinaryOperationImpl_constant_constant T0 T1 Op R a b ;;
      Ok (ColumnConst R s r)
  | _, _ => Undefined
  end.

(** The column that the two branches of the unary [executeType] build from
    the column of the argument. *)
Definition unary_kernel_column {UT : UnaryNumberTraits} (Op : UnaryOperation)
  (garbage : nat -> Z) (T0 : NumType) (col : IColumn) : outcome IColumn :=
  let R := UnaryResultType Op T0 in
  match col with
  | ColumnVector _ a =>
      c <- UnaryOperationImpl_vector T0 Op a (resize garbage R (length a)) ;;
      Ok (ColumnVector R c)
  | ColumnConst _ s a =>
      r <- UnaryOperationImpl_constant T0 Op a ;;
      Ok (ColumnConst R s r)
  | ForeignColumn _ => Undefined
  end.

(** The exception of [executeLeftTypeImpl] for a second column that no
    candidate accepts. *)
Definition second_argument_rejected (Op : Operation) (right : IColumn) : Exception :=
  mkException ("Illegal column " ++ IColumn_getName right
               ++ " of second argument of function " ++ getName Op)
              ILLEGAL_COLUMN.

(** The operation on the integers that [+], [-] and [*] stand for. *)
Definition arithmetic (Op : Operation) : option (Z -> Z -> Z) :=
  match Op with
  | PlusImpl => Some Z.add
  | MinusImpl => Some Z.sub
  | MultiplyImpl => Some Z.mul
  | _ => None
  end.

(** Modelled from the spec: for unary [-] the result is signed and one step
    wider, for unary [~] it has the width and the signedness of the operand.
    The spec names no type for a floating operand; [-] is given [Float64]
    and [~] the integer projection. *)
Definition spec_ResultOfNegate (A : NumType) : NumType :=
  if is_floating A then Float64
  else make_integer true (Z.min 64 (2 * bits A)).

Definition spec_ResultOfBitNot (A : NumType) : NumType := spec_ToInteger A.

Definition spec_unary_traits : UnaryNumberTraits :=
  {| ResultOfNegate := spec_ResultOfNegate; ResultOfBitNot := spec_ResultOfBitNot |}.

(** A block for the examples of the unary functions: the argument column at
    position 0, and a result position 1 that holds no column yet. *)
Definition one_column (t0 : IDataType) (c0 : IColumn) : State :=
  mkState [c0]
    [ mkColumnWithNameAndType (Some 0%nat) t0 "a";
      mkColumnWithNameAndType None (ForeignDataType "") "c" ].


(** * Properties *)

(** ** Integers and conversions *)

Lemma wrap_in_range (T : NumType) (z : Z) : in_range T z -> wrap T z = z.
Proof.
  unfold in_range, min_value, max_value, wrap.
  destruct T; simpl; intros H; rewrite Z.mod_small; lia.
Qed.

Lemma wrap_range (T : NumType) (z : Z) : in_range T (wrap T z).
Proof.
  unfold in_range, min_value, max_value, wrap.
  destruct T; simpl;
    match goal with
    | |- context [?x mod ?m] => pose proof (Z.mod_pos_bound x m ltac:(lia))
    end; lia.
Qed.

Lemma in_rangeb_spec (T : NumType) (z : Z) : in_rangeb T z = true <-> in_range T z.
Proof.
  unfold in_rangeb, in_range. rewrite andb_true_iff, !Z.leb_le. tauto.
Qed.

Lemma in_range_promote (T : NumType) (z : Z) :
  is_integral T = true -> in_range T z -> in_range (promote T) z.
Proof.
  unfold in_range, min_value, max_value.
  destruct T; simpl; intros; try discriminate; lia.
Qed.

(** An integer conversion keeps a value that the target type holds. *)
Lemma conv_int_in_range (from to : NumType) (z : Z) :
  is_integral to = true -> in_range to z -> conv from to (VInt z) = Some (VInt z).
Proof.
  intros Hi Hr. unfold conv.
  destruct (NumType_eq_dec from to); [reflexivity|].
  rewrite Hi, wrap_in_range by assumption. reflexivity.
Qed.

Lemma conv_int_int (from to : NumType) (z : Z) :
  is_integral to = true -> in_range from z ->
  exists z', conv from to (VInt z) = Some (VInt z') /\ in_range to z'.
Proof.
  intros Hi Hr. unfold conv.
  destruct (NumType_eq_dec from to) as [<-|].
  - eauto.
  - rewrite Hi. eauto using wrap_range.
Qed.

(** ** Comparisons with a literal *)

Lemma SFeqb_finite (f : spec_float) (s : bool) (m : positive) (e : Z) :
  SFeqb f (S754_finite s m e) = true <-> f = S754_finite s m e.
Proof.
  unfold SFeqb, SFcompare. split.
  - destruct f as [s'|s'| |s' m' e']; try discriminate;
      try (destruct s'; discriminate); try (destruct s; discriminate).
    destruct s', s; try discriminate;
        destruct (Z.compare_spec e' e); try discriminate; subst;
        change (Pos.compare_cont Eq m' m) with (Pos.compare m' m);
        destruct (Pos.compare_spec m' m); try discriminate; subst; reflexivity.
  - intros ->. destruct s; rewrite Z.compare_refl;
      change (Pos.compare_cont Eq m m) with (Pos.compare m m);
      rewrite Pos.compare_refl; reflexivity.
Qed.

Lemma SFeqb_zero (f : spec_float) (s : bool) :
  SFeqb f (S754_zero s) = true <-> exists s', f = S754_zero s'.
Proof.
  unfold SFeqb, SFcompare. split.
  - destruct f as [s'|s'| |s' m' e']; try discriminate;
      try (destruct s'; discriminate); eauto.
  - intros [s' ->]. reflexivity.
Qed.

Lemma equal_int (B : NumType) (z k : Z) :
  is_integral B = true -> in_range B z -> in_range Int32 k ->
  is_signed B = true \/ 0 <= k ->
  equal B (VInt z) Int32 (int_literal k) = (z =? k).
Proof.
  intros Hi Hz Hk Hs. unfold equal, int_literal.
  assert (Hc : is_integral (common B Int32) = true) by (destruct B; try discriminate; reflexivity).
  assert (Hz' : in_range (common B Int32) z).
  { revert Hz. unfold in_range, min_value, max_value.
    destruct B; try discriminate; simpl; lia. }
  assert (Hk' : in_range (common B Int32) k).
  { revert Hk Hs. unfold in_range, min_value, max_value.
    destruct B; try discriminate; simpl; intros ? [?|?]; try discriminate; lia. }
  rewrite !conv_int_in_range by assumption. reflexivity.
Qed.

Lemma equal_zero (B : NumType) (b : Value) :
  has_type B b -> (equal B b Int32 (int_literal 0) = true <-> is_zero b).
Proof.
  destruct b as [z|f]; simpl.
  - intros [Hi Hz]. rewrite equal_int; try assumption.
    + apply Z.eqb_eq.
    + unfold in_range, min_value, max_value; simpl; lia.
    + right; lia.
  - intros Hf. destruct B; try discriminate; unfold equal; simpl;
      apply SFeqb_zero.
Qed.

Lemma equal_minus_one (B : NumType) (b : Value) :
  has_type B b -> is_signed B = true ->
  (equal B b Int32 (int_literal (-1)) = true <-> b = minus_one B).
Proof.
  destruct b as [z|f]; simpl.
  - intros [Hi Hz] Hs. rewrite equal_int; try assumption; auto.
    + unfold minus_one. rewrite Hi, Z.eqb_eq. split; congruence.
    + unfold in_range, min_value, max_value; simpl; lia.
  - intros Hf _. destruct B; try discriminate; unfold equal, minus_one; simpl;
      match goal with
      | |- context [binary_round ?p ?e ?s ?m ?x] =>
          let v := eval vm_compute in (binary_round p e s m x) in
          change (binary_round p e s m x) with v
      end;
      rewrite SFeqb_finite; split; congruence.
Qed.

Lemma equal_min (A : NumType) (a : Value) :
  has_type A a ->
  (equal A a A (numeric_limits_min A) = true <-> a = numeric_limits_min A).
Proof.
  destruct a as [z|f]; simpl.
  - intros [Hi Hz]. unfold equal, numeric_limits_min. rewrite Hi.
    assert (Hc : is_integral (common A A) = true) by (destruct A; try discriminate; reflexivity).
    assert (Hr : forall x, in_range A x -> in_range (common A A) x).
    { unfold in_range, min_value, max_value.
      destruct A; try discriminate; simpl; lia. }
    rewrite !conv_int_in_range; auto.
    + rewrite Z.eqb_eq. split; congruence.
    + apply Hr. unfold in_range, min_value, max_value.
      destruct A; try discriminate; simpl; lia.
  - intros Hf. destruct A; try discriminate; unfold equal, numeric_limits_min; simpl;
      rewrite SFeqb_finite; split; congruence.
Qed.



(** [throwIfDivisionLeadsToFPE] in three cases. *)
Lemma throwIfDivisionLeadsToFPE_cases (A B : NumType) (a b : Value) :
  has_type A a -> has_type B b ->
  (is_zero b /\ throwIfDivisionLeadsToFPE A B a b = Throw DivisionByZero)
  \/ (~ is_zero b /\ overflow_operands A B a b
      /\ throwIfDivisionLeadsToFPE A B a b = Throw DivisionOverflow)
  \/ (~ is_zero b /\ ~ overflow_operands A B a b
      /\ throwIfDivisionLeadsToFPE A B a b = Ok tt).
Proof.
  intros Ha Hb. unfold throwIfDivisionLeadsToFPE, overflow_operands.
  pose proof (equal_zero B b Hb) as Hz.
  destruct (equal B b Int32 (int_literal 0)).
  - left. split; [apply Hz|]; reflexivity.
  - right.
    assert (Hnz : ~ is_zero b) by (intros H; apply Hz in H; discriminate).
    destruct (is_signed A) eqn:HsA; simpl;
      [destruct (is_signed B) eqn:HsB; simpl|].
    + pose proof (equal_min A a Ha) as Hm.
      pose proof (equal_minus_one B b Hb HsB) as Ho.
      destruct (equal A a A (numeric_limits_min A)); simpl;
        [destruct (equal B b Int32 (int_literal (-1)))|].
      * left. repeat split; auto. apply Hm; reflexivity. apply Ho; reflexivity.
      * right. repeat split; auto. intros (_ & _ & _ & H). apply Ho in H. discriminate.
      * right. repeat split; auto. intros (_ & _ & H & _). apply Hm in H. discriminate.
    + right. repeat split; auto. intros (_ & H & _). discriminate.
    + right. repeat split; auto. intros (H & _). discriminate.
Qed.

(** ** The outcome monad *)

Lemma bind_Ok_inv {X Y : Type} (m : outcome X) (k : X -> outcome Y) (r : Y) :
  bind m k = Ok r -> exists a, m = Ok a /\ k a = Ok r.
Proof. destruct m; simpl; intros H; try discriminate; eauto. Qed.






(** ** The integer projections of modulo *)

Lemma conv_to_integral_has_type (A I : NumType) (a x : Value) :
  is_integral I = true -> has_type A a -> conv A I a = Some x -> has_type I x.
Proof.
  intros Hi Ha. unfold conv.
  destruct (NumType_eq_dec A I) as [<-|Hne].
  - intros [= <-]. assumption.
  - rewrite Hi. destruct a as [z|f].
    + intros [= <-]. simpl. auto using wrap_range.
    + destruct (truncate f) as [z|]; [|discriminate].
      destruct (in_rangeb I z) eqn:Hr; [|discriminate].
      intros [= <-]. simpl. split; [assumption|]. apply in_rangeb_spec; assumption.
Qed.

Lemma rem_in_range (I : NumType) (x y : Z) :
  y <> 0 -> in_range I x -> in_range I (Z.rem x y).
Proof.
  intros Hy Hx.
  assert (Habs : Z.abs (Z.rem x y) <= Z.abs x).
  { rewrite <- Z.rem_abs by assumption.
    rewrite Z.rem_mod_nonneg by lia.
    apply Z.mod_le; lia. }
  pose proof (Z.rem_sign_mul x y Hy) as Hs.
  revert Hx. unfold in_range, min_value, max_value.
  destruct (is_signed I); nia.
Qed.

(** The remainder of two projections, past the fault check. *)
Lemma remainder_expr (I : NumType) (x y : Z) :
  is_integral I = true -> in_range I x -> in_range I y ->
  y <> 0 -> ~ (is_signed I = true /\ x = min_value I /\ y = -1) ->
  binary_expr I (VInt x) Rem I (VInt y) = Ok (promote I, VInt (Z.rem x y)).
Proof.
  intros Hi Hx Hy Hnz Hno. unfold binary_expr.
  assert (Hc : common I I = promote I) by (destruct I; try discriminate; reflexivity).
  rewrite Hc.
  assert (Hp : is_integral (promote I) = true) by (destruct I; try discriminate; reflexivity).
  rewrite !conv_int_in_range by auto using in_range_promote.
  simpl. unfold int_binop.
  destruct (Z.eqb_spec y 0); [contradiction|].
  destruct (is_signed (promote I) && (x =? min_value (promote I)) && (y =? -1)) eqn:Hc3.
  - exfalso. apply andb_true_iff in Hc3 as [Hc3 H3].
    apply andb_true_iff in Hc3 as [H1 H2].
    apply Z.eqb_eq in H2, H3. apply Hno.
    revert Hx H1 H2. unfold in_range, min_value, max_value.
    destruct I; try discriminate; simpl; intros; try discriminate; repeat split; auto; lia.
  - reflexivity.
Qed.

Lemma has_type_integral_inv (I : NumType) (v : Value) :
  is_integral I = true -> has_type I v -> exists z, v = VInt z /\ in_range I z.
Proof.
  intros Hi. destruct v as [z|f]; simpl.
  - intros [_ H]. eauto.
  - unfold is_floating. rewrite Hi. discriminate.
Qed.

Lemma numeric_limits_min_integral (I : NumType) :
  is_integral I = true -> numeric_limits_min I = VInt (min_value I).
Proof. unfold numeric_limits_min. intros ->. reflexivity. Qed.

Lemma minus_one_integral (I : NumType) :
  is_integral I = true -> minus_one I = VInt (-1).
Proof. unfold minus_one. intros ->. reflexivity. Qed.

Section Faults.

Context {NT : NumberTraits}.


(** [ModuloImpl::apply] in the cases of its two projections. *)
Lemma ModuloImpl_apply_cases (A B R : NumType) (a b : Value) :
  has_type A a -> has_type B b ->
  let I := ToInteger A in
  ((conv A I a = None \/ conv B I b = None) /\ ModuloImpl_apply A B R a b = Undefined)
  \/ exists x y,
       conv A I a = Some (VInt x) /\ conv B I b = Some (VInt y)
       /\ in_range I x /\ in_range I y
       /\ ((y = 0 /\ ModuloImpl_apply A B R a b = Throw DivisionByZero)
           \/ (is_signed I = true /\ x = min_value I /\ y = -1
               /\ ModuloImpl_apply A B R a b = Throw DivisionOverflow)
           \/ (y <> 0 /\ ~ (is_signed I = true /\ x = min_value I /\ y = -1)
               /\ ModuloImpl_apply A B R a b
                  = of_option (conv (promote I) R (VInt (Z.rem x y))))).
Proof.
  intros Ha Hb I. pose proof (ToInteger_is_integral A) as Hi. fold I in Hi.
  unfold ModuloImpl_apply. fold I. unfold static_cast.
  destruct (conv A I a) as [x|] eqn:Hx; [|left; auto].
  destruct (conv B I b) as [y|] eqn:Hy; [|left; auto].
  right.
  pose proof (conv_to_integral_has_type _ _ _ _ Hi Ha Hx) as Htx.
  pose proof (conv_to_integral_has_type _ _ _ _ Hi Hb Hy) as Hty.
  destruct (has_type_integral_inv _ _ Hi Htx) as (xz & -> & Hrx).
  destruct (has_type_integral_inv _ _ Hi Hty) as (yz & -> & Hry).
  exists xz, yz. repeat split; try assumption; try apply Hrx; try apply Hry.
  simpl.
  destruct (throwIfDivisionLeadsToFPE_cases I I (VInt xz) (VInt yz) Htx Hty)
    as [(Hz & ->)|[(Hz & Ho & ->)|(Hz & Ho & ->)]]; simpl in *.
  - left; auto.
  - right; left. destruct Ho as (Hs & _ & H1 & H2).
    rewrite numeric_limits_min_integral in H1 by assumption.
    rewrite minus_one_integral in H2 by assumption.
    repeat split; congruence.
  - right; right.
    assert (Hno : ~ (is_signed I = true /\ xz = min_value I /\ yz = -1)).
    { intros (Hs & H1 & H2). apply Ho. unfold overflow_operands.
      rewrite numeric_limits_min_integral, minus_one_integral by assumption.
      repeat split; congruence. }
    repeat split; auto.
    rewrite remainder_expr by assumption. reflexivity.
Qed.

End Faults.

(** ** The value of modulo *)

(** C6: when [ModuloImpl::apply] raises no division fault on operands whose
    projections to [ToInteger<A>] are [x] and [y], it returns the remainder
    of the truncated division of [x] by [y].  Both projections and the
    remainder lie in [ToInteger<A>]; returned as a [ToInteger<A>] the
    remainder is exact, and returned as another integer type [R] it is
    reduced into [R]. *)
Theorem ModuloImpl_apply_remainder {NT : NumberTraits} (A B R0 : NumType)
  (a b : Value) (x y : Z) :
  has_type A a -> has_type B b ->
  conv A (ToInteger A) a = Some (VInt x) ->
  conv B (ToInteger A) b = Some (VInt y) ->
  (forall e, ModuloImpl_apply A B R0 a b <> Throw e) ->
  in_range (ToInteger A) x /\ in_range (ToInteger A) y
  /\ in_range (ToInteger A) (Z.rem x y)
  /\ ModuloImpl_apply A B (ToInteger A) a b = Ok (VInt (Z.rem x y))
  /\ forall R, is_integral R = true ->
               ModuloImpl_apply A B R a b = Ok (VInt (wrap R (Z.rem x y))).
Proof.
  intros Ha Hb Hx Hy Hnf.
  pose proof (ToInteger_is_integral A) as Hi.
  assert (Hcases :
    y <> 0 /\ in_range (ToInteger A) x /\ in_range (ToInteger A) y
    /\ forall R, ModuloImpl_apply A B R a b
                 = of_option (conv (promote (ToInteger A)) R (VInt (Z.rem x y)))).
  { destruct (ModuloImpl_apply_cases A B R0 a b Ha Hb)
      as [([Hn|Hn] & E)|(x' & y' & Hx' & Hy' & Hrx & Hry & Hc)]; try congruence.
    assert (x' = x) by congruence. assert (y' = y) by congruence. subst x' y'.
    destruct Hc as [(_ & E)|[(_ & _ & _ & E)|(Hnz & Hno & _)]];
      try (elim (Hnf _ E)).
    repeat split; try assumption; try apply Hrx; try apply Hry.
    intros R.
    destruct (ModuloImpl_apply_cases A B R a b Ha Hb)
      as [([Hn|Hn] & E)|(x'' & y'' & Hx'' & Hy'' & _ & _ & Hc)]; try congruence.
    assert (x'' = x) by congruence. assert (y'' = y) by congruence. subst x'' y''.
    destruct Hc as [(H & _)|[(H1 & H2 & H3 & _)|(_ & _ & E)]];
      [contradiction|elim Hno; auto|assumption]. }
  destruct Hcases as (Hnz & Hrx & Hry & E).
  pose proof (rem_in_range _ x y Hnz Hrx) as Hrr.
  repeat split; try apply Hrx; try apply Hry; try apply Hrr.
  - rewrite E. rewrite conv_int_in_range by assumption. reflexivity.
  - intros R HR. rewrite E.
    unfold conv. destruct (NumType_eq_dec (promote (ToInteger A)) R) as [<-|].
    + simpl. rewrite wrap_in_range; [reflexivity|].
      apply in_range_promote; assumption.
    + rewrite HR. reflexivity.
Qed.

(** ** Modulo with a floating left operand *)

Lemma truncate_abs_lt_one (f : spec_float) :
  abs_lt_one (VFloat f) -> truncate f = Some 0.
Proof.
  destruct f as [s|s| |s m e]; simpl; try contradiction; auto.
  intros [He Hm].
  destruct (Z.leb_spec 0 e); [lia|].
  rewrite Z.div_small by lia. destruct s; reflexivity.
Qed.

(** C9: when the left type [A] is floating, the zero check of
    [ModuloImpl::apply] sees the projection of [b] to [ToInteger<A>]; for
    every [b] of magnitude below one (one half, say) that projection is [0],
    and the call throws the division-by-zero exception.  The left operand is
    any value that has a projection. *)
Theorem ModuloImpl_apply_fraction {NT : NumberTraits} (A B R : NumType) (a b : Value) :
  is_floating A = true -> has_type B b ->
  (exists x, conv A (ToInteger A) a = Some x) ->
  abs_lt_one b ->
  conv B (ToInteger A) b = Some (VInt 0)
  /\ ModuloImpl_apply A B R a b = Throw DivisionByZero.
Proof.
  intros HA Hb [x Hx] Hlt.
  pose proof (ToInteger_is_integral A) as Hi.
  assert (H0 : in_range (ToInteger A) 0).
  { unfold in_range, min_value, max_value.
    destruct (ToInteger A); simpl; lia. }
  assert (Hy : conv B (ToInteger A) b = Some (VInt 0)).
  { destruct b as [z|f].
    - simpl in Hlt. assert (z = 0) by lia. subst z.
      apply conv_int_in_range; assumption.
    - simpl in Hb. unfold conv.
      destruct (NumType_eq_dec B (ToInteger A)) as [->|_].
      + unfold is_floating in Hb. rewrite Hi in Hb. discriminate.
      + rewrite Hi, (truncate_abs_lt_one f Hlt).
        apply in_rangeb_spec in H0. rewrite H0. reflexivity. }
  split; [assumption|].
  unfold ModuloImpl_apply, static_cast. rewrite Hx, Hy. simpl.
  unfold throwIfDivisionLeadsToFPE.
  rewrite equal_int; try assumption.
  - reflexivity.
  - unfold in_range, min_value, max_value; simpl; lia.
  - right; lia.
Qed.

(** ** Lists, loops and chains *)

Lemma length_update {X : Type} (l : list X) (i : nat) (v : X) :
  length (update l i v) = length l.
Proof.
  revert i; induction l as [|h t IH]; intros [|i]; simpl; auto.
Qed.

Lemma nth_error_update_eq {X : Type} (l : list X) (i : nat) (v : X) :
  (i < length l)%nat -> nth_error (update l i v) i = Some v.
Proof.
  revert i; induction l as [|h t IH]; intros [|i]; simpl; intros H; try lia; auto.
  apply IH; lia.
Qed.

Lemma nth_error_update_neq {X : Type} (l : list X) (i j : nat) (v : X) :
  i <> j -> nth_error (update l i v) j = nth_error l j.
Proof.
  revert i j; induction l as [|h t IH]; intros [|i] [|j]; simpl; intros H;
    try reflexivity; try congruence.
  apply IH; congruence.
Qed.

Lemma update_app_last {X : Type} (l : list X) (x v : X) :
  update (l ++ [x]) (length l) v = l ++ [v].
Proof. induction l as [|h t IH]; simpl; congruence. Qed.

Lemma update_app_r {X : Type} (l1 l2 : list X) (v : X) (h : X) :
  update (l1 ++ h :: l2) (length l1) v = l1 ++ v :: l2.
Proof. induction l1 as [|h1 t IH]; simpl; congruence. Qed.

Lemma write_length (c : PODArray) (i : nat) (v : Value) (c' : PODArray) :
  write c i v = Ok c' -> length c' = length c.
Proof.
  unfold write. destruct (i <? length c)%nat; [|discriminate].
  intros [= <-]. apply length_update.
Qed.

Lemma for_loop_ext {S : Type} (n first : nat) (body1 body2 : nat -> S -> outcome S) (s : S) :
  (forall i s, body1 i s = body2 i s) ->
  for_loop n first body1 s = for_loop n first body2 s.
Proof.
  intros H. revert first s; induction n as [|n IH]; intros first s; simpl; auto.
  rewrite H. destruct (body2 first s); simpl; auto.
Qed.

Lemma for_loop_invariant {S : Type} (P : S -> Prop) (n first : nat)
  (body : nat -> S -> outcome S) (s s' : S) :
  (forall i s s', P s -> body i s = Ok s' -> P s') ->
  P s -> for_loop n first body s = Ok s' -> P s'.
Proof.
  intros Hb. revert first s; induction n as [|n IH]; intros first s Hs; simpl.
  - intros [= <-]. assumption.
  - intros H. apply bind_Ok_inv in H as (s1 & H1 & H2). eauto.
Qed.

Lemma while_invariant {S : Type} (P : S -> Prop) (fuel : nat) (cond : S -> bool)
  (body : S -> outcome S) (s s' : S) :
  (forall s s', P s -> body s = Ok s' -> P s') ->
  P s -> while fuel cond body s = Ok s' -> P s'.
Proof.
  intros Hb. revert s; induction fuel as [|n IH]; intros s Hs; simpl.
  - destruct (cond s); [discriminate|]. intros [= <-]. assumption.
  - destruct (cond s).
    + intros H. apply bind_Ok_inv in H as (s1 & H1 & H2). eauto.
    + intros [= <-]. assumption.
Qed.

(** A loop that computes one element per index and writes it there fills
    the buffer with the elements, in order. *)
Lemma for_loop_writes (F : nat -> outcome Value) (n : nat) (done : list Value)
  (rest : PODArray) :
  (n <= length rest)%nat ->
  for_loop n (length done) (fun i c => r <- F i ;; write c i r) (done ++ rest)
  = (rs <- mapM F (seq (length done) n) ;; Ok (done ++ rs ++ skipn n rest)).
Proof.
  revert done rest; induction n as [|n IH]; intros done rest Hn; simpl.
  - reflexivity.
  - destruct rest as [|h rest]; [simpl in Hn; lia|].
    destruct (F (length done)) as [r| |]; simpl; auto.
    unfold write. rewrite length_app. simpl.
    replace (length done <? length done + S (length rest))%nat with true
      by (symmetry; apply Nat.ltb_lt; lia).
    simpl. rewrite update_app_r.
    replace (done ++ r :: rest) with ((done ++ [r]) ++ rest)
      by (rewrite <- app_assoc; reflexivity).
    replace (S (length done)) with (length (done ++ [r]))
      by (rewrite length_app; simpl; lia).
    rewrite IH by (simpl in Hn; lia).
    destruct (mapM F (seq (length (done ++ [r])) n)); simpl; auto.
    rewrite <- app_assoc. reflexivity.
Qed.

Lemma for_loop_fills (F : nat -> outcome Value) (c : PODArray) :
  for_loop (length c) 0 (fun i c => r <- F i ;; write c i r) c
  = mapM F (seq 0 (length c)).
Proof.
  pose proof (for_loop_writes F (length c) [] c (Nat.le_refl _)) as H.
  simpl in H. rewrite H.
  destruct (mapM F (seq 0 (length c))); simpl; auto.
  rewrite skipn_all, app_nil_r. reflexivity.
Qed.

Lemma mapM_ext {X Y : Type} (f g : X -> outcome Y) (l : list X) :
  (forall x, In x l -> f x = g x) -> mapM f l = mapM g l.
Proof.
  induction l as [|x t IH]; simpl; intros H; auto.
  rewrite H by auto. rewrite IH by auto. reflexivity.
Qed.

Lemma mapM_Ok {X Y : Type} (f : X -> outcome Y) (g : X -> Y) (l : list X) :
  (forall x, In x l -> f x = Ok (g x)) -> mapM f l = Ok (map g l).
Proof.
  induction l as [|x t IH]; simpl; intros H; auto.
  rewrite H by auto. simpl. rewrite IH by auto. reflexivity.
Qed.

Lemma any_of_false {X S : Type} (l : list X) (f : X -> S -> outcome (bool * S)) (s s' : S) :
  (forall x s2, f x s = Ok (false, s2) -> s2 = s) ->
  any_of l f s = Ok (false, s') -> s' = s.
Proof.
  intros Hf. induction l as [|x t IH]; simpl.
  - intros [= <-]. reflexivity.
  - intros H. apply bind_Ok_inv in H as ([b s1] & H1 & H2). simpl in H2.
    destruct b; [discriminate|].
    apply Hf in H1. subst s1. auto.
Qed.

Lemma any_of_true {X S : Type} (l : list X) (f : X -> S -> outcome (bool * S)) (s s' : S) :
  (forall x s2, f x s = Ok (false, s2) -> s2 = s) ->
  any_of l f s = Ok (true, s') -> exists x, In x l /\ f x s = Ok (true, s').
Proof.
  intros Hf. induction l as [|x t IH]; simpl.
  - discriminate.
  - intros H. apply bind_Ok_inv in H as ([b s1] & H1 & H2). simpl in H2.
    destruct b.
    + injection H2 as <-. eauto.
    + apply Hf in H1. subst s1. destruct (IH H2) as (y & Hy & E). eauto.
Qed.

(** ** The dispatch of [execute] *)

Lemma of_option_Ok_inv {X : Type} (o : option X) (a : X) :
  of_option o = Ok a -> o = Some a.
Proof. destruct o; simpl; congruence. Qed.

Lemma as_ColumnVector_Some (T : NumType) (col : IColumn) (data : PODArray) :
  as_ColumnVector T col = Some data -> col = ColumnVector T data.
Proof.
  destruct col as [T' d|T' s d|n]; simpl; try discriminate.
  destruct (NumType_eq_dec T' T); congruence.
Qed.

Lemma as_ColumnConst_Some (T : NumType) (col : IColumn) (s : nat) (v : Value) :
  as_ColumnConst T col = Some (s, v) -> col = ColumnConst T s v.
Proof.
  destruct col as [T' d|T' s' d|n]; simpl; try discriminate.
  destruct (NumType_eq_dec T' T); congruence.
Qed.

Lemma deref_extended (st : State) (tail : list IColumn) (blk : Block) (p : nat)
  (col : IColumn) :
  nth_error (memory st) p = Some col ->
  deref (mkState (memory st ++ tail) blk) (Some p) = Ok col.
Proof.
  intros H. simpl. rewrite nth_error_app1.
  - rewrite H. reflexivity.
  - apply nth_error_Some. congruence.
Qed.

Ltac inv_bind H :=
  let a := fresh "a" in
  let E := fresh "E" in
  apply bind_Ok_inv in H as (a & E & H).

Section Dispatch.

Context {NT : NumberTraits}.
Variable Op : Operation.
Variable garbage : nat -> Z.

Lemma executeRightTypeImpl_inv (ct : ColumnType) (T0 T1 R : NumType)
  (arguments : ColumnNumbers) (result col_left : nat) (st : State)
  (arg0 : nat) (e0 : ColumnWithNameAndType) (left : IColumn) (b : bool) (st' : State) :
  nth_error arguments 0 = Some arg0 ->
  nth_error (block st) arg0 = Some e0 ->
  column e0 = Some col_left ->
  nth_error (memory st) col_left = Some left ->
  is_ColumnType ct T0 left = true ->
  executeRightTypeImpl Op garbage ct T0 T1 R arguments result col_left st = Ok (b, st') ->
  (b = false /\ st' = st) \/ (b = true /\ performed Op garbage st arguments result st').
Proof.
  intros Ha0 He0 Hc0 Hleft Hct H.
  destruct ct; simpl in H, Hct.
  - unfold executeRightTypeImpl_ColumnVector in H.
    inv_bind H. inv_bind H. inv_bind H.
    apply of_option_Ok_inv in E, E0. rename a into arg1, a0 into e1, a1 into right.
    destruct (as_ColumnVector T0 left) as [ldata|] eqn:El; [|discriminate].
    apply as_ColumnVector_Some in El. subst left.
    destruct (as_ColumnVector T1 right) as [rdata|] eqn:Ev;
      [|destruct (as_ColumnConst T1 right) as [[s rv]|] eqn:Ec].
    + apply as_ColumnVector_Some in Ev. subst right.
      unfold new_column in H. inv_bind H.
      unfold set_column in E2. simpl in E2.
      destruct (nth_error (block st) result) as [e_res|] eqn:Er; [|discriminate].
      injection E2 as <-.
      unfold ColumnVector_getData in H. rewrite (deref_extended _ _ _ _ _ Hleft) in H.
      simpl in H. inv_bind H. injection H as <- <-.
      right. split; [reflexivity|].
      exists arg0, arg1, e0, e1, e_res, col_left, (ColumnVector T0 ldata),
        (ColumnVector T1 rdata), T0, T1, R, (ColumnVector R a).
      repeat split; try assumption.
      * constructor. assumption.
      * unfold store, with_result. simpl. rewrite update_app_last. reflexivity.
    + apply as_ColumnConst_Some in Ec. subst right.
      unfold new_column in H. inv_bind H.
      unfold set_column in E2. simpl in E2.
      destruct (nth_error (block st) result) as [e_res|] eqn:Er; [|discriminate].
      injection E2 as <-.
      unfold ColumnVector_getData in H. rewrite (deref_extended _ _ _ _ _ Hleft) in H.
      simpl in H. inv_bind H. injection H as <- <-.
      right. split; [reflexivity|].
      exists arg0, arg1, e0, e1, e_res, col_left, (ColumnVector T0 ldata),
        (ColumnConst T1 s rv), T0, T1, R, (ColumnVector R a).
      repeat split; try assumption.
      * constructor. assumption.
      * unfold store, with_result. simpl. rewrite update_app_last. reflexivity.
    + injection H as <- <-. auto.
  - unfold executeRightTypeImpl_ColumnConst in H.
    inv_bind H. inv_bind H. inv_bind H.
    apply of_option_Ok_inv in E, E0. rename a into arg1, a0 into e1, a1 into right.
    destruct (as_ColumnConst T0 left) as [[ls lv]|] eqn:El; [|discriminate].
    apply as_ColumnConst_Some in El. subst left.
    destruct (as_ColumnVector T1 right) as [rdata|] eqn:Ev;
      [|destruct (as_ColumnConst T1 right) as [[s rv]|] eqn:Ec].
    + apply as_ColumnVector_Some in Ev. subst right.
      unfold new_column in H. inv_bind H.
      unfold set_column in E2. simpl in E2.
      destruct (nth_error (block st) result) as [e_res|] eqn:Er; [|discriminate].
      injection E2 as <-.
      unfold ColumnConst_size, ColumnConst_getData in H.
      rewrite !(deref_extended _ _ _ _ _ Hleft) in H.
      simpl in H. inv_bind H. injection H as <- <-.
      right. split; [reflexivity|].
      exists arg0, arg1, e0, e1, e_res, col_left, (ColumnConst T0 ls lv),
        (ColumnVector T1 rdata), T0, T1, R, (ColumnVector R a).
      repeat split; try assumption.
      * constructor. assumption.
      * unfold store, with_result. simpl. rewrite update_app_last. reflexivity.
    + apply as_ColumnConst_Some in Ec. subst right.
      unfold ColumnConst_size, ColumnConst_getData, deref in H.
      rewrite Hleft in H. simpl in H. inv_bind H.
      unfold new_column in H. inv_bind H.
      unfold set_column in E3. simpl in E3.
      destruct (nth_error (block st) result) as [e_res|] eqn:Er; [|discriminate].
      injection E3 as <-. injection H as <- <-.
      right. split; [reflexivity|].
      exists arg0, arg1, e0, e1, e_res, col_left, (ColumnConst T0 ls lv),
        (ColumnConst T1 s rv), T0, T1, R, (ColumnConst R ls a).
      repeat split; try assumption.
      constructor. assumption.
    + injection H as <- <-. auto.
Qed.

Lemma executeRightType_inv (L R : DataType) (ct : ColumnType)
  (arguments : ColumnNumbers) (result col_left : nat) (st : State)
  (arg0 : nat) (e0 : ColumnWithNameAndType) (left : IColumn) (b : bool) (st' : State) :
  nth_error arguments 0 = Some arg0 ->
  nth_error (block st) arg0 = Some e0 ->
  column e0 = Some col_left ->
  nth_error (memory st) col_left = Some left ->
  is_ColumnType ct (FieldType L) left = true ->
  executeRightType Op garbage L R ct arguments result col_left st = Ok (b, st') ->
  (b = false /\ st' = st) \/ (b = true /\ performed Op garbage st arguments result st').
Proof.
  intros Ha0 He0 Hc0 Hleft Hct H. unfold executeRightType in H.
  destruct (IsDateOrDateTime L || IsDateOrDateTime R).
  - inv_bind H. inv_bind H.
    destruct (negb (is_DataType R (type a0))).
    + injection H as <- <-. auto.
    + unfold executeRightTypeDispatch in H.
      destruct (DateBinaryOperationTraits Op L R) as [RD|].
      * eapply executeRightTypeImpl_inv; eassumption.
      * injection H as <- <-. auto.
  - eapply executeRightTypeImpl_inv; eassumption.
Qed.

Lemma executeLeftTypeImpl_inv (L : DataType) (ct : ColumnType)
  (arguments : ColumnNumbers) (result : nat) (st : State) (b : bool) (st' : State) :
  executeLeftTypeImpl Op garbage L ct arguments result st = Ok (b, st') ->
  (b = false /\ st' = st) \/ (b = true /\ performed Op garbage st arguments result st').
Proof.
  intros H. unfold executeLeftTypeImpl in H.
  inv_bind H. inv_bind H. apply of_option_Ok_inv in E, E0.
  destruct (column a0) as [col_left|] eqn:Hc; [|discriminate].
  inv_bind H. simpl in E1. apply of_option_Ok_inv in E1.
  destruct (is_ColumnType ct (FieldType L) a1) eqn:Hct.
  - pose proof (fun R b s2 => executeRightType_inv L R ct _ result _ _ _ _ _ b s2
                                E E0 Hc E1 Hct) as Hinv.
    inv_bind H. destruct a2 as [b2 st2]. simpl in H.
    destruct b2.
    + injection H as <- <-.
      apply any_of_true in E2.
      * destruct E2 as (R & _ & E2).
        destruct (Hinv _ _ _ E2) as [[? _]|[_ ?]]; [discriminate|auto].
      * intros R s2 Hf. destruct (Hinv _ _ _ Hf) as [[_ ?]|[? _]]; [auto|discriminate].
    + repeat (inv_bind H). discriminate.
  - injection H as <- <-. auto.
Qed.

Lemma executeLeftTypeDispatch_inv (L : DataType)
  (arguments : ColumnNumbers) (result : nat) (st : State) (b : bool) (st' : State) :
  executeLeftTypeDispatch Op garbage L arguments result st = Ok (b, st') ->
  (b = false /\ st' = st) \/ (b = true /\ performed Op garbage st arguments result st').
Proof.
  unfold executeLeftTypeDispatch. intros H.
  assert (Hf : forall ct s2,
             executeLeftTypeImpl Op garbage L ct arguments result st = Ok (false, s2) ->
             s2 = st).
  { intros ct s2 E. destruct (executeLeftTypeImpl_inv _ _ _ _ _ _ _ E) as [[_ ?]|[? _]];
      [auto|discriminate]. }
  destruct b.
  - right. split; [reflexivity|].
    apply any_of_true in H; [|exact Hf]. destruct H as (ct & _ & H).
    destruct (executeLeftTypeImpl_inv _ _ _ _ _ _ _ H) as [[? _]|[_ ?]];
      [discriminate|auto].
  - left. split; [reflexivity|]. eapply any_of_false; [|exact H]. exact Hf.
Qed.

Lemma executeLeftType_inv (L : DataType)
  (arguments : ColumnNumbers) (result : nat) (st : State) (b : bool) (st' : State) :
  executeLeftType Op garbage L arguments result st = Ok (b, st') ->
  (b = false /\ st' = st) \/ (b = true /\ performed Op garbage st arguments result st').
Proof.
  unfold executeLeftType. intros H.
  destruct (IsDateOrDateTime L).
  - inv_bind H. inv_bind H.
    destruct (negb (is_DataType L (type a0))).
    + injection H as <- <-. auto.
    + apply executeLeftTypeDispatch_inv in H. assumption.
  - apply executeLeftTypeDispatch_inv in H. assumption.
Qed.

(** A call of [execute] that returns has computed a column from the two
    argument columns and put it at the result position. *)
Lemma execute_performed (arguments : ColumnNumbers) (result : nat) (st st' : State) :
  execute Op garbage st arguments result = Ok st' ->
  performed Op garbage st arguments result st'.
Proof.
  unfold execute. intros H. inv_bind H. destruct a as [b s1]. simpl in H.
  destruct b.
  - injection H as <-.
    apply any_of_true in E.
    + destruct E as (L & _ & E).
      destruct (executeLeftType_inv _ _ _ _ _ _ E) as [[? _]|[_ ?]];
        [discriminate|auto].
    + intros L s2 Hf.
      destruct (executeLeftType_inv _ _ _ _ _ _ Hf) as [[_ ?]|[? _]];
        [auto|discriminate].
  - repeat (inv_bind H). discriminate.
Qed.

End Dispatch.

(** ** The kernels keep the length of the result buffer *)

Lemma write_all_length (vs : list Value) (c : PODArray) (pos : nat) (c' : PODArray) :
  write_all c pos vs = Ok c' -> length c' = length c.
Proof.
  revert c pos; induction vs as [|v t IH]; intros c pos; simpl.
  - intros [= <-]. reflexivity.
  - intros H. inv_bind H. apply write_length in E. apply IH in H. congruence.
Qed.

Lemma store128_length (T : NumType) (c : PODArray) (pos : nat) (v : m128i) (c' : PODArray) :
  store128 T c pos v = Ok c' -> length c' = length c.
Proof.
  unfold store128. destruct (is_integral T); [|discriminate]. apply write_all_length.
Qed.

Lemma length_resize (garbage : nat -> Z) (R : NumType) (n : nat) :
  length (resize garbage R n) = n.
Proof. unfold resize. rewrite length_map, length_seq. reflexivity. Qed.

Ltac length_step :=
  repeat match goal with
         | H : write _ _ _ = Ok _ |- _ => apply write_length in H
         | H : store128 _ _ _ _ = Ok _ |- _ => apply store128_length in H
         end.

Section KernelLengths.

Context {NT : NumberTraits}.

Lemma BinaryOperationImplBase_vector_vector_length (A B : NumType) (Op : Operation)
  (R : NumType) (a b c c' : PODArray) :
  BinaryOperationImplBase_vector_vector A B Op R a b c = Ok c' -> length c' = length c.
Proof.
  unfold BinaryOperationImplBase_vector_vector.
  apply for_loop_invariant with (P := fun x => length x = length c); [|reflexivity].
  intros i s s' Hs H. repeat (inv_bind H). length_step. congruence.
Qed.

Lemma BinaryOperationImplBase_vector_constant_length (A B : NumType) (Op : Operation)
  (R : NumType) (a : PODArray) (b : Value) (c c' : PODArray) :
  BinaryOperationImplBase_vector_constant A B Op R a b c = Ok c' -> length c' = length c.
Proof.
  unfold BinaryOperationImplBase_vector_constant.
  apply for_loop_invariant with (P := fun x => length x = length c); [|reflexivity].
  intros i s s' Hs H. repeat (inv_bind H). length_step. congruence.
Qed.

Lemma BinaryOperationImplBase_constant_vector_length (A B : NumType) (Op : Operation)
  (R : NumType) (a : Value) (b c c' : PODArray) :
  BinaryOperationImplBase_constant_vector A B Op R a b c = Ok c' -> length c' = length c.
Proof.
  unfold BinaryOperationImplBase_constant_vector.
  apply for_loop_invariant with (P := fun x => length x = length c); [|reflexivity].
  intros i s s' Hs H. repeat (inv_bind H). length_step. congruence.
Qed.

Lemma DivideIntegralByConstantImpl_vector_constant_length (A B : NumType)
  (a : PODArray) (b : Value) (c c' : PODArray) :
  DivideIntegralByConstantImpl_vector_constant A B a b c = Ok c' -> length c' = length c.
Proof.
  unfold DivideIntegralByConstantImpl_vector_constant.
  destruct (equal B b Int32 (int_literal 0)); [discriminate|].
  destruct (is_signed B && equal B b Int32 (int_literal (-1))).
  - apply for_loop_invariant with (P := fun x => length x = length c); [|reflexivity].
    intros i s s' Hs H. repeat (inv_bind H). length_step. congruence.
  - intros H. inv_bind H. inv_bind H. inv_bind H. injection H as <-.
    apply while_invariant with (P := fun s => length (c_buf s) = length c) in E1.
    + assumption.
    + intros s s' Hs H. repeat (inv_bind H). injection H as <-. simpl.
      length_step. congruence.
    + apply while_invariant with (P := fun s => length (c_buf s) = length c) in E0.
      * assumption.
      * intros s s' Hs H. repeat (inv_bind H). injection H as <-. simpl.
        length_step. congruence.
      * reflexivity.
Qed.

Lemma ModuloByConstantImpl_vector_constant_length (A B : NumType)
  (a : PODArray) (b : Value) (c c' : PODArray) :
  ModuloByConstantImpl_vector_constant A B a b c = Ok c' -> length c' = length c.
Proof.
  unfold ModuloByConstantImpl_vector_constant.
  destruct (equal B b Int32 (int_literal 0)); [discriminate|].
  destruct ((is_signed B && equal B b Int32 (int_literal (-1)))
            || equal B b Int32 (int_literal 1)).
  - apply for_loop_invariant with (P := fun x => length x = length c); [|reflexivity].
    intros i s s' Hs H. repeat (inv_bind H). length_step. congruence.
  - intros H. inv_bind H. revert H.
    apply for_loop_invariant with (P := fun x => length x = length c); [|reflexivity].
    intros i s s' Hs H. repeat (inv_bind H). length_step. congruence.
Qed.

Lemma BinaryOperationImpl_vector_constant_length (A B : NumType) (Op : Operation)
  (R : NumType) (a : PODArray) (b : Value) (c c' : PODArray) :
  BinaryOperationImpl_vector_constant A B Op R a b c = Ok c' -> length c' = length c.
Proof.
  unfold BinaryOperationImpl_vector_constant.
  destruct (overridden A B Op R); [destruct Op|];
    eauto using BinaryOperationImplBase_vector_constant_length,
      DivideIntegralByConstantImpl_vector_constant_length,
      ModuloByConstantImpl_vector_constant_length.
Qed.

Lemma computed_size (Op : Operation) (garbage : nat -> Z) (T0 T1 R : NumType)
  (left right col : IColumn) :
  computed Op garbage T0 T1 R left right col -> IColumn_size col = IColumn_size left.
Proof.
  intros H. destruct H as [a b c H|a s b c H|s a b c H|s a s' b r H]; simpl.
  - apply BinaryOperationImplBase_vector_vector_length in H.
    rewrite H. apply length_resize.
  - apply BinaryOperationImpl_vector_constant_length in H.
    rewrite H. apply length_resize.
  - apply BinaryOperationImplBase_constant_vector_length in H.
    rewrite H. apply length_resize.
  - reflexivity.
Qed.

End KernelLengths.

(** ** What [execute] leaves in the block and in the store *)

Lemma nth_error_with_result (st : State) (result : nat) (e_res : ColumnWithNameAndType)
  (col_res : IColumn) :
  nth_error (block st) result = Some e_res ->
  nth_error (block (with_result st result e_res col_res)) result
  = Some (mkColumnWithNameAndType (Some (length (memory st))) (type e_res) (name e_res))
  /\ nth_error (memory (with_result st result e_res col_res)) (length (memory st))
     = Some col_res.
Proof.
  intros H. unfold with_result. simpl. split.
  - apply nth_error_update_eq. apply nth_error_Some. congruence.
  - rewrite nth_error_app2 by lia. rewrite Nat.sub_diag. reflexivity.
Qed.

(** C8: a call of [execute] that returns leaves every position of the block
    other than [result] with the same column pointer, type and name, and
    every column of the store, the argument columns among them, with the
    same contents.  At [result] the type and the name are kept, and the
    column pointer is the address of a column allocated by the call: an
    address that was not in use before. *)
Theorem execute_frame {NT : NumberTraits} (Op : Operation) (garbage : nat -> Z)
  (st : State) (arguments : ColumnNumbers) (result : nat) (st' : State) :
  execute Op garbage st arguments result = Ok st' ->
  (forall i, i <> result -> nth_error (block st') i = nth_error (block st) i)
  /\ (forall p col, nth_error (memory st) p = Some col ->
                    nth_error (memory st') p = Some col)
  /\ length (block st') = length (block st)
  /\ exists e e' col,
       nth_error (block st) result = Some e
       /\ nth_error (block st') result = Some e'
       /\ type e' = type e /\ name e' = name e
       /\ column e' = Some (length (memory st))
       /\ nth_error (memory st) (length (memory st)) = None
       /\ nth_error (memory st') (length (memory st)) = Some col.
Proof.
  intros H. apply execute_performed in H.
  destruct H as (arg0 & arg1 & e0 & e1 & e_res & p0 & left & right & T0 & T1 & R
                 & col_res & _ & _ & _ & _ & Hres & _ & _ & _ & _ & ->).
  destruct (nth_error_with_result st result e_res col_res Hres) as [Hb Hm].
  split; [|split; [|split]].
  - intros i Hi. unfold with_result. simpl. apply nth_error_update_neq. congruence.
  - intros p col Hp. unfold with_result. simpl. rewrite nth_error_app1; [assumption|].
    apply nth_error_Some. congruence.
  - unfold with_result. simpl. apply length_update.
  - exists e_res,
      (mkColumnWithNameAndType (Some (length (memory st))) (type e_res) (name e_res)),
      col_res.
    repeat split; try assumption. apply nth_error_None. lia.
Qed.

(** C10: the column a call of [execute] that returns puts at [result] stands
    for as many rows as the column of the first argument, whatever the shapes
    of the two columns and whatever the length of the second. *)
Theorem execute_result_size {NT : NumberTraits} (Op : Operation) (garbage : nat -> Z)
  (st : State) (arguments : ColumnNumbers) (result : nat) (st' : State)
  (arg0 : nat) (e0 : ColumnWithNameAndType) (p0 : nat) (left : IColumn) :
  nth_error arguments 0 = Some arg0 ->
  nth_error (block st) arg0 = Some e0 ->
  column e0 = Some p0 ->
  nth_error (memory st) p0 = Some left ->
  execute Op garbage st arguments result = Ok st' ->
  exists e' p col,
    nth_error (block st') result = Some e' /\ column e' = Some p
    /\ nth_error (memory st') p = Some col
    /\ IColumn_size col = IColumn_size left.
Proof.
  intros Ha He Hc Hl H. apply execute_performed in H.
  destruct H as (arg0' & arg1 & e0' & e1 & e_res & p0' & left' & right & T0 & T1 & R
                 & col_res & Ha' & _ & He' & _ & Hres & Hc' & Hl' & _ & Hcomp & ->).
  assert (arg0' = arg0) by congruence. subst arg0'.
  assert (e0' = e0) by congruence. subst e0'.
  assert (p0' = p0) by congruence. subst p0'.
  assert (left' = left) by congruence. subst left'.
  destruct (nth_error_with_result st result e_res col_res Hres) as [Hb Hm].
  exists (mkColumnWithNameAndType (Some (length (memory st))) (type e_res) (name e_res)),
    (length (memory st)), col_res.
  repeat split; try assumption.
  eapply computed_size; eassumption.
Qed.

(** ** Two constants and two constant-filled vectors *)

Lemma bind_assoc {X Y W : Type} (m : outcome X) (k : X -> outcome Y) (h : Y -> outcome W) :
  bind (bind m k) h = bind m (fun x => bind (k x) h).
Proof. destruct m; reflexivity. Qed.

Lemma read_repeat (v : Value) (n i : nat) :
  (i < n)%nat -> read (repeat v n) i = Ok v.
Proof.
  intros H. unfold read. rewrite nth_error_repeat by assumption. reflexivity.
Qed.

Lemma map_const_seq {X : Type} (x : X) (first n : nat) :
  map (fun _ => x) (seq first n) = repeat x n.
Proof.
  revert first; induction n as [|n IH]; intros first; simpl; congruence.
Qed.

Lemma vector_vector_of_constants {NT : NumberTraits} (A B : NumType) (Op : Operation)
  (R : NumType) (a b r : Value) (c : PODArray) :
  apply Op A B R a b = Ok r ->
  BinaryOperationImpl_vector_vector A B Op R
    (repeat a (length c)) (repeat b (length c)) c
  = Ok (repeat r (length c)).
Proof.
  intros Hr.
  unfold BinaryOperationImpl_vector_vector, BinaryOperationImplBase_vector_vector.
  rewrite repeat_length.
  rewrite for_loop_ext with
    (body2 := fun i c' =>
                v <- (x <- read (repeat a (length c)) i ;;
                      y <- read (repeat b (length c)) i ;;
                      apply Op A B R x y) ;;
                write c' i v).
  - rewrite for_loop_fills.
    rewrite mapM_Ok with (g := fun _ => r).
    + rewrite map_const_seq. reflexivity.
    + intros i Hi. apply in_seq in Hi.
      rewrite !read_repeat by lia. simpl. assumption.
  - intros i s. rewrite !bind_assoc.
    destruct (read (repeat a (length c)) i); simpl; auto.
    rewrite bind_assoc. reflexivity.
Qed.

(** C7: when both argument columns are constants, of values [a] and [b] and
    the left one of length [N], a call of [execute] that returns has put at
    [result] a constant column of length [N], and its value [r] is the value
    of every element that the [vector_vector] kernel of the same types
    computes from a vector of [N] times [a] and a vector of [N] times [b]. *)
Theorem constant_constant_as_vector_vector {NT : NumberTraits} (Op : Operation)
  (garbage : nat -> Z) (st : State) (arguments : ColumnNumbers) (result : nat)
  (st' : State) (arg0 arg1 : nat) (e0 e1 : ColumnWithNameAndType) (p0 p1 : nat)
  (T0 T1 : NumType) (N M : nat) (a b : Value) :
  nth_error arguments 0 = Some arg0 ->
  nth_error arguments 1 = Some arg1 ->
  nth_error (block st) arg0 = Some e0 ->
  nth_error (block st) arg1 = Some e1 ->
  column e0 = Some p0 ->
  column e1 = Some p1 ->
  nth_error (memory st) p0 = Some (ColumnConst T0 N a) ->
  nth_error (memory st) p1 = Some (ColumnConst T1 M b) ->
  execute Op garbage st arguments result = Ok st' ->
  exists e' p R r,
    nth_error (block st') result = Some e' /\ column e' = Some p
    /\ nth_error (memory st') p = Some (ColumnConst R N r)
    /\ forall c, length c = N ->
         BinaryOperationImpl_vector_vector T0 T1 Op R (repeat a N) (repeat b N) c
         = Ok (repeat r N).
Proof.
  intros Ha0 Ha1 He0 He1 Hc0 Hc1 Hl Hr H. apply execute_performed in H.
  destruct H as (arg0' & arg1' & e0' & e1' & e_res & p0' & left' & right' & T0' & T1' & R
                 & col_res & Ha0' & Ha1' & He0' & He1' & Hres & Hc0' & Hl' & Hr' & Hcomp & ->).
  assert (arg0' = arg0) by congruence. subst arg0'.
  assert (arg1' = arg1) by congruence. subst arg1'.
  assert (e0' = e0) by congruence. subst e0'.
  assert (e1' = e1) by congruence. subst e1'.
  assert (p0' = p0) by congruence. subst p0'.
  assert (left' = ColumnConst T0 N a) by congruence. subst left'.
  rewrite Hc1 in Hr'. simpl in Hr'. rewrite Hr in Hr'. injection Hr' as <-.
  inversion Hcomp as [| | |s x s' y r Hk]; subst.
  destruct (nth_error_with_result st result e_res (ColumnConst R N r) Hres) as [Hb Hm].
  exists (mkColumnWithNameAndType (Some (length (memory st))) (type e_res) (name e_res)),
    (length (memory st)), R, r.
  repeat split; try assumption.
  intros c Hc. subst N. apply vector_vector_of_constants. exact Hk.
Qed.

(** ** The specialised pairs *)

Lemma specialized_iff (A B : NumType) (Op : Operation) :
  specialized A B Op = true
  <-> (Op = DivideIntegralImpl \/ Op = ModuloImpl)
      /\ is_integral A = true /\ is_integral B = true
      /\ (bits A = 32 \/ bits A = 64)
      /\ is_signed A = is_signed B.
Proof.
  split.
  - destruct A, B, Op; intros H; try discriminate H; simpl;
      repeat split; auto.
  - intros ([-> | ->] & HA & HB & [Hb | Hb] & Hs);
      destruct A; try discriminate; destruct B; try discriminate; reflexivity.
Qed.

(** The type in which an operand of the left type and one of the right type
    of a specialised pair are computed holds both types. *)
Lemma specialized_common (A B : NumType) (Op : Operation) :
  specialized A B Op = true ->
  promote A = A
  /\ is_integral (common A B) = true
  /\ is_signed (common A B) = is_signed A
  /\ (forall z, in_range A z -> in_range (common A B) z)
  /\ (forall z, in_range B z -> in_range (common A B) z)
  /\ common A (common A B) = common A B.
Proof.
  intros H. apply specialized_iff in H as (_ & HA & HB & Hb & Hs).
  unfold in_range, min_value, max_value.
  destruct A; try discriminate; destruct Hb as [Hb|Hb]; try discriminate;
    destruct B; try discriminate; simpl; repeat split; intros; lia.
Qed.

(** ** One element of a division by a constant *)

Lemma quot_in_range (A : NumType) (z b : Z) :
  in_range A z -> in_range A b -> b <> 0 -> b <> -1 ->
  in_range A (Z.quot z b).
Proof.
  unfold in_range, min_value, max_value.
  intros Hz Hb Hb0 Hb1.
  assert (Hh : 0 < 2 ^ (bits A - 1)) by (apply Z.pow_pos_nonneg; destruct A; simpl; lia).
  assert (Hm : 0 < 2 ^ bits A) by (apply Z.pow_pos_nonneg; destruct A; simpl; lia).
  pose proof (Z.quot_rem' z b) as Hqr.
  pose proof (Z.rem_bound_abs z b Hb0) as Hra.
  pose proof (Z.rem_sign_mul z b Hb0) as Hrs.
  destruct (is_signed A); nia.
Qed.

Lemma conv_same (T : NumType) (v : Value) : conv T T v = Some v.
Proof. unfold conv. destruct (NumType_eq_dec T T); congruence. Qed.

Lemma conv_int_indep (X Y R : NumType) (z : Z) :
  is_integral X = true -> is_integral Y = true ->
  in_range X z -> in_range Y z ->
  conv X R (VInt z) = conv Y R (VInt z).
Proof.
  intros HX HY Hx Hy. unfold conv.
  destruct (NumType_eq_dec X R) as [->|], (NumType_eq_dec Y R) as [->|];
    try reflexivity.
  - rewrite HX, wrap_in_range by assumption. reflexivity.
  - rewrite HY, wrap_in_range by assumption. reflexivity.
Qed.

Lemma conv_int_Some (X R : NumType) (z : Z) : exists v, conv X R (VInt z) = Some v.
Proof.
  unfold conv. destruct (NumType_eq_dec X R); [eauto|].
  destruct (is_integral R); eauto.
Qed.

Lemma rem_abs_le (x y : Z) : y <> 0 -> Z.abs (Z.rem x y) <= Z.abs x.
Proof.
  intros Hy. rewrite <- Z.rem_abs by assumption.
  rewrite Z.rem_mod_nonneg by lia. apply Z.mod_le; lia.
Qed.

Lemma quot_mul_in_range (A : NumType) (z b : Z) :
  in_range A z -> b <> 0 -> in_range A (Z.quot z b * b).
Proof.
  intros Hz Hb.
  pose proof (rem_abs_le z b Hb) as Habs.
  pose proof (Z.quot_rem' z b) as Hqr.
  pose proof (Z.rem_sign_mul z b Hb) as Hrs.
  replace (Z.quot z b * b) with (z - Z.rem z b) by lia.
  revert Hz. unfold in_range, min_value, max_value.
  destruct (is_signed A); nia.
Qed.

Section Elements.

Context {NT : NumberTraits}.

Variables (A B : NumType) (b : Z).

Hypothesis b_in_B : in_range B b.
Hypothesis b_in_A : in_range A b.
Hypothesis b_not_zero : b <> 0.
Hypothesis b_not_minus_one : b <> -1.

Lemma throwIfDivisionLeadsToFPE_passes (X Y : NumType) (z : Z) :
  is_integral X = true -> is_integral Y = true -> in_range X z -> in_range Y b ->
  throwIfDivisionLeadsToFPE X Y (VInt z) (VInt b) = Ok tt.
Proof.
  intros HX HY Hz Hb.
  destruct (throwIfDivisionLeadsToFPE_cases X Y (VInt z) (VInt b))
    as [(Hz0 & _)|[(_ & Ho & _)|(_ & _ & E)]]; simpl; auto.
  - simpl in Hz0. contradiction.
  - destruct Ho as (_ & _ & _ & Ho). rewrite minus_one_integral in Ho by assumption.
    congruence.
Qed.

Lemma generic_quotient (z : Z) :
  specialized A B DivideIntegralImpl = true -> in_range A z ->
  DivideIntegralImpl_apply A B A (VInt z) (VInt b) = Ok (VInt (Z.quot z b)).
Proof.
  intros Hs Hz. pose proof Hs as Hs'. apply specialized_iff in Hs' as (_ & HA & HB & _ & _).
  destruct (specialized_common A B _ Hs) as (Hp & Hc & HsC & HrA & HrB & _).
  unfold DivideIntegralImpl_apply.
  rewrite throwIfDivisionLeadsToFPE_passes by assumption. simpl.
  unfold static_cast. rewrite conv_same. simpl.
  unfold binary_expr. rewrite !conv_int_in_range by auto. simpl.
  unfold int_binop.
  destruct (Z.eqb_spec b 0); [contradiction|].
  destruct (Z.eqb_spec b (-1)); [contradiction|].
  rewrite andb_false_r. simpl.
  unfold return_as. simpl.
  rewrite conv_int_in_range; auto using quot_in_range.
Qed.

Lemma fast_quotient (z : Z) :
  in_range A z ->
  (q <- scalar_divide A (VInt z) (mkDivider b) ;; assigned_as A (A, q))
  = Ok (VInt (Z.quot z b)).
Proof.
  intros Hz. simpl. unfold libdivide_divide. simpl.
  rewrite wrap_in_range by auto using quot_in_range.
  unfold assigned_as. simpl. rewrite conv_same. reflexivity.
Qed.

Lemma generic_remainder (R : NumType) (z : Z) :
  specialized A B ModuloImpl = true -> in_range A z ->
  ModuloImpl_apply A B R (VInt z) (VInt b) = of_option (conv A R (VInt (Z.rem z b))).
Proof.
  intros Hs Hz. pose proof Hs as Hs'. apply specialized_iff in Hs' as (_ & HA & HB & _ & _).
  destruct (specialized_common A B _ Hs) as (Hp & _).
  unfold ModuloImpl_apply. rewrite (ToInteger_of_integral A HA).
  unfold static_cast. rewrite conv_same, (conv_int_in_range B A b) by assumption.
  simpl. rewrite throwIfDivisionLeadsToFPE_passes by assumption. simpl.
  rewrite remainder_expr; try assumption.
  - simpl. unfold return_as. simpl. rewrite Hp. reflexivity.
  - intros (_ & _ & H). contradiction.
Qed.

Lemma fast_remainder (R : NumType) (z : Z) :
  specialized A B ModuloImpl = true -> in_range A z ->
  (q <- scalar_divide A (VInt z) (mkDivider b) ;;
   m <- binary_expr A q Mul B (VInt b) ;;
   d <- binary_expr A (VInt z) Sub (fst m) (snd m) ;;
   assigned_as R d)
  = of_option (conv A R (VInt (Z.rem z b))).
Proof.
  intros Hs Hz. pose proof Hs as Hs'. apply specialized_iff in Hs' as (_ & HA & HB & _ & _).
  destruct (specialized_common A B _ Hs) as (Hp & Hc & HsC & HrA & HrB & Hcc).
  pose proof (quot_in_range A z b Hz b_in_A b_not_zero b_not_minus_one) as Hq.
  pose proof (quot_mul_in_range A z b Hz b_not_zero) as Hm.
  pose proof (rem_in_range A z b b_not_zero Hz) as Hr.
  assert (Hrem : z - Z.quot z b * b = Z.rem z b).
  { pose proof (Z.quot_rem' z b). lia. }
  assert (Hmod : forall x, in_range (common A B) x -> x mod 2 ^ bits (common A B) = x
                           \/ is_signed (common A B) = true).
  { intros x. unfold in_range, min_value, max_value.
    destruct (is_signed (common A B)); [auto|].
    intros Hx. left. apply Z.mod_small. lia. }
  simpl. unfold libdivide_divide. simpl. rewrite wrap_in_range by assumption.
  unfold binary_expr at 1. rewrite !conv_int_in_range by auto. simpl.
  unfold int_binop.
  assert (Emul : (if is_signed (common A B)
                  then if in_rangeb (common A B) (Z.quot z b * b)
                       then Ok (Z.quot z b * b) else Undefined
                  else Ok ((Z.quot z b * b) mod 2 ^ bits (common A B)))
                 = Ok (Z.quot z b * b)).
  { destruct (is_signed (common A B)) eqn:E.
    - replace (in_rangeb (common A B) (Z.quot z b * b)) with true; [reflexivity|].
      symmetry. apply in_rangeb_spec. auto.
    - destruct (Hmod _ (HrA _ Hm)) as [->|]; [reflexivity|discriminate]. }
  rewrite Emul. simpl.
  unfold binary_expr. rewrite Hcc. rewrite !conv_int_in_range by auto. simpl.
  rewrite Hrem.
  assert (Esub : (if is_signed (common A B)
                  then if in_rangeb (common A B) (Z.rem z b)
                       then Ok (Z.rem z b) else Undefined
                  else Ok (Z.rem z b mod 2 ^ bits (common A B)))
                 = Ok (Z.rem z b)).
  { destruct (is_signed (common A B)) eqn:E.
    - replace (in_rangeb (common A B) (Z.rem z b)) with true; [reflexivity|].
      symmetry. apply in_rangeb_spec. auto.
    - destruct (Hmod _ (HrA _ Hr)) as [->|]; [reflexivity|discriminate]. }
  rewrite Esub. simpl. unfold assigned_as. simpl.
  rewrite (conv_int_indep (common A B) A) by auto. reflexivity.
Qed.

End Elements.

(** ** Bytes and registers *)

Lemma length_le_split (n : nat) (z : Z) : length (le_split n z) = n.
Proof. revert z; induction n as [|n IH]; intros z; simpl; auto. Qed.

Lemma le_combine_split (n : nat) (z : Z) :
  le_combine (le_split n z) = z mod 2 ^ (8 * Z.of_nat n).
Proof.
  revert z; induction n as [|n IH]; intros z.
  - simpl. rewrite Z.mod_1_r. reflexivity.
  - cbn [le_split le_combine]. rewrite IH.
    replace (8 * Z.of_nat (S n)) with (8 + 8 * Z.of_nat n) by lia.
    rewrite Z.pow_add_r by lia. change (2 ^ 8) with 256.
    rewrite Z.rem_mul_r; [reflexivity|lia|]. apply Z.pow_pos_nonneg; lia.
Qed.

Lemma bits_sizeof (T : NumType) : bits T = 8 * Z.of_nat (sizeof T).
Proof. destruct T; reflexivity. Qed.

Lemma wrap_mod (T : NumType) (z : Z) : wrap T (z mod 2 ^ bits T) = wrap T z.
Proof.
  unfold wrap. destruct (is_signed T).
  - rewrite Z.add_mod_idemp_l; [reflexivity|].
    apply Z.pow_nonzero; destruct T; simpl; lia.
  - apply Z.mod_mod. apply Z.pow_nonzero; destruct T; simpl; lia.
Qed.

(** An integer survives the trip through its bytes. *)
Lemma from_bytes_le_split (T : NumType) (z : Z) :
  in_range T z -> wrap T (le_combine (le_split (sizeof T) z)) = z.
Proof.
  intros Hz. rewrite le_combine_split, <- bits_sizeof, wrap_mod.
  apply wrap_in_range. assumption.
Qed.

Lemma lanes_of_chunks (w : nat) (chunks : list (list Z)) :
  Forall (fun ch => length ch = w) chunks ->
  map (fun j => firstn w (skipn (j * w) (concat chunks))) (seq 0 (length chunks))
  = chunks.
Proof.
  induction 1 as [|ch rest Hch _ IH]; simpl; [reflexivity|].
  f_equal.
  - rewrite <- Hch, firstn_app, Nat.sub_diag, firstn_all. simpl. apply app_nil_r.
  - rewrite <- seq_shift, map_map. rewrite <- IH at 2.
    apply map_ext. intros j. simpl.
    rewrite skipn_app, <- Hch.
    rewrite skipn_all2 by lia. simpl. f_equal. f_equal. lia.
Qed.

Lemma lanes_concat (T : NumType) (chunks : list (list Z)) :
  Forall (fun ch => length ch = sizeof T) chunks ->
  length chunks = (16 / sizeof T)%nat ->
  lanes T (concat chunks) = chunks.
Proof.
  intros H Hl. unfold lanes. rewrite <- Hl. apply lanes_of_chunks. assumption.
Qed.

(** ** Element by element *)

Lemma skipn_nth_error {X : Type} (l : list X) (k : nat) (x : X) :
  nth_error l k = Some x -> skipn k l = x :: skipn (S k) l.
Proof.
  revert k; induction l as [|h t IH]; intros [|k]; simpl; try discriminate.
  - intros [= ->]. reflexivity.
  - intros H. apply IH in H. destruct k; exact H.
Qed.

Lemma firstn_S_nth_error {X : Type} (l : list X) (k : nat) (x : X) :
  nth_error l k = Some x -> firstn (S k) l = firstn k l ++ [x].
Proof.
  revert k; induction l as [|h t IH]; intros [|k]; simpl; try discriminate.
  - intros [= ->]. reflexivity.
  - intros H. apply IH in H. simpl in H. rewrite H. reflexivity.
Qed.

(** Writing element [k] of [Q] at index [k] of a buffer that holds the first
    [k] elements of [Q] already. *)
Lemma write_next (Q c : PODArray) (k : nat) (v : Value) :
  length Q = length c -> nth_error Q k = Some v ->
  write (firstn k Q ++ skipn k c) k v = Ok (firstn (S k) Q ++ skipn (S k) c).
Proof.
  intros Hl Hv.
  assert (Hk : (k < length Q)%nat) by (apply nth_error_Some; congruence).
  destruct (nth_error c k) as [h|] eqn:Hc;
    [|apply nth_error_None in Hc; lia].
  unfold write. rewrite length_app, length_firstn, length_skipn.
  replace (k <? Nat.min k (length Q) + (length c - k))%nat with true
    by (symmetry; apply Nat.ltb_lt; lia).
  rewrite (skipn_nth_error _ _ _ Hc).
  pose proof (update_app_r (firstn k Q) (skipn (S k) c) v h) as Hu.
  rewrite length_firstn, Nat.min_l in Hu by lia. rewrite Hu.
  rewrite (firstn_S_nth_error _ _ _ Hv), <- app_assoc. reflexivity.
Qed.

Lemma write_all_next (Q c : PODArray) (j k : nat) :
  length Q = length c -> (k + j <= length Q)%nat ->
  write_all (firstn k Q ++ skipn k c) k (firstn j (skipn k Q))
  = Ok (firstn (k + j) Q ++ skipn (k + j) c).
Proof.
  intros Hl. revert k; induction j as [|j IH]; intros k Hk; simpl.
  - rewrite Nat.add_0_r. reflexivity.
  - destruct (nth_error Q k) as [v|] eqn:Hv;
      [|apply nth_error_None in Hv; lia].
    rewrite (skipn_nth_error _ _ _ Hv). cbn [firstn write_all].
    rewrite (write_next Q c k v Hl Hv). cbn [bind].
    rewrite IH by lia. f_equal. f_equal; f_equal; lia.
Qed.

(** A loop whose step [i] writes [g] of element [i] of [a] at index [i]. *)
Lemma for_loop_elements (g : Value -> Value) (a c : PODArray)
  (body : nat -> PODArray -> outcome PODArray) :
  length c = length a ->
  (forall i x c', nth_error a i = Some x -> body i c' = write c' i (g x)) ->
  for_loop (length a) 0 body c = Ok (map g a).
Proof.
  intros Hl Hb.
  assert (H : forall m k, (k + m = length a)%nat ->
            for_loop m k body (firstn k (map g a) ++ skipn k c) = Ok (map g a)).
  { induction m as [|m IH]; intros k Hk; simpl.
    - rewrite Nat.add_0_r in Hk. subst k.
      rewrite <- (length_map g) at 1. rewrite firstn_all, <- Hl, skipn_all.
      rewrite app_nil_r. reflexivity.
    - destruct (nth_error a k) as [x|] eqn:Hx;
        [|apply nth_error_None in Hx; lia].
      rewrite (Hb _ _ _ Hx).
      rewrite write_next.
      + simpl. apply IH. lia.
      + rewrite length_map. congruence.
      + apply map_nth_error. assumption. }
  apply (H (length a) 0%nat). reflexivity.
Qed.

Lemma mapM_seq_nth {X Y : Type} (F : nat -> outcome Y) (g : X -> Y) (l : list X)
  (n k : nat) :
  (k + n <= length l)%nat ->
  (forall i x, nth_error l i = Some x -> F i = Ok (g x)) ->
  mapM F (seq k n) = Ok (map g (firstn n (skipn k l))).
Proof.
  intros Hn HF. revert k Hn; induction n as [|n IH]; intros k Hn; simpl.
  - reflexivity.
  - destruct (nth_error l k) as [x|] eqn:Hx;
      [|apply nth_error_None in Hx; lia].
    rewrite (HF _ _ Hx). cbn [bind]. rewrite IH by lia. cbn [bind].
    rewrite (skipn_nth_error _ _ _ Hx). reflexivity.
Qed.

Lemma while_steps {S : Type} (cond : S -> bool) (body : S -> outcome S)
  (state : nat -> S) (m fuel : nat) :
  (forall i, (i < m)%nat -> cond (state i) = true /\ body (state i) = Ok (state (Datatypes.S i))) ->
  cond (state m) = false ->
  (m <= fuel)%nat ->
  while fuel cond body (state 0%nat) = Ok (state m).
Proof.
  intros Hstep Hend Hfuel.
  assert (H : forall f j, (j <= m)%nat -> (m - j <= f)%nat ->
                          while f cond body (state j) = Ok (state m)).
  { induction f as [|f IH]; intros j Hj Hf.
    - assert (j = m) by lia. subst j. simpl. rewrite Hend. reflexivity.
    - destruct (Nat.eq_dec j m) as [->|Hne].
      + simpl. rewrite Hend. reflexivity.
      + destruct (Hstep j ltac:(lia)) as [Hc Hb].
        simpl. rewrite Hc, Hb. cbn [bind]. apply IH; lia. }
  apply H; lia.
Qed.

Lemma Forall_firstn {X : Type} (P : X -> Prop) (n : nat) (l : list X) :
  Forall P l -> Forall P (firstn n l).
Proof.
  intros H. revert n; induction H as [|x t Hx _ IH]; intros [|n]; simpl; auto.
Qed.

Lemma Forall_skipn {X : Type} (P : X -> Prop) (n : nat) (l : list X) :
  Forall P l -> Forall P (skipn n l).
Proof.
  intros H. revert n; induction H as [|x t Hx Ht IH]; intros [|n]; simpl; auto.
Qed.

Lemma ints_of_type (A : NumType) (a : PODArray) :
  is_integral A = true -> Forall (has_type A) a ->
  exists zs, a = map VInt zs /\ Forall (in_range A) zs.
Proof.
  intros HA. induction 1 as [|x t Hx _ (zs & -> & Hzs)].
  - exists []. auto.
  - destruct (has_type_integral_inv A x HA Hx) as (z & -> & Hz).
    exists (z :: zs). auto.
Qed.

Lemma nth_error_ints (A : NumType) (zs : list Z) (i : nat) (x : Value) :
  Forall (in_range A) zs -> nth_error (map VInt zs) i = Some x ->
  exists z, x = VInt z /\ in_range A z.
Proof.
  intros Hzs H. rewrite nth_error_map in H.
  destruct (nth_error zs i) as [z|] eqn:Hz; [|discriminate].
  injection H as <-. exists z. split; [reflexivity|].
  rewrite Forall_forall in Hzs. eauto using nth_error_In.
Qed.

(** ** The two kernels of a specialised pair agree *)

Section Parity.

Context {NT : NumberTraits}.

Variables (A B : NumType) (b : Z).

Hypothesis integral_A : is_integral A = true.
Hypothesis integral_B : is_integral B = true.
Hypothesis b_in_B : in_range B b.
Hypothesis b_in_A : in_range A b.
Hypothesis b_not_zero : b <> 0.
Hypothesis b_not_minus_one : b <> -1.

Lemma condition_zero : equal B (VInt b) Int32 (int_literal 0) = false.
Proof.
  rewrite equal_int; try assumption.
  - apply Z.eqb_neq. assumption.
  - unfold in_range, min_value, max_value; simpl; lia.
  - right; lia.
Qed.

Lemma condition_minus_one :
  is_signed B && equal B (VInt b) Int32 (int_literal (-1)) = false.
Proof.
  destruct (is_signed B) eqn:Hs; [|reflexivity]. simpl.
  rewrite equal_int; try assumption; auto.
  - apply Z.eqb_neq. assumption.
  - unfold in_range, min_value, max_value; simpl; lia.
Qed.

Lemma condition_one : equal B (VInt b) Int32 (int_literal 1) = (b =? 1).
Proof.
  rewrite equal_int; try assumption; auto.
  - unfold in_range, min_value, max_value; simpl; lia.
  - right; lia.
Qed.

Lemma divider_of_b : libdivide_divider A B (VInt b) = Ok (mkDivider b).
Proof.
  unfold libdivide_divider. rewrite conv_int_in_range by assumption. cbn [of_option bind].
  destruct (Z.eqb_spec b 0); [contradiction|reflexivity].
Qed.

Lemma libdivide_divide_quot (z : Z) :
  in_range A z -> libdivide_divide A z (mkDivider b) = Z.quot z b.
Proof.
  intros Hz. unfold libdivide_divide. simpl.
  apply wrap_in_range. auto using quot_in_range.
Qed.

(** *** Integer division *)

Lemma generic_quotients (zs : list Z) (c : PODArray) :
  specialized A B DivideIntegralImpl = true ->
  Forall (in_range A) zs -> length c = length zs ->
  BinaryOperationImplBase_vector_constant A B DivideIntegralImpl A (map VInt zs) (VInt b) c
  = Ok (quotients b zs).
Proof.
  intros Hs Hzs Hl. unfold BinaryOperationImplBase_vector_constant, quotients.
  rewrite for_loop_elements
    with (g := fun x => match x with VInt z => VInt (Z.quot z b) | _ => x end).
  - rewrite map_map. reflexivity.
  - rewrite length_map. assumption.
  - intros i x c' Hx. unfold read. rewrite Hx. cbn [of_option bind].
    destruct (nth_error_ints A zs i x Hzs Hx) as (z & -> & Hz).
    cbn [apply]. rewrite generic_quotient by assumption. reflexivity.
Qed.

(** One turn of the 128-bit loop, at element [k]. *)
Lemma sse_turn (zs : list Z) (c : PODArray) (k : nat) :
  Forall (in_range A) zs -> length c = length zs ->
  (k + 16 / sizeof A <= length zs)%nat ->
  (v <- load128 A (map VInt zs) k ;;
   store128 A (firstn k (quotients b zs) ++ skipn k c) k (sse_divide A v (mkDivider b)))
  = Ok (firstn (k + 16 / sizeof A) (quotients b zs) ++ skipn (k + 16 / sizeof A) c).
Proof.
  intros Hzs Hl Hk.
  set (vps := (16 / sizeof A)%nat) in *.
  set (chunk := firstn vps (skipn k zs)).
  assert (Hchunk : Forall (in_range A) chunk).
  { unfold chunk. auto using Forall_firstn, Forall_skipn. }
  assert (Hlen : length chunk = vps).
  { unfold chunk. rewrite length_firstn, length_skipn. lia. }
  unfold load128. fold vps.
  rewrite (mapM_seq_nth _ (le_split (sizeof A)) zs vps k Hk).
  2:{ intros i x Hx. unfold read. rewrite nth_error_map, Hx. reflexivity. }
  fold chunk. cbn [bind].
  unfold sse_divide. rewrite lanes_concat.
  2:{ apply Forall_forall. intros ch Hch. apply in_map_iff in Hch as (z & <- & _).
      apply length_le_split. }
  2:{ rewrite length_map. assumption. }
  rewrite map_map.
  rewrite map_ext_in with (g := fun z => le_split (sizeof A) (Z.quot z b)).
  2:{ intros z Hz. rewrite Forall_forall in Hchunk.
      rewrite from_bytes_le_split, libdivide_divide_quot by auto. reflexivity. }
  unfold store128. rewrite integral_A.
  rewrite lanes_concat.
  2:{ apply Forall_forall. intros ch Hch. apply in_map_iff in Hch as (z & <- & _).
      apply length_le_split. }
  2:{ rewrite length_map. assumption. }
  rewrite map_map.
  rewrite map_ext_in with (g := fun z => VInt (Z.quot z b)).
  2:{ intros z Hz. rewrite Forall_forall in Hchunk. unfold from_bytes.
      rewrite from_bytes_le_split by auto using quot_in_range. reflexivity. }
  replace (map (fun z => VInt (Z.quot z b)) chunk)
    with (firstn vps (skipn k (quotients b zs)))
    by (unfold quotients, chunk; rewrite skipn_map, firstn_map; reflexivity).
  apply write_all_next; unfold quotients; rewrite length_map; lia.
Qed.

Lemma fast_quotients (zs : list Z) (c : PODArray) :
  specialized A B DivideIntegralImpl = true ->
  ResultType DivideIntegralImpl A B = A ->
  Forall (in_range A) zs -> length c = length zs ->
  DivideIntegralByConstantImpl_vector_constant A B (map VInt zs) (VInt b) c
  = Ok (quotients b zs).
Proof.
  intros Hs HR Hzs Hl.
  unfold DivideIntegralByConstantImpl_vector_constant.
  rewrite condition_zero, condition_minus_one, divider_of_b, HR. cbn [bind].
  rewrite length_map.
  set (n := length zs) in *.
  set (vps := (16 / sizeof A)%nat).
  assert (Hvps : (0 < vps)%nat) by (unfold vps; destruct A; simpl; lia).
  set (E := (n / vps * vps)%nat).
  assert (HE : (E <= n)%nat).
  { unfold E. rewrite Nat.mul_comm. apply Nat.Div0.mul_div_le. }
  assert (HQ : length (quotients b zs) = n) by (unfold quotients; apply length_map).
  rewrite (while_steps _ _
             (fun i => mkCursor (i * vps) (i * vps)
                         (firstn (i * vps) (quotients b zs) ++ skipn (i * vps) c))
             (n / vps)).
  - cbn [bind]. fold E.
    rewrite (while_steps _ _
               (fun i => mkCursor (i + E) (i + E)
                           (firstn (i + E) (quotients b zs) ++ skipn (i + E) c))
               (n - E)).
    + cbn [bind c_buf]. replace (n - E + E)%nat with n by lia.
      rewrite <- HQ at 1. rewrite firstn_all, <- Hl, skipn_all, app_nil_r. reflexivity.
    + intros i Hi. cbn [a_pos c_pos c_buf]. split.
      * apply Nat.ltb_lt. lia.
      * destruct (nth_error zs (i + E)) as [z|] eqn:Hz;
          [|apply nth_error_None in Hz; lia].
        assert (Hrz : in_range A z).
        { rewrite Forall_forall in Hzs. eauto using nth_error_In. }
        unfold read. rewrite nth_error_map, Hz. cbn [option_map of_option bind scalar_divide].
        rewrite libdivide_divide_quot by assumption.
        unfold assigned_as. cbn [fst snd]. rewrite conv_same. cbn [of_option bind].
        rewrite write_next with (v := VInt (Z.quot z b)).
        -- reflexivity.
        -- lia.
        -- unfold quotients. rewrite nth_error_map, Hz. reflexivity.
    + cbn [a_pos]. apply Nat.ltb_ge. lia.
    + lia.
  - intros i Hi. cbn [a_pos c_pos c_buf]. fold E.
    assert (Hi' : (i * vps + vps <= E)%nat).
    { unfold E. apply Nat.le_trans with (S i * vps)%nat; [simpl; lia|].
      apply Nat.mul_le_mono_r. lia. }
    split.
    + apply Nat.ltb_lt. lia.
    + pose proof (sse_turn zs c (i * vps) Hzs Hl ltac:(fold vps; lia)) as Ht.
      fold vps in Ht.
      apply bind_Ok_inv in Ht as (v & Ev & Es).
      rewrite Ev. cbn [bind]. rewrite Es. cbn [bind].
      replace (S i * vps)%nat with (i * vps + vps)%nat by (simpl; lia).
      reflexivity.
  - cbn [a_pos]. fold E. apply Nat.ltb_ge. unfold E. lia.
  - apply Nat.Div0.div_le_upper_bound. nia.
Qed.

(** *** Modulo *)

Lemma generic_remainders (R : NumType) (zs : list Z) (c : PODArray) :
  specialized A B ModuloImpl = true ->
  Forall (in_range A) zs -> length c = length zs ->
  BinaryOperationImplBase_vector_constant A B ModuloImpl R (map VInt zs) (VInt b) c
  = Ok (remainders A b R zs).
Proof.
  intros Hs Hzs Hl. unfold BinaryOperationImplBase_vector_constant, remainders.
  rewrite for_loop_elements
    with (g := fun x => match x with
                        | VInt z => match conv A R (VInt (Z.rem z b)) with
                                    | Some v => v
                                    | None => VInt 0
                                    end
                        | _ => x
                        end).
  - rewrite map_map. reflexivity.
  - rewrite length_map. assumption.
  - intros i x c' Hx. unfold read. rewrite Hx. cbn [of_option bind].
    destruct (nth_error_ints A zs i x Hzs Hx) as (z & -> & Hz).
    cbn [apply]. rewrite generic_remainder by assumption.
    destruct (conv_int_Some A R (Z.rem z b)) as (v & ->). reflexivity.
Qed.

Lemma fast_remainders (zs : list Z) (c : PODArray) :
  specialized A B ModuloImpl = true ->
  Forall (in_range A) zs -> length c = length zs ->
  ModuloByConstantImpl_vector_constant A B (map VInt zs) (VInt b) c
  = Ok (remainders A b (ResultType ModuloImpl A B) zs).
Proof.
  intros Hs Hzs Hl.
  unfold ModuloByConstantImpl_vector_constant.
  set (R := ResultType ModuloImpl A B).
  rewrite condition_zero, condition_minus_one, condition_one. cbn [orb].
  destruct (Z.eqb_spec b 1) as [Hb1|Hb1].
  - unfold remainders.
    rewrite for_loop_elements
      with (g := fun x => match x with
                          | VInt z => match conv A R (VInt (Z.rem z b)) with
                                      | Some v => v
                                      | None => VInt 0
                                      end
                          | _ => x
                          end).
    + rewrite map_map. reflexivity.
    + rewrite length_map. assumption.
    + intros i x c' Hx.
      destruct (nth_error_ints A zs i x Hzs Hx) as (z & -> & Hz).
      unfold assigned_as, int_literal. cbn [fst snd].
      rewrite Hb1, Z.rem_1_r.
      rewrite (conv_int_indep Int32 A R 0); try assumption; try reflexivity.
      * destruct (conv_int_Some A R 0) as (v & ->). reflexivity.
      * unfold in_range, min_value, max_value; simpl; lia.
      * revert integral_A. unfold in_range, min_value, max_value.
        destruct A; simpl; intros; try discriminate; lia.
  - rewrite divider_of_b. cbn [bind]. unfold remainders.
    rewrite for_loop_elements
      with (g := fun x => match x with
                          | VInt z => match conv A R (VInt (Z.rem z b)) with
                                      | Some v => v
                                      | None => VInt 0
                                      end
                          | _ => x
                          end).
    + rewrite map_map. reflexivity.
    + rewrite length_map. assumption.
    + intros i x c' Hx. unfold read. rewrite Hx. cbn [of_option bind].
      destruct (nth_error_ints A zs i x Hzs Hx) as (z & -> & Hz).
      pose proof (fast_remainder A B b b_in_A b_not_zero b_not_minus_one
                    R z Hs Hz) as Hf.
      destruct (conv_int_Some A R (Z.rem z b)) as (v & Ev).
      rewrite Ev in Hf. cbn [of_option] in Hf.
      apply bind_Ok_inv in Hf as (q & E1 & Hf).
      apply bind_Ok_inv in Hf as (m & E2 & Hf).
      apply bind_Ok_inv in Hf as (d & E3 & Hf).
      rewrite E1. cbn [bind]. rewrite E2. cbn [bind]. rewrite E3. cbn [bind].
      rewrite Hf. cbn [bind]. rewrite Ev. reflexivity.
Qed.

End Parity.

(** *** Modulo by minus one *)

Section ModuloByMinusOne.

Context {NT : NumberTraits}.

Variables (A B : NumType).

Hypothesis specialized_pair : specialized A B ModuloImpl = true.
Hypothesis signed_B : is_signed B = true.

Lemma minus_one_in_range (T : NumType) : is_signed T = true -> in_range T (-1).
Proof.
  unfold in_range, min_value, max_value. intros ->. destruct T; simpl; lia.
Qed.

Lemma generic_remainder_minus_one (R : NumType) (z : Z) :
  in_range A z -> z <> min_value A ->
  ModuloImpl_apply A B R (VInt z) (VInt (-1)) = of_option (conv A R (VInt 0)).
Proof.
  intros Hz Hmin.
  pose proof specialized_pair as Hs. apply specialized_iff in Hs as (_ & HA & HB & _ & Hsign).
  destruct (specialized_common A B _ specialized_pair) as (Hp & _).
  assert (HsA : is_signed A = true) by congruence.
  destruct (ModuloImpl_apply_cases A B R (VInt z) (VInt (-1)))
    as [([Hn|Hn] & _)|(x & y & Hx & Hy & _ & _ & Hc)].
  - simpl. auto.
  - simpl. auto using minus_one_in_range.
  - rewrite (ToInteger_of_integral A HA), conv_same in Hn. discriminate.
  - rewrite (ToInteger_of_integral A HA), conv_int_in_range in Hn
      by auto using minus_one_in_range. discriminate.
  - rewrite (ToInteger_of_integral A HA) in *.
    rewrite conv_same in Hx. injection Hx as <-.
    rewrite conv_int_in_range in Hy by auto using minus_one_in_range.
    injection Hy as <-.
    destruct Hc as [(H & _)|[(_ & H & _)|(_ & _ & E)]]; try discriminate; try contradiction.
    rewrite E, Hp. replace (Z.rem z (-1)) with 0; [reflexivity|].
    symmetry. change (-1) with (- (1)). rewrite Z.rem_opp_r by lia. apply Z.rem_1_r.
Qed.

Lemma generic_remainders_minus_one (R : NumType) (zs : list Z) (c : PODArray) (v0 : Value) :
  Forall (in_range A) zs -> ~ In (min_value A) zs -> length c = length zs ->
  conv A R (VInt 0) = Some v0 ->
  BinaryOperationImplBase_vector_constant A B ModuloImpl R (map VInt zs) (VInt (-1)) c
  = Ok (map (fun _ => v0) (map VInt zs)).
Proof.
  intros Hzs Hmin Hl Hv. unfold BinaryOperationImplBase_vector_constant.
  apply for_loop_elements.
  - rewrite length_map. assumption.
  - intros i x c' Hx. unfold read. rewrite Hx. cbn [of_option bind].
    rewrite nth_error_map in Hx.
    destruct (nth_error zs i) as [z|] eqn:Hz; [|discriminate]. injection Hx as <-.
    apply nth_error_In in Hz.
    cbn [apply]. rewrite generic_remainder_minus_one, Hv.
    + reflexivity.
    + rewrite Forall_forall in Hzs. auto.
    + intros ->. contradiction.
Qed.

End ModuloByMinusOne.

(** The branch of [ModuloByConstantImpl::vector_constant] that fills the
    result with zeros. *)
Lemma fast_zeros {NT : NumberTraits} (A B : NumType) (a : PODArray) (b : Value)
  (c : PODArray) (v0 : Value) :
  equal B b Int32 (int_literal 0) = false ->
  (is_signed B && equal B b Int32 (int_literal (-1))) || equal B b Int32 (int_literal 1)
  = true ->
  length c = length a ->
  conv Int32 (ResultType ModuloImpl A B) (VInt 0) = Some v0 ->
  ModuloByConstantImpl_vector_constant A B a b c = Ok (map (fun _ => v0) a).
Proof.
  intros H0 H1 Hl Hv. unfold ModuloByConstantImpl_vector_constant.
  rewrite H0, H1. apply for_loop_elements; [assumption|].
  intros i x c' _. unfold assigned_as, int_literal. cbn [fst snd].
  rewrite Hv. reflexivity.
Qed.

Lemma NumType_eqb_refl (T : NumType) : NumType_eqb T T = true.
Proof. unfold NumType_eqb. destruct (NumType_eq_dec T T); congruence. Qed.

(** C1 (amended): for every specialised pair [(A, B)] of intDiv and of
    modulo, every input vector of [A] (the least and the greatest value of
    [A] included) and every non-zero constant [b] of [B] that is a value of
    [A] as well, the kernel [vector_constant] chosen by [BinaryOperationImpl]
    and the generic one of [BinaryOperationImplBase] return the same vector,
    except for the constant [-1]: with it the two kernels of modulo agree on
    the vectors that do not hold the least value of [A], and nothing is said
    of intDiv.  For intDiv the result type is taken to be [A], the element
    width the 128-bit stores assume. *)
Theorem fast_path_parity {NT : NumberTraits} (Op : Operation) (A B : NumType)
  (a : PODArray) (b : Z) (c : PODArray) :
  specialized A B Op = true ->
  (Op = DivideIntegralImpl -> ResultType Op A B = A) ->
  Forall (has_type A) a ->
  in_range B b -> in_range A b ->
  b <> 0 ->
  (b = -1 -> Op = ModuloImpl /\ ~ In (VInt (min_value A)) a) ->
  length c = length a ->
  exists r,
    BinaryOperationImpl_vector_constant A B Op (ResultType Op A B) a (VInt b) c = Ok r
    /\ BinaryOperationImplBase_vector_constant A B Op (ResultType Op A B) a (VInt b) c = Ok r
    /\ length r = length a.
Proof.
  intros Hs HR Ha HbB HbA Hb0 Hb1 Hl.
  pose proof Hs as Hs'. apply specialized_iff in Hs' as (HOp & HA & HB & _ & Hsign).
  destruct (ints_of_type A a HA Ha) as (zs & -> & Hzs).
  rewrite length_map in Hl.
  unfold BinaryOperationImpl_vector_constant, overridden.
  rewrite Hs, NumType_eqb_refl. cbn [andb].
  destruct (Z.eq_dec b (-1)) as [->|Hne].
  - destruct (Hb1 eq_refl) as [-> Hmin].
    assert (HsB : is_signed B = true).
    { destruct (is_signed B) eqn:E; [reflexivity|].
      revert HbB. unfold in_range, min_value. rewrite E. lia. }
    destruct (conv_int_Some A (ResultType ModuloImpl A B) 0) as (v0 & Hv).
    exists (map (fun _ => v0) (map VInt zs)).
    rewrite (generic_remainders_minus_one A B Hs HsB _ zs c v0); try assumption.
    + rewrite (fast_zeros A B (map VInt zs) (VInt (-1)) c v0).
      * repeat split. rewrite !length_map. reflexivity.
      * rewrite equal_int; try assumption; auto.
        unfold in_range, min_value, max_value; simpl; lia.
      * rewrite HsB, equal_int; try assumption; auto.
        unfold in_range, min_value, max_value; simpl; lia.
      * rewrite length_map. assumption.
      * rewrite <- Hv. apply conv_int_indep; try assumption; try reflexivity.
        -- unfold in_range, min_value, max_value; simpl; lia.
        -- revert HA. unfold in_range, min_value, max_value.
           destruct A; simpl; intros; try discriminate; lia.
    + intros Hin. apply Hmin. apply in_map. assumption.
  - destruct HOp as [-> | ->].
    + rewrite (HR eq_refl).
      exists (quotients b zs).
      rewrite fast_quotients, generic_quotients by auto.
      repeat split. unfold quotients. rewrite !length_map. reflexivity.
    + exists (remainders A b (ResultType ModuloImpl A B) zs).
      rewrite fast_remainders, generic_remainders by auto.
      repeat split. unfold remainders. rewrite !length_map. reflexivity.
Qed.

(** C4 (amended): the explicit specialisations of [BinaryOperationImpl] are
    those of intDiv and modulo for a left integer type of 32 or 64 bits and a
    right integer type of the same signedness, of any width, wider than the
    left type included.  For them the kernel [vector_constant], asked for with
    the result type of the operation, is the divide-by-constant one; for every
    other pair of types and every other operation it is the generic one. *)
Theorem specializations_cover {NT : NumberTraits} (A B : NumType) (Op : Operation) :
  (specialized A B Op = true
   <-> (Op = DivideIntegralImpl \/ Op = ModuloImpl)
       /\ is_integral A = true /\ is_integral B = true
       /\ (bits A = 32 \/ bits A = 64)
       /\ is_signed A = is_signed B)
  /\ (forall a b c,
        BinaryOperationImpl_vector_constant A B Op (ResultType Op A B) a b c
        = if specialized A B Op
          then match Op with
               | ModuloImpl => ModuloByConstantImpl_vector_constant A B a b c
               | _ => DivideIntegralByConstantImpl_vector_constant A B a b c
               end
          else BinaryOperationImplBase_vector_constant A B Op (ResultType Op A B) a b c)
  /\ (forall R a b c,
        specialized A B Op = false \/ R <> ResultType Op A B ->
        BinaryOperationImpl_vector_constant A B Op R a b c
        = BinaryOperationImplBase_vector_constant A B Op R a b c).
Proof.
  split; [apply specialized_iff|split].
  - intros a b c. unfold BinaryOperationImpl_vector_constant, overridden.
    rewrite NumType_eqb_refl, andb_true_r.
    destruct (specialized A B Op) eqn:Hs; [|reflexivity].
    apply specialized_iff in Hs as ([-> | ->] & _); reflexivity.
  - intros R a b c H. unfold BinaryOperationImpl_vector_constant, overridden.
    destruct H as [-> | H]; [reflexivity|].
    unfold NumType_eqb. destruct (NumType_eq_dec R (ResultType Op A B)); [contradiction|].
    rewrite andb_false_r. reflexivity.
Qed.

(** ** The code at particular inputs *)

Ltac solve_range := unfold in_range, min_value, max_value; simpl; lia.
Ltac solve_type := simpl; split; [reflexivity|solve_range].

(** C1 as stated fails: for the specialised pair [(Int32, Int32)] of modulo
    and the non-zero constant [-1], on a vector that holds the least value of
    [Int32], the divide-by-constant kernel returns a zero and the generic
    kernel throws. *)
Lemma modulo_by_minus_one_differs :
  specialized Int32 Int32 ModuloImpl = true
  /\ @BinaryOperationImpl_vector_constant spec_traits Int32 Int32 ModuloImpl
       (@ResultType spec_traits ModuloImpl Int32 Int32)
       [VInt (-2147483648)] (VInt (-1)) [VInt 0]
     = Ok [VInt 0]
  /\ @BinaryOperationImplBase_vector_constant spec_traits Int32 Int32 ModuloImpl
       (@ResultType spec_traits ModuloImpl Int32 Int32)
       [VInt (-2147483648)] (VInt (-1)) [VInt 0]
     = Throw DivisionOverflow.
Proof. repeat split; vm_compute; reflexivity. Qed.

(** The same kernels disagree when the constant of a wider right type is not
    a value of the left type: the divider is built from the constant
    converted to the left type. *)
Lemma intDiv_by_wide_constant_differs :
  specialized UInt32 UInt64 DivideIntegralImpl = true
  /\ @BinaryOperationImpl_vector_constant spec_traits UInt32 UInt64 DivideIntegralImpl
       (@ResultType spec_traits DivideIntegralImpl UInt32 UInt64)
       [VInt 7] (VInt 4294967297) [VInt 0]
     = Ok [VInt 7]
  /\ @BinaryOperationImplBase_vector_constant spec_traits UInt32 UInt64 DivideIntegralImpl
       (@ResultType spec_traits DivideIntegralImpl UInt32 UInt64)
       [VInt 7] (VInt 4294967297) [VInt 0]
     = Ok [VInt 0].
Proof. repeat split; vm_compute; reflexivity. Qed.

(** They disagree as well when the elements of the result are wider than
    those of the left type, as the promotion table of the spec has it for a
    32-bit left type: each 128-bit store then covers two elements of the
    result with the four quotients of a turn. *)
Lemma intDiv_wider_result_differs :
  specialized UInt32 UInt8 DivideIntegralImpl = true
  /\ @ResultType spec_traits DivideIntegralImpl UInt32 UInt8 = UInt64
  /\ @BinaryOperationImpl_vector_constant spec_traits UInt32 UInt8 DivideIntegralImpl
       (@ResultType spec_traits DivideIntegralImpl UInt32 UInt8)
       [VInt 10; VInt 11; VInt 12; VInt 13] (VInt 3) [VInt 0; VInt 0; VInt 0; VInt 0]
     = Ok [VInt 12884901891; VInt 17179869188; VInt 0; VInt 0]
  /\ @BinaryOperationImplBase_vector_constant spec_traits UInt32 UInt8 DivideIntegralImpl
       (@ResultType spec_traits DivideIntegralImpl UInt32 UInt8)
       [VInt 10; VInt 11; VInt 12; VInt 13] (VInt 3) [VInt 0; VInt 0; VInt 0; VInt 0]
     = Ok [VInt 3; VInt 3; VInt 4; VInt 4].
Proof. repeat split; vm_compute; reflexivity. Qed.

(** C2 fails on the code: in [DivideIntegralByConstantImpl::vector_constant]
    the branch for [b == -1] negates the elements of the result buffer [c],
    not those of the input [a].  On the input [7] and a zeroed buffer it
    leaves [0] where the generic kernel computes [-7]; on the least value of
    [Int64] it throws nothing where the generic kernel throws the overflow
    exception. *)
Lemma intDiv_by_minus_one_negates_result_buffer :
  @DivideIntegralByConstantImpl_vector_constant spec_traits Int64 Int64
     [VInt 7] (VInt (-1)) [VInt 0]
  = Ok [VInt 0]
  /\ @BinaryOperationImplBase_vector_constant spec_traits Int64 Int64 DivideIntegralImpl Int64
       [VInt 7] (VInt (-1)) [VInt 0]
     = Ok [VInt (-7)]
  /\ @DivideIntegralByConstantImpl_vector_constant spec_traits Int64 Int64
       [VInt (-9223372036854775808)] (VInt (-1)) [VInt 0]
     = Ok [VInt 0]
  /\ @BinaryOperationImplBase_vector_constant spec_traits Int64 Int64 DivideIntegralImpl Int64
       [VInt (-9223372036854775808)] (VInt (-1)) [VInt 0]
     = Throw DivisionOverflow.
Proof. repeat split; vm_compute; reflexivity. Qed.

(** In that branch the input is read for nothing but its length. *)
Lemma intDiv_by_minus_one_ignores_input {NT : NumberTraits} (A B : NumType)
  (a a' : PODArray) (b : Value) (c : PODArray) :
  is_signed B && equal B b Int32 (int_literal (-1)) = true ->
  length a = length a' ->
  DivideIntegralByConstantImpl_vector_constant A B a b c
  = DivideIntegralByConstantImpl_vector_constant A B a' b c.
Proof.
  intros Hb Hl. unfold DivideIntegralByConstantImpl_vector_constant.
  destruct (equal B b Int32 (int_literal 0)); [reflexivity|].
  rewrite Hb, Hl. reflexivity.
Qed.

(** The branch of modulo for [b == -1] does what is said of it: the result
    is all zeros. *)
Lemma modulo_by_minus_one_all_zero {NT : NumberTraits} (A B : NumType)
  (a c : PODArray) (v0 : Value) :
  is_integral B = true -> is_signed B = true ->
  length c = length a ->
  conv Int32 (ResultType ModuloImpl A B) (VInt 0) = Some v0 ->
  ModuloByConstantImpl_vector_constant A B a (VInt (-1)) c = Ok (map (fun _ => v0) a).
Proof.
  intros HB Hs Hl Hv.
  assert (Hr : in_range Int32 0 /\ in_range Int32 (-1))
    by (unfold in_range, min_value, max_value; simpl; lia).
  apply fast_zeros; try assumption.
  - rewrite equal_int; auto using minus_one_in_range; tauto.
  - rewrite Hs, equal_int; auto using minus_one_in_range; tauto.
Qed.

(** The whole call: intDiv of the column [[7; -9223372036854775808]] by the
    constant [-1] returns, with the zeroed result buffer negated. *)
Lemma execute_intDiv_by_minus_one :
  exists st',
    @execute spec_traits DivideIntegralImpl zeroed
      (two_columns DataTypeInt64 (ColumnVector Int64 [VInt 7; VInt (-9223372036854775808)])
                   DataTypeInt64 (ColumnConst Int64 2 (VInt (-1))))
      [0; 1]%nat 2%nat
    = Ok st'
    /\ nth_error (memory st') 2 = Some (ColumnVector Int64 [VInt 0; VInt 0]).
Proof. eexists. split; vm_compute; reflexivity. Qed.


(** A division the fault check lets through although it cannot be carried
    out: the left type is unsigned, so no overflow is reported, and the
    dividend becomes the least value of the signed result type. *)
Lemma intDiv_unchecked_overflow :
  DivideIntegralImpl_apply UInt64 Int64 Int64 (VInt 9223372036854775808) (VInt (-1))
  = Undefined.
Proof. vm_compute. reflexivity. Qed.

(** C4 as stated fails: the pair [(UInt32, UInt64)] is specialised although
    the right type is wider than the left. *)
Lemma specialization_with_wider_right_type :
  specialized UInt32 UInt64 DivideIntegralImpl = true
  /\ specialized Int32 Int64 ModuloImpl = true
  /\ ~ (bits UInt64 <= bits UInt32)
  /\ ~ (bits Int64 <= bits Int32).
Proof. repeat split; try reflexivity; simpl; lia. Qed.

(** C5 fails on the code: for [minus] with a [UInt16] on the left and a
    [Date] on the right, [getReturnType] rejects the types and [execute], on
    columns stored as the declared types say, returns normally: the numeric
    overload of [executeRightType] for [(UInt16, UInt16)] takes the column of
    the date, which is a vector of [UInt16], without looking at its declared
    type. *)
Lemma minus_integer_date_disagreement :
  @getReturnType spec_traits MinusImpl
    [DataTypeObject DataTypeUInt16; DataTypeObject DataTypeDate]
  = Throw (mkException "Illegal type Date of second argument of function minus"
                       ILLEGAL_TYPE_OF_ARGUMENT)
  /\ exists st',
       @execute spec_traits MinusImpl zeroed
         (two_columns DataTypeUInt16 (ColumnVector UInt16 [VInt 5])
                      DataTypeDate (ColumnVector UInt16 [VInt 3]))
         [0; 1]%nat 2%nat
       = Ok st'
       /\ nth_error (memory st') 2 = Some (ColumnVector Int32 [VInt 2]).
Proof. split; [|eexists; split]; vm_compute; reflexivity. Qed.

(** With the date on the left the same operation is rejected by both. *)
Lemma minus_date_float_agreement :
  @getReturnType spec_traits MinusImpl
    [DataTypeObject DataTypeDate; DataTypeObject DataTypeFloat64]
  = Throw (mkException "Illegal type Float64 of second argument of function minus"
                       ILLEGAL_TYPE_OF_ARGUMENT)
  /\ @execute spec_traits MinusImpl zeroed
       (two_columns DataTypeDate (ColumnVector UInt16 [VInt 5])
                    DataTypeFloat64 (ColumnVector Float64 [VFloat (S754_zero false)]))
       [0; 1]%nat 2%nat
     = Throw (mkException
                "Illegal column ColumnVector<Float64> of second argument of function minus"
                ILLEGAL_COLUMN).
Proof. split; vm_compute; reflexivity. Qed.

(** ** The theorems at concrete inputs *)

(** intDiv of sixteen [UInt64] values by the [UInt32] constant [3]. *)
Lemma fast_path_parity_witness :
  specialized UInt64 UInt32 DivideIntegralImpl = true
  /\ Forall (has_type UInt64) (map VInt [10; 11; 12; 13; 14; 15; 16; 17;
                                        18; 19; 20; 21; 22; 23; 24; 25])
  /\ in_range UInt32 3 /\ in_range UInt64 3
  /\ exists r,
       @BinaryOperationImpl_vector_constant spec_traits UInt64 UInt32 DivideIntegralImpl
         (@ResultType spec_traits DivideIntegralImpl UInt64 UInt32)
         (map VInt [10; 11; 12; 13; 14; 15; 16; 17; 18; 19; 20; 21; 22; 23; 24; 25])
         (VInt 3) (repeat (VInt 0) 16)
       = Ok r
       /\ @BinaryOperationImplBase_vector_constant spec_traits UInt64 UInt32 DivideIntegralImpl
            (@ResultType spec_traits DivideIntegralImpl UInt64 UInt32)
            (map VInt [10; 11; 12; 13; 14; 15; 16; 17; 18; 19; 20; 21; 22; 23; 24; 25])
            (VInt 3) (repeat (VInt 0) 16)
          = Ok r
       /\ length r = length (map VInt [10; 11; 12; 13; 14; 15; 16; 17;
                                       18; 19; 20; 21; 22; 23; 24; 25]).
Proof.
  assert (H1 : specialized UInt64 UInt32 DivideIntegralImpl = true) by reflexivity.
  assert (H2 : Forall (has_type UInt64)
                 (map VInt [10; 11; 12; 13; 14; 15; 16; 17;
                            18; 19; 20; 21; 22; 23; 24; 25]))
    by (simpl; repeat constructor; solve_range).
  assert (H3 : in_range UInt32 3) by solve_range.
  assert (H4 : in_range UInt64 3) by solve_range.
  repeat (split; [assumption|]).
  apply (@fast_path_parity spec_traits DivideIntegralImpl UInt64 UInt32
           (map VInt [10; 11; 12; 13; 14; 15; 16; 17; 18; 19; 20; 21; 22; 23; 24; 25])
           3 (repeat (VInt 0) 16) H1 (fun _ => eq_refl) H2 H3 H4).
  - lia.
  - intros H. discriminate H.
  - reflexivity.
Defined.

(** [-7] modulo [3], an [Int64] and an [Int32]. *)
Lemma ModuloImpl_apply_remainder_witness :
  has_type Int64 (VInt (-7))
  /\ has_type Int32 (VInt 3)
  /\ @ModuloImpl_apply spec_traits Int64 Int32 Int64 (VInt (-7)) (VInt 3) = Ok (VInt (-1)).
Proof.
  assert (H1 : has_type Int64 (VInt (-7))) by solve_type.
  assert (H2 : has_type Int32 (VInt 3)) by solve_type.
  repeat (split; [assumption|]).
  refine (proj1 (proj2 (proj2 (proj2
            (@ModuloImpl_apply_remainder spec_traits Int64 Int32 Int64
               (VInt (-7)) (VInt 3) (-7) 3 H1 H2 eq_refl eq_refl _))))).
  intros e. vm_compute. discriminate.
Defined.

(** [2.5] modulo one half, two [Float64]. *)
Lemma ModuloImpl_apply_fraction_witness :
  is_floating Float64 = true
  /\ has_type Float64 (VFloat (S754_finite false 4503599627370496 (-53)))
  /\ abs_lt_one (VFloat (S754_finite false 4503599627370496 (-53)))
  /\ @ModuloImpl_apply spec_traits Float64 Float64 Int64
       (VFloat (S754_finite false 5629499534213120 (-51)))
       (VFloat (S754_finite false 4503599627370496 (-53)))
     = Throw DivisionByZero.
Proof.
  assert (H1 : is_floating Float64 = true) by reflexivity.
  assert (H2 : has_type Float64 (VFloat (S754_finite false 4503599627370496 (-53))))
    by reflexivity.
  assert (H3 : abs_lt_one (VFloat (S754_finite false 4503599627370496 (-53))))
    by (simpl; lia).
  repeat (split; [assumption|]).
  refine (proj2 (@ModuloImpl_apply_fraction spec_traits Float64 Float64 Int64
                   (VFloat (S754_finite false 5629499534213120 (-51)))
                   (VFloat (S754_finite false 4503599627370496 (-53)))
                   H1 H2 _ H3)).
  eexists. vm_compute. reflexivity.
Defined.

(** The constants [200] and [100] of [UInt8], over three rows, added. *)
Lemma constant_constant_as_vector_vector_witness :
  exists st',
    @execute spec_traits PlusImpl zeroed
      (two_columns DataTypeUInt8 (ColumnConst UInt8 3 (VInt 200))
                   DataTypeUInt8 (ColumnConst UInt8 3 (VInt 100)))
      [0; 1]%nat 2%nat
    = Ok st'
    /\ exists e' p R r,
         nth_error (block st') 2 = Some e' /\ column e' = Some p
         /\ nth_error (memory st') p = Some (ColumnConst R 3 r)
         /\ forall c, length c = 3%nat ->
              @BinaryOperationImpl_vector_vector spec_traits UInt8 UInt8 PlusImpl R
                (repeat (VInt 200) 3) (repeat (VInt 100) 3) c
              = Ok (repeat r 3).
Proof.
  eexists. split; [vm_compute; reflexivity|].
  eapply (@constant_constant_as_vector_vector spec_traits PlusImpl zeroed
           (two_columns DataTypeUInt8 (ColumnConst UInt8 3 (VInt 200))
                        DataTypeUInt8 (ColumnConst UInt8 3 (VInt 100)))
           [0; 1]%nat 2%nat _ 0%nat 1%nat _ _ 0%nat 1%nat UInt8 UInt8 3%nat 3%nat
           (VInt 200) (VInt 100));
    reflexivity.
Defined.

(** The scenario of the spec: the [UInt8] vector [[1; 2; 3]] plus the
    constant [250]. *)
Lemma execute_frame_witness :
  exists st',
    @execute spec_traits PlusImpl zeroed
      (two_columns DataTypeUInt8 (ColumnVector UInt8 [VInt 1; VInt 2; VInt 3])
                   DataTypeUInt8 (ColumnConst UInt8 3 (VInt 250)))
      [0; 1]%nat 2%nat
    = Ok st'
    /\ nth_error (memory st') 2 = Some (ColumnVector UInt16 [VInt 251; VInt 252; VInt 253])
    /\ (forall p col,
          nth_error (memory (two_columns DataTypeUInt8 (ColumnVector UInt8 [VInt 1; VInt 2; VInt 3])
                                         DataTypeUInt8 (ColumnConst UInt8 3 (VInt 250)))) p
          = Some col ->
          nth_error (memory st') p = Some col).
Proof.
  eexists. split; [vm_compute; reflexivity|]. split; [reflexivity|].
  refine (proj1 (proj2 (@execute_frame spec_traits PlusImpl zeroed
            (two_columns DataTypeUInt8 (ColumnVector UInt8 [VInt 1; VInt 2; VInt 3])
                         DataTypeUInt8 (ColumnConst UInt8 3 (VInt 250)))
            [0; 1]%nat 2%nat _ _))).
  vm_compute. reflexivity.
Defined.

(** A constant of length [4] shifted by a vector of length [2]: the result
    has length [4]. *)
Lemma execute_result_size_witness :
  exists st',
    @execute spec_traits BitShiftLeftImpl zeroed
      (two_columns DataTypeUInt32 (ColumnConst UInt32 4 (VInt 1))
                   DataTypeUInt8 (ColumnVector UInt8 [VInt 0; VInt 1]))
      [0; 1]%nat 2%nat
    = Ok st'
    /\ exists e' p col,
         nth_error (block st') 2 = Some e' /\ column e' = Some p
         /\ nth_error (memory st') p = Some col
         /\ IColumn_size col = IColumn_size (ColumnConst UInt32 4 (VInt 1)).
Proof.
  eexists. split; [vm_compute; reflexivity|].
  eapply (@execute_result_size spec_traits BitShiftLeftImpl zeroed
           (two_columns DataTypeUInt32 (ColumnConst UInt32 4 (VInt 1))
                        DataTypeUInt8 (ColumnVector UInt8 [VInt 0; VInt 1]))
           [0; 1]%nat 2%nat _ 0%nat _ 0%nat (ColumnConst UInt32 4 (VInt 1)));
    reflexivity.
Defined.

(** ** The chains of candidates, forwards *)

Lemma any_of_prefix {X S : Type} (l1 l2 : list X) (f : X -> S -> outcome (bool * S)) (s : S) :
  (forall y, In y l1 -> f y s = Ok (false, s)) ->
  any_of (l1 ++ l2) f s = any_of l2 f s.
Proof.
  induction l1 as [|x t IH]; simpl; intros H; auto.
  rewrite H by auto. simpl. auto.
Qed.

Lemma any_of_none {X S : Type} (l : list X) (f : X -> S -> outcome (bool * S)) (s : S) :
  (forall y, In y l -> f y s = Ok (false, s)) ->
  any_of l f s = Ok (false, s).
Proof.
  intros H. rewrite <- (app_nil_r l). rewrite any_of_prefix by exact H. reflexivity.
Qed.

Lemma NoDup_candidates : NoDup candidates.
Proof.
  unfold candidates.
  repeat (constructor; [simpl; intuition discriminate|]). constructor.
Qed.

Lemma In_candidates (L : DataType) : In L candidates.
Proof. destruct L; simpl; tauto. Qed.

Lemma candidates_around (L : DataType) :
  exists l1 l2, candidates = l1 ++ L :: l2 /\ ~ In L l1 /\ ~ In L l2.
Proof.
  destruct (in_split L candidates (In_candidates L)) as (l1 & l2 & E).
  exists l1, l2. split; [exact E|].
  pose proof NoDup_candidates as N. rewrite E in N.
  apply NoDup_remove_2 in N. rewrite in_app_iff in N. tauto.
Qed.

Lemma is_DataType_same (T : DataType) : is_DataType T (DataTypeObject T) = true.
Proof. simpl. destruct (DataType_eq_dec T T); congruence. Qed.

Lemma is_DataType_other (T T' : DataType) :
  T' <> T -> is_DataType T' (DataTypeObject T) = false.
Proof. intros H. simpl. destruct (DataType_eq_dec T T'); congruence. Qed.

Section ReturnType.

Context {NT : NumberTraits}.
Variable Op : Operation.

Lemma checkRightType_chain (L R : DataType) (x : IDataType) (type_res : DataTypePtr) :
  any_of candidates (fun R' => checkRightType Op L R' [x; DataTypeObject R]) type_res
  = match BinaryOperationTraits Op L R with
    | Some T => Ok (true, Some (DataTypeObject T))
    | None => Ok (false, type_res)
    end.
Proof.
  assert (Hother : forall y, y <> R ->
            checkRightType Op L y [x; DataTypeObject R] type_res = Ok (false, type_res)).
  { intros y Hy. unfold checkRightType. cbn [nth_error of_option bind].
    rewrite is_DataType_other by exact Hy. reflexivity. }
  destruct (candidates_around R) as (l1 & l2 & E & H1 & H2). rewrite E.
  rewrite any_of_prefix by (intros y Hy; apply Hother; congruence).
  cbn [any_of]. unfold checkRightType at 1. cbn [nth_error of_option bind].
  rewrite is_DataType_same.
  destruct (BinaryOperationTraits Op L R) as [T|]; simpl; [reflexivity|].
  apply any_of_none. intros y Hy. apply Hother. congruence.
Qed.

Lemma checkRightType_chain_foreign (L : DataType) (x : IDataType) (n : string)
  (type_res : DataTypePtr) :
  any_of candidates (fun R' => checkRightType Op L R' [x; ForeignDataType n]) type_res
  = Ok (false, type_res).
Proof. apply any_of_none. intros y _. reflexivity. Qed.

Lemma checkLeftType_chain (L : DataType) (y : IDataType) (F : DataTypePtr -> outcome (bool * DataTypePtr)) :
  (forall type_res, checkLeftType Op L [DataTypeObject L; y] type_res = F type_res) ->
  (forall type_res b r, F type_res <> Ok (b, r) \/ b = true) ->
  any_of candidates (fun T0 => checkLeftType Op T0 [DataTypeObject L; y]) None = F None.
Proof.
  intros HF Hb.
  assert (Hother : forall T0 tr, T0 <> L ->
            checkLeftType Op T0 [DataTypeObject L; y] tr = Ok (false, tr)).
  { intros T0 tr H0. unfold checkLeftType. cbn [nth_error of_option bind].
    rewrite is_DataType_other by exact H0. reflexivity. }
  destruct (candidates_around L) as (l1 & l2 & E & H1 & H2). rewrite E.
  rewrite any_of_prefix by (intros z Hz; apply Hother; congruence).
  cbn [any_of]. rewrite HF.
  destruct (F None) as [[b r]| |] eqn:EF; simpl; try reflexivity.
  destruct (Hb None b r) as [H|H]; [congruence|]. subst b. reflexivity.
Qed.

(** X1.  [getReturnType] is a lookup in [BinaryOperationTraits]: for two
    arguments of the twelve known types it returns the type the traits give,
    and throws on the second argument when they give [InvalidType]; an unknown
    second argument is reported as the second, an unknown first argument as
    the first, and any other number of arguments as a wrong number.  It never
    has undefined behaviour. *)
Theorem getReturnType_table (arguments : list IDataType) :
  getReturnType Op arguments
  = match arguments with
    | [DataTypeObject L; DataTypeObject R] =>
        match BinaryOperationTraits Op L R with
        | Some T => Ok (Some (DataTypeObject T))
        | None =>
            Throw (mkException ("Illegal type " ++ IDataType_getName (DataTypeObject R)
                                ++ " of second argument of function " ++ getName Op)
                               ILLEGAL_TYPE_OF_ARGUMENT)
        end
    | [DataTypeObject L; ForeignDataType n] =>
        Throw (mkException ("Illegal type " ++ n
                            ++ " of second argument of function " ++ getName Op)
                           ILLEGAL_TYPE_OF_ARGUMENT)
    | [ForeignDataType n; _] =>
        Throw (mkException ("Illegal type " ++ n
                            ++ " of first argument of function " ++ getName Op)
                           ILLEGAL_TYPE_OF_ARGUMENT)
    | _ =>
        Throw (mkException ("Number of arguments for function " ++ getName Op
                            ++ " doesn't match: passed " ++ toString (length arguments)
                            ++ ", should be 2.")
                           NUMBER_OF_ARGUMENTS_DOESNT_MATCH)
    end.
Proof.
  destruct arguments as [|x [|y [|z t]]]; try reflexivity.
  - destruct x; reflexivity.
  - destruct x as [L|n].
    + unfold getReturnType. cbn [length Nat.eqb negb].
      destruct y as [R|n].
      * rewrite (checkLeftType_chain L (DataTypeObject R)
                   (fun tr => match BinaryOperationTraits Op L R with
                              | Some T => Ok (true, Some (DataTypeObject T))
                              | None => Throw (mkException
                                  ("Illegal type " ++ IDataType_getName (DataTypeObject R)
                                   ++ " of second argument of function " ++ getName Op)
                                  ILLEGAL_TYPE_OF_ARGUMENT)
                              end)).
        -- destruct (BinaryOperationTraits Op L R); reflexivity.
        -- intros tr. unfold checkLeftType. cbn [nth_error of_option bind].
           rewrite is_DataType_same, checkRightType_chain.
           destruct (BinaryOperationTraits Op L R); reflexivity.
        -- intros tr b r. destruct (BinaryOperationTraits Op L R).
           ++ destruct b; [auto|left; discriminate].
           ++ left. discriminate.
      * rewrite (checkLeftType_chain L (ForeignDataType n)
                   (fun tr => Throw (mkException
                                  ("Illegal type " ++ n
                                   ++ " of second argument of function " ++ getName Op)
                                  ILLEGAL_TYPE_OF_ARGUMENT))).
        -- reflexivity.
        -- intros tr. unfold checkLeftType. cbn [nth_error of_option bind].
           rewrite is_DataType_same, checkRightType_chain_foreign. reflexivity.
        -- intros tr b r. left. discriminate.
    + unfold getReturnType. cbn [length Nat.eqb negb].
      rewrite any_of_none; [reflexivity|].
      intros T0 _. reflexivity.
  - destruct x as [L|n]; [destruct y|]; reflexivity.
Qed.

End ReturnType.

(** ** The dispatch of [execute], forwards *)

Lemma any_of_thrown {X S : Type} (l : list X) (f : X -> S -> outcome (bool * S)) (s : S)
  (e : Exception) :
  (forall y, In y l -> f y s = Ok (false, s) \/ f y s = Throw e) ->
  (exists y, In y l /\ f y s = Throw e) ->
  any_of l f s = Throw e.
Proof.
  induction l as [|x t IH]; intros Hall (y & Hy & Ey).
  - destruct Hy.
  - cbn [any_of]. destruct (Hall x (or_introl eq_refl)) as [E|E]; rewrite E; [|reflexivity].
    cbn [bind fst snd]. apply IH.
    + intros z Hz. apply Hall. right. exact Hz.
    + destruct Hy as [->|Hy]; [congruence|]. eauto.
Qed.

Lemma candidates_before (L : DataType) :
  exists l1 l2, candidates = l1 ++ L :: l2
    /\ Forall (fun y => if IsDateOrDateTime y then y <> L
                        else FieldType y <> FieldType L) l1.
Proof.
  destruct L;
    [ exists (firstn 0 candidates), (skipn 1 candidates)
    | exists (firstn 1 candidates), (skipn 2 candidates)
    | exists (firstn 2 candidates), (skipn 3 candidates)
    | exists (firstn 3 candidates), (skipn 4 candidates)
    | exists (firstn 4 candidates), (skipn 5 candidates)
    | exists (firstn 5 candidates), (skipn 6 candidates)
    | exists (firstn 6 candidates), (skipn 7 candidates)
    | exists (firstn 7 candidates), (skipn 8 candidates)
    | exists (firstn 8 candidates), (skipn 9 candidates)
    | exists (firstn 9 candidates), (skipn 10 candidates)
    | exists (firstn 10 candidates), (skipn 11 candidates)
    | exists (firstn 11 candidates), (skipn 12 candidates) ];
    (split; [reflexivity|]); simpl; repeat constructor; simpl; discriminate.
Qed.

Lemma candidates_before_right (L R : DataType) :
  exists l1 l2, candidates = l1 ++ R :: l2
    /\ Forall (fun y => if IsDateOrDateTime L || IsDateOrDateTime y then y <> R
                        else FieldType y <> FieldType R) l1.
Proof.
  destruct (candidates_before R) as (l1 & l2 & E & H).
  destruct (candidates_around R) as (k1 & k2 & E' & H1 & H2).
  exists l1, l2. split; [exact E|].
  assert (Hn : ~ In R l1).
  { pose proof NoDup_candidates as N. rewrite E in N.
    apply NoDup_remove_2 in N. rewrite in_app_iff in N. tauto. }
  rewrite Forall_forall in *. intros y Hy. specialize (H y Hy).
  destruct (IsDateOrDateTime y) eqn:Ey.
  - rewrite orb_true_r. exact H.
  - rewrite orb_false_r. destruct (IsDateOrDateTime L); [congruence|exact H].
Qed.

Lemma stored_as_cases (T : NumType) (col : IColumn) :
  stored_as T col ->
  (exists a, col = ColumnVector T a) \/ (exists s a, col = ColumnConst T s a).
Proof.
  destruct col as [T' a|T' s a|n]; simpl; intros H; subst; eauto. contradiction.
Qed.

Lemma as_ColumnVector_same (T : NumType) (a : PODArray) :
  as_ColumnVector T (ColumnVector T a) = Some a.
Proof. simpl. destruct (NumType_eq_dec T T); congruence. Qed.

Lemma as_ColumnConst_same (T : NumType) (s : nat) (a : Value) :
  as_ColumnConst T (ColumnConst T s a) = Some (s, a).
Proof. simpl. destruct (NumType_eq_dec T T); congruence. Qed.

Lemma as_ColumnVector_other (T T' : NumType) (col : IColumn) :
  stored_as T col -> T' <> T -> as_ColumnVector T' col = None.
Proof.
  destruct col as [T2 a|T2 s a|n]; simpl; intros H Hn; try reflexivity.
  subst. destruct (NumType_eq_dec T T'); congruence.
Qed.

Lemma as_ColumnConst_other (T T' : NumType) (col : IColumn) :
  stored_as T col -> T' <> T -> as_ColumnConst T' col = None.
Proof.
  destruct col as [T2 a|T2 s a|n]; simpl; intros H Hn; try reflexivity.
  subst. destruct (NumType_eq_dec T T'); congruence.
Qed.

Lemma is_ColumnType_other (ct : ColumnType) (T T' : NumType) (col : IColumn) :
  stored_as T col -> T' <> T -> is_ColumnType ct T' col = false.
Proof.
  intros H Hn. destruct ct; simpl.
  - rewrite (as_ColumnVector_other T T' col H Hn). reflexivity.
  - rewrite (as_ColumnConst_other T T' col H Hn). reflexivity.
Qed.

Lemma FieldType_DataTypeFromFieldType (T : NumType) :
  FieldType (DataTypeFromFieldType T) = T.
Proof. destruct T; reflexivity. Qed.

Section Forwards.

Context {NT : NumberTraits}.
Variable Op : Operation.
Variable garbage : nat -> Z.

Variable st : State.
Variable arguments : ColumnNumbers.
Variable result : nat.
Variables arg0 arg1 : nat.
Variables e0 e1 e_res : ColumnWithNameAndType.
Variable p0 : nat.
Variables left right : IColumn.

Hypothesis Ha0 : nth_error arguments 0 = Some arg0.
Hypothesis Ha1 : nth_error arguments 1 = Some arg1.
Hypothesis He0 : nth_error (block st) arg0 = Some e0.
Hypothesis He1 : nth_error (block st) arg1 = Some e1.
Hypothesis Hc0 : column e0 = Some p0.
Hypothesis Hleft : nth_error (memory st) p0 = Some left.
Hypothesis Hright : deref st (column e1) = Ok right.

Hypothesis Hres : nth_error (block st) result = Some e_res.

Lemma executeRightTypeImpl_skip (ct : ColumnType) (T0 T1' R : NumType) :
  as_ColumnVector T1' right = None -> as_ColumnConst T1' right = None ->
  executeRightTypeImpl Op garbage ct T0 T1' R arguments result p0 st = Ok (false, st).
Proof.
  intros E1 E2.
  destruct ct; simpl;
    [unfold executeRightTypeImpl_ColumnVector|unfold executeRightTypeImpl_ColumnConst];
    unfold argument, getByPosition; rewrite Ha1; cbn [of_option bind];
    rewrite He1; cbn [of_option bind]; rewrite Hright; cbn [bind];
    rewrite E1, E2; reflexivity.
Qed.

Lemma store_new_column (col col' : IColumn) (blk : Block) :
  store (mkState (memory st ++ [col]) blk) (length (memory st)) col'
  = mkState (memory st ++ [col']) blk.
Proof. unfold store. simpl. rewrite update_app_last. reflexivity. Qed.

Lemma executeRightTypeImpl_run (ct : ColumnType) (T0 T1 R : NumType) :
  is_ColumnType ct T0 left = true ->
  stored_as T1 right ->
  executeRightTypeImpl Op garbage ct T0 T1 R arguments result p0 st
  = (col <- kernel_column Op garbage T0 T1 R left right ;;
     Ok (true, with_result st result e_res col)).
Proof.
  intros Hct Hs.
  destruct ct; simpl in Hct |- *.
  - destruct (as_ColumnVector T0 left) as [a|] eqn:El; [|discriminate].
    apply as_ColumnVector_Some in El. subst left.
    unfold executeRightTypeImpl_ColumnVector, argument, getByPosition.
    rewrite Ha1; cbn [of_option bind]. rewrite He1; cbn [of_option bind].
    rewrite Hright; cbn [bind].
    destruct (stored_as_cases T1 right Hs) as [(b & ->)|(s & b & ->)].
    + rewrite as_ColumnVector_same. unfold new_column, set_column. cbn [block memory].
      rewrite Hres. cbn [bind]. unfold ColumnVector_getData.
      rewrite (deref_extended st _ _ p0 _ Hleft). cbn [bind kernel_column].
      destruct (BinaryOperationImpl_vector_vector T0 T1 Op R a b
                  (resize garbage R (length a))) as [c| |]; cbn [bind]; try reflexivity.
      rewrite store_new_column. reflexivity.
    + assert (as_ColumnVector T1 (ColumnConst T1 s b) = None) as -> by reflexivity.
      rewrite as_ColumnConst_same. unfold new_column, set_column. cbn [block memory].
      rewrite Hres. cbn [bind]. unfold ColumnVector_getData.
      rewrite (deref_extended st _ _ p0 _ Hleft). cbn [bind kernel_column].
      destruct (BinaryOperationImpl_vector_constant T0 T1 Op R a b
                  (resize garbage R (length a))) as [c| |]; cbn [bind]; try reflexivity.
      rewrite store_new_column. reflexivity.
  - destruct (as_ColumnConst T0 left) as [[s a]|] eqn:El; [|discriminate].
    apply as_ColumnConst_Some in El. subst left.
    unfold executeRightTypeImpl_ColumnConst, argument, getByPosition.
    rewrite Ha1; cbn [of_option bind]. rewrite He1; cbn [of_option bind].
    rewrite Hright; cbn [bind].
    destruct (stored_as_cases T1 right Hs) as [(b & ->)|(s' & b & ->)].
    + rewrite as_ColumnVector_same. unfold new_column, set_column. cbn [block memory].
      rewrite Hres. cbn [bind]. unfold ColumnConst_size, ColumnConst_getData.
      rewrite (deref_extended st _ _ p0 _ Hleft). cbn [bind kernel_column].
      destruct (BinaryOperationImpl_constant_vector T0 T1 Op R a b
                  (resize garbage R s)) as [c| |]; cbn [bind]; try reflexivity.
      rewrite store_new_column. reflexivity.
    + assert (as_ColumnVector T1 (ColumnConst T1 s' b) = None) as -> by reflexivity.
      rewrite as_ColumnConst_same. unfold ColumnConst_size, ColumnConst_getData.
      assert (deref st (Some p0) = Ok (ColumnConst T0 s a)) as ->
        by (simpl; rewrite Hleft; reflexivity).
      cbn [bind kernel_column].
      destruct (BinaryOperationImpl_constant_constant T0 T1 Op R a b) as [r| |];
        cbn [bind]; try reflexivity.
      unfold new_column, set_column. cbn [block memory]. rewrite Hres. reflexivity.
Qed.

Lemma executeRightType_skip (L R' : DataType) (ct : ColumnType) :
  (if IsDateOrDateTime L || IsDateOrDateTime R'
   then is_DataType R' (type e1) = false
   else as_ColumnVector (FieldType R') right = None
        /\ as_ColumnConst (FieldType R') right = None) ->
  executeRightType Op garbage L R' ct arguments result p0 st = Ok (false, st).
Proof.
  unfold executeRightType.
  destruct (IsDateOrDateTime L || IsDateOrDateTime R').
  - intros H. unfold argument, getByPosition.
    rewrite Ha1; cbn [of_option bind]. rewrite He1; cbn [of_option bind].
    rewrite H. reflexivity.
  - intros [E1 E2]. cbv zeta. apply executeRightTypeImpl_skip; assumption.
Qed.

Lemma executeRightType_invalid (L R : DataType) (ct : ColumnType) :
  IsDateOrDateTime L || IsDateOrDateTime R = true ->
  DateBinaryOperationTraits Op L R = None ->
  executeRightType Op garbage L R ct arguments result p0 st = Ok (false, st).
Proof.
  intros Hd Ht. unfold executeRightType. rewrite Hd.
  unfold argument, getByPosition.
  rewrite Ha1; cbn [of_option bind]. rewrite He1; cbn [of_option bind].
  destruct (negb (is_DataType R (type e1))); [reflexivity|].
  cbv zeta. rewrite Ht. reflexivity.
Qed.

Lemma executeRightType_run (L R T : DataType) (ct : ColumnType) :
  type e1 = DataTypeObject R ->
  stored_as (FieldType R) right ->
  is_ColumnType ct (FieldType L) left = true ->
  BinaryOperationTraits Op L R = Some T ->
  executeRightType Op garbage L R ct arguments result p0 st
  = (col <- kernel_column Op garbage (FieldType L) (FieldType R) (FieldType T) left right ;;
     Ok (true, with_result st result e_res col)).
Proof.
  intros Ht1 Hs Hct HT. unfold executeRightType, BinaryOperationTraits in *.
  destruct (IsDateOrDateTime L || IsDateOrDateTime R).
  - unfold argument, getByPosition.
    rewrite Ha1; cbn [of_option bind]. rewrite He1; cbn [of_option bind].
    rewrite Ht1, is_DataType_same. cbn [negb]. cbv zeta. rewrite HT.
    unfold executeRightTypeDispatch. cbv zeta.
    apply executeRightTypeImpl_run; assumption.
  - injection HT as <-. cbv zeta. rewrite FieldType_DataTypeFromFieldType.
    apply executeRightTypeImpl_run; assumption.
Qed.

Lemma executeRightType_chain_skip (L R : DataType) (ct : ColumnType) (y : DataType) :
  type e1 = DataTypeObject R ->
  stored_as (FieldType R) right ->
  (if IsDateOrDateTime L || IsDateOrDateTime y then y <> R
   else FieldType y <> FieldType R) ->
  executeRightType Op garbage L y ct arguments result p0 st = Ok (false, st).
Proof.
  intros Ht1 Hs H. apply executeRightType_skip.
  destruct (IsDateOrDateTime L || IsDateOrDateTime y).
  - rewrite Ht1. apply is_DataType_other. exact H.
  - split.
    + apply (as_ColumnVector_other (FieldType R)); assumption.
    + apply (as_ColumnConst_other (FieldType R)); assumption.
Qed.

Lemma executeRightType_chain (L R T : DataType) (ct : ColumnType) :
  type e1 = DataTypeObject R ->
  stored_as (FieldType R) right ->
  is_ColumnType ct (FieldType L) left = true ->
  BinaryOperationTraits Op L R = Some T ->
  any_of candidates
    (fun R' => executeRightType Op garbage L R' ct arguments result p0) st
  = (col <- kernel_column Op garbage (FieldType L) (FieldType R) (FieldType T) left right ;;
     Ok (true, with_result st result e_res col)).
Proof.
  intros Ht1 Hs Hct HT.
  destruct (candidates_before_right L R) as (l1 & l2 & E & H). rewrite E.
  rewrite Forall_forall in H.
  rewrite any_of_prefix
    by (intros y Hy; apply (executeRightType_chain_skip L R ct y Ht1 Hs (H y Hy))).
  cbn [any_of]. rewrite (executeRightType_run L R T ct Ht1 Hs Hct HT).
  destruct (kernel_column Op garbage (FieldType L) (FieldType R) (FieldType T) left right);
    reflexivity.
Qed.

Lemma executeLeftTypeImpl_skip (L' : DataType) (ct : ColumnType) :
  is_ColumnType ct (FieldType L') left = false ->
  executeLeftTypeImpl Op garbage L' ct arguments result st = Ok (false, st).
Proof.
  intros H. unfold executeLeftTypeImpl, argument, getByPosition.
  rewrite Ha0; cbn [of_option bind]. rewrite He0; cbn [of_option bind].
  rewrite Hc0. cbn [deref]. rewrite Hleft. cbn [of_option bind]. rewrite H. reflexivity.
Qed.

Lemma executeLeftTypeImpl_run (L R T : DataType) (ct : ColumnType) :
  type e1 = DataTypeObject R ->
  stored_as (FieldType R) right ->
  is_ColumnType ct (FieldType L) left = true ->
  BinaryOperationTraits Op L R = Some T ->
  executeLeftTypeImpl Op garbage L ct arguments result st
  = (col <- kernel_column Op garbage (FieldType L) (FieldType R) (FieldType T) left right ;;
     Ok (true, with_result st result e_res col)).
Proof.
  intros Ht1 Hs Hct HT. unfold executeLeftTypeImpl, argument, getByPosition.
  rewrite Ha0; cbn [of_option bind]. rewrite He0; cbn [of_option bind].
  rewrite Hc0. cbn [deref]. rewrite Hleft. cbn [of_option bind]. rewrite Hct.
  rewrite (executeRightType_chain L R T ct Ht1 Hs Hct HT).
  destruct (kernel_column Op garbage (FieldType L) (FieldType R) (FieldType T) left right);
    reflexivity.
Qed.

Lemma executeLeftTypeDispatch_skip (L' : DataType) :
  (forall ct, is_ColumnType ct (FieldType L') left = false) ->
  executeLeftTypeDispatch Op garbage L' arguments result st = Ok (false, st).
Proof.
  intros H. unfold executeLeftTypeDispatch. apply any_of_none.
  intros ct _. apply executeLeftTypeImpl_skip. apply H.
Qed.

Lemma executeLeftTypeDispatch_run (L R T : DataType) :
  type e1 = DataTypeObject R ->
  stored_as (FieldType R) right ->
  stored_as (FieldType L) left ->
  BinaryOperationTraits Op L R = Some T ->
  executeLeftTypeDispatch Op garbage L arguments result st
  = (col <- kernel_column Op garbage (FieldType L) (FieldType R) (FieldType T) left right ;;
     Ok (true, with_result st result e_res col)).
Proof.
  intros Ht1 Hs Hl HT. unfold executeLeftTypeDispatch. cbn [any_of].
  destruct (stored_as_cases _ _ Hl) as [(a & El)|(s & a & El)].
  - rewrite (executeLeftTypeImpl_run L R T Vector Ht1 Hs)
      by (try exact HT; rewrite El; unfold is_ColumnType; rewrite as_ColumnVector_same; reflexivity).
    destruct (kernel_column Op garbage (FieldType L) (FieldType R) (FieldType T) left right);
      reflexivity.
  - rewrite (executeLeftTypeImpl_skip L Vector) by (rewrite El; reflexivity).
    cbn [bind fst snd].
    rewrite (executeLeftTypeImpl_run L R T Constant Ht1 Hs)
      by (try exact HT; rewrite El; unfold is_ColumnType; rewrite as_ColumnConst_same; reflexivity).
    destruct (kernel_column Op garbage (FieldType L) (FieldType R) (FieldType T) left right);
      reflexivity.
Qed.

Lemma executeLeftType_skip (L L' : DataType) :
  type e0 = DataTypeObject L ->
  stored_as (FieldType L) left ->
  (if IsDateOrDateTime L' then L' <> L else FieldType L' <> FieldType L) ->
  executeLeftType Op garbage L' arguments result st = Ok (false, st).
Proof.
  intros Ht0 Hl H. unfold executeLeftType.
  destruct (IsDateOrDateTime L').
  - unfold argument, getByPosition.
    rewrite Ha0; cbn [of_option bind]. rewrite He0; cbn [of_option bind].
    rewrite Ht0, is_DataType_other by exact H. reflexivity.
  - apply executeLeftTypeDispatch_skip. intros ct.
    apply (is_ColumnType_other ct (FieldType L)); assumption.
Qed.

Lemma executeLeftType_run (L R T : DataType) :
  type e0 = DataTypeObject L ->
  type e1 = DataTypeObject R ->
  stored_as (FieldType L) left ->
  stored_as (FieldType R) right ->
  BinaryOperationTraits Op L R = Some T ->
  executeLeftType Op garbage L arguments result st
  = (col <- kernel_column Op garbage (FieldType L) (FieldType R) (FieldType T) left right ;;
     Ok (true, with_result st result e_res col)).
Proof.
  intros Ht0 Ht1 Hl Hs HT. unfold executeLeftType.
  destruct (IsDateOrDateTime L).
  - unfold argument, getByPosition.
    rewrite Ha0; cbn [of_option bind]. rewrite He0; cbn [of_option bind].
    rewrite Ht0, is_DataType_same. cbn [negb].
    apply (executeLeftTypeDispatch_run L R T); assumption.
  - apply (executeLeftTypeDispatch_run L R T); assumption.
Qed.

End Forwards.

(** X2.  On a block whose two argument columns are stored as their declared
    types say, and for a pair of types that [BinaryOperationTraits] accepts,
    [execute] is the kernel of the two shapes and nothing else: when the
    kernel returns a column, [execute] returns the state with that column,
    newly allocated, at the result position; when the kernel throws or has
    undefined behaviour, so has [execute]. *)
Theorem execute_well_typed {NT : NumberTraits} (Op : Operation) (garbage : nat -> Z)
  (st : State) (arguments : ColumnNumbers) (result arg0 arg1 : nat)
  (e0 e1 e_res : ColumnWithNameAndType) (p0 : nat) (left right : IColumn)
  (L R T : DataType) :
  nth_error arguments 0 = Some arg0 ->
  nth_error arguments 1 = Some arg1 ->
  nth_error (block st) arg0 = Some e0 ->
  nth_error (block st) arg1 = Some e1 ->
  nth_error (block st) result = Some e_res ->
  column e0 = Some p0 ->
  nth_error (memory st) p0 = Some left ->
  deref st (column e1) = Ok right ->
  type e0 = DataTypeObject L ->
  type e1 = DataTypeObject R ->
  stored_as (FieldType L) left ->
  stored_as (FieldType R) right ->
  BinaryOperationTraits Op L R = Some T ->
  execute Op garbage st arguments result
  = (col <- kernel_column Op garbage (FieldType L) (FieldType R) (FieldType T) left right ;;
     Ok (with_result st result e_res col)).
Proof.
  intros Ha0 Ha1 He0 He1 Hres Hc0 Hleft Hright Ht0 Ht1 Hl Hs HT.
  unfold execute.
  destruct (candidates_before L) as (l1 & l2 & E & H). rewrite E.
  rewrite Forall_forall in H.
  rewrite any_of_prefix.
  - cbn [any_of].
    rewrite (executeLeftType_run Op garbage st arguments result arg0 arg1 e0 e1 e_res
               p0 left right Ha0 Ha1 He0 He1 Hc0 Hleft Hright Hres L R T Ht0 Ht1 Hl Hs HT).
    destruct (kernel_column Op garbage (FieldType L) (FieldType R) (FieldType T) left right);
      reflexivity.
  - intros y Hy.
    apply (executeLeftType_skip Op garbage st arguments result arg0 e0 p0 left
             Ha0 He0 Hc0 Hleft L y Ht0 Hl (H y Hy)).
Qed.

(** ** The columns and the pairs of types that [execute] rejects *)

Lemma any_of_false_or_thrown {X S : Type} (l : list X) (f : X -> S -> outcome (bool * S))
  (s : S) (e : Exception) :
  (forall y, In y l -> f y s = Ok (false, s) \/ f y s = Throw e) ->
  any_of l f s = Ok (false, s) \/ any_of l f s = Throw e.
Proof.
  induction l as [|x t IH]; intros Hall; [left; reflexivity|].
  cbn [any_of]. destruct (Hall x (or_introl eq_refl)) as [E|E]; rewrite E.
  - cbn [bind fst snd]. apply IH. intros z Hz. apply Hall. right. exact Hz.
  - right. reflexivity.
Qed.

Section Rejections.

Context {NT : NumberTraits}.
Variable Op : Operation.
Variable garbage : nat -> Z.

Variable st : State.
Variable arguments : ColumnNumbers.
Variable result : nat.
Variables arg0 arg1 : nat.
Variables e0 e1 : ColumnWithNameAndType.
Variable p0 : nat.
Variables left right : IColumn.

Hypothesis Ha0 : nth_error arguments 0 = Some arg0.
Hypothesis He0 : nth_error (block st) arg0 = Some e0.
Hypothesis Hc0 : column e0 = Some p0.
Hypothesis Hleft : nth_error (memory st) p0 = Some left.

Lemma executeLeftType_foreign (n : string) (L' : DataType) :
  left = ForeignColumn n ->
  executeLeftType Op garbage L' arguments result st = Ok (false, st).
Proof.
  intros El. unfold executeLeftType.
  assert (D : executeLeftTypeDispatch Op garbage L' arguments result st = Ok (false, st)).
  { apply (executeLeftTypeDispatch_skip Op garbage st arguments result arg0 e0 p0 left
             Ha0 He0 Hc0 Hleft).
    intros ct. rewrite El. destruct ct; reflexivity. }
  destruct (IsDateOrDateTime L'); [|exact D].
  unfold argument, getByPosition.
  rewrite Ha0; cbn [of_option bind]. rewrite He0; cbn [of_option bind].
  destruct (negb (is_DataType L' (type e0))); [reflexivity|exact D].
Qed.

Hypothesis Ha1 : nth_error arguments 1 = Some arg1.
Hypothesis He1 : nth_error (block st) arg1 = Some e1.
Hypothesis Hright : deref st (column e1) = Ok right.

(** When no candidate for the right type is taken, the left branch throws. *)
Lemma executeLeftTypeImpl_rejects (L' : DataType) (ct : ColumnType) :
  (forall R', executeRightType Op garbage L' R' ct arguments result p0 st = Ok (false, st)) ->
  executeLeftTypeImpl Op garbage L' ct arguments result st
  = if is_ColumnType ct (FieldType L') left
    then Throw (second_argument_rejected Op right)
    else Ok (false, st).
Proof.
  intros H. unfold executeLeftTypeImpl, argument, getByPosition.
  rewrite Ha0; cbn [of_option bind]. rewrite He0; cbn [of_option bind].
  rewrite Hc0. cbn [deref]. rewrite Hleft. cbn [of_option bind].
  destruct (is_ColumnType ct (FieldType L') left); [|reflexivity].
  rewrite any_of_none by (intros R' _; apply H).
  cbn [bind fst snd]. rewrite Ha1; cbn [of_option bind]. rewrite He1; cbn [of_option bind].
  rewrite Hright. reflexivity.
Qed.

Lemma executeLeftTypeDispatch_rejects (L' : DataType) :
  (forall R' ct,
     executeRightType Op garbage L' R' ct arguments result p0 st = Ok (false, st)) ->
  executeLeftTypeDispatch Op garbage L' arguments result st
  = if is_ColumnType Vector (FieldType L') left || is_ColumnType Constant (FieldType L') left
    then Throw (second_argument_rejected Op right)
    else Ok (false, st).
Proof.
  intros H. unfold executeLeftTypeDispatch. cbn [any_of].
  rewrite executeLeftTypeImpl_rejects by (intros R'; apply H).
  destruct (is_ColumnType Vector (FieldType L') left); [reflexivity|].
  cbn [bind fst snd orb].
  rewrite executeLeftTypeImpl_rejects by (intros R'; apply H).
  destruct (is_ColumnType Constant (FieldType L') left); reflexivity.
Qed.

Lemma executeRightType_foreign (n : string) (L' R' : DataType) (ct : ColumnType) :
  right = ForeignColumn n ->
  executeRightType Op garbage L' R' ct arguments result p0 st = Ok (false, st).
Proof.
  intros Er. unfold executeRightType.
  assert (I : forall T0 T1 R,
            executeRightTypeImpl Op garbage ct T0 T1 R arguments result p0 st
            = Ok (false, st)).
  { intros T0 T1 R.
    apply (executeRightTypeImpl_skip Op garbage st arguments result arg1 e1 p0 right
             Ha1 He1 Hright); rewrite Er; reflexivity. }
  destruct (IsDateOrDateTime L' || IsDateOrDateTime R'); [|apply I].
  unfold argument, getByPosition.
  rewrite Ha1; cbn [of_option bind]. rewrite He1; cbn [of_option bind].
  destruct (negb (is_DataType R' (type e1))); [reflexivity|].
  cbv zeta. destruct (DateBinaryOperationTraits Op L' R'); [|reflexivity].
  apply I.
Qed.

Lemma executeLeftType_foreign_right (n : string) (L' : DataType) :
  right = ForeignColumn n ->
  executeLeftType Op garbage L' arguments result st
  = (if IsDateOrDateTime L' && negb (is_DataType L' (type e0)) then Ok (false, st)
     else if is_ColumnType Vector (FieldType L') left
             || is_ColumnType Constant (FieldType L') left
     then Throw (second_argument_rejected Op right)
     else Ok (false, st)).
Proof.
  intros Er. unfold executeLeftType.
  rewrite executeLeftTypeDispatch_rejects
    by (intros R' ct; apply (executeRightType_foreign n); exact Er).
  destruct (IsDateOrDateTime L'); [|reflexivity].
  unfold argument, getByPosition.
  rewrite Ha0; cbn [of_option bind]. rewrite He0; cbn [of_option bind].
  destruct (negb (is_DataType L' (type e0))); reflexivity.
Qed.

End Rejections.

(** X3.  A first argument whose column is neither a vector nor a constant of
    a numeric type is reported by [execute] as an illegal column of the first
    argument, by its name, whatever the declared types and the second
    argument are. *)
Theorem execute_foreign_left {NT : NumberTraits} (Op : Operation) (garbage : nat -> Z)
  (st : State) (arguments : ColumnNumbers) (result arg0 : nat)
  (e0 : ColumnWithNameAndType) (p0 : nat) (n : string) :
  nth_error arguments 0 = Some arg0 ->
  nth_error (block st) arg0 = Some e0 ->
  column e0 = Some p0 ->
  nth_error (memory st) p0 = Some (ForeignColumn n) ->
  execute Op garbage st arguments result
  = Throw (mkException ("Illegal column " ++ n ++ " of first argument of function "
                        ++ getName Op)
                       ILLEGAL_COLUMN).
Proof.
  intros Ha0 He0 Hc0 Hleft. unfold execute.
  rewrite any_of_none.
  - cbn [bind fst snd]. unfold argument, getByPosition.
    rewrite Ha0; cbn [of_option bind]. rewrite He0; cbn [of_option bind].
    rewrite Hc0. cbn [deref]. rewrite Hleft. reflexivity.
  - intros L' _.
    apply (executeLeftType_foreign Op garbage st arguments result arg0 e0 p0
             (ForeignColumn n) Ha0 He0 Hc0 Hleft n L' eq_refl).
Qed.

(** X4.  When the first column is a vector or a constant of a numeric type
    and the second column is neither, [execute] reports the second column as
    illegal, by its name, whatever the declared types are. *)
Theorem execute_foreign_right {NT : NumberTraits} (Op : Operation) (garbage : nat -> Z)
  (st : State) (arguments : ColumnNumbers) (result arg0 arg1 : nat)
  (e0 e1 : ColumnWithNameAndType) (p0 : nat) (left : IColumn) (T0 : NumType)
  (n : string) :
  nth_error arguments 0 = Some arg0 ->
  nth_error arguments 1 = Some arg1 ->
  nth_error (block st) arg0 = Some e0 ->
  nth_error (block st) arg1 = Some e1 ->
  column e0 = Some p0 ->
  nth_error (memory st) p0 = Some left ->
  stored_as T0 left ->
  deref st (column e1) = Ok (ForeignColumn n) ->
  execute Op garbage st arguments result
  = Throw (mkException ("Illegal column " ++ n ++ " of second argument of function "
                        ++ getName Op)
                       ILLEGAL_COLUMN).
Proof.
  intros Ha0 Ha1 He0 He1 Hc0 Hleft Hs Hright. unfold execute.
  pose proof (fun L' => executeLeftType_foreign_right Op garbage st arguments result
                arg0 arg1 e0 e1 p0 left (ForeignColumn n) Ha0 He0 Hc0 Hleft Ha1 He1 Hright
                n L' eq_refl) as HL.
  rewrite (any_of_thrown candidates _ st
             (second_argument_rejected Op (ForeignColumn n))); [reflexivity| |].
  - intros L' _. rewrite HL.
    destruct (IsDateOrDateTime L' && negb (is_DataType L' (type e0))); [auto|].
    destruct (is_ColumnType Vector (FieldType L') left
              || is_ColumnType Constant (FieldType L') left); auto.
  - exists (DataTypeFromFieldType T0). split; [apply In_candidates|].
    rewrite HL. rewrite FieldType_DataTypeFromFieldType.
    assert (IsDateOrDateTime (DataTypeFromFieldType T0) = false) as ->
      by (destruct T0; reflexivity).
    cbn [andb].
    destruct (stored_as_cases T0 left Hs) as [(a & ->)|(s & a & ->)].
    + unfold is_ColumnType. rewrite as_ColumnVector_same. reflexivity.
    + unfold is_ColumnType. rewrite as_ColumnConst_same.
      rewrite orb_true_r. reflexivity.
Qed.

Lemma is_DataType_true (T : DataType) (x : IDataType) :
  is_DataType T x = true -> x = DataTypeObject T.
Proof.
  destruct x as [T'|n]; simpl; [|discriminate].
  destruct (DataType_eq_dec T' T); congruence.
Qed.

(** X5.  With a date or a date with time as the declared type of the first
    argument, [execute] rejects what [DateBinaryOperationTraits] rejects: when
    the traits give [InvalidType] for the declared type of the second
    argument, the second column is reported as illegal, although it may be a
    well-formed column. *)
Theorem execute_rejects_invalid_date {NT : NumberTraits} (Op : Operation)
  (garbage : nat -> Z) (st : State) (arguments : ColumnNumbers) (result arg0 arg1 : nat)
  (e0 e1 : ColumnWithNameAndType) (p0 : nat) (left right : IColumn) (L : DataType) :
  nth_error arguments 0 = Some arg0 ->
  nth_error arguments 1 = Some arg1 ->
  nth_error (block st) arg0 = Some e0 ->
  nth_error (block st) arg1 = Some e1 ->
  column e0 = Some p0 ->
  nth_error (memory st) p0 = Some left ->
  deref st (column e1) = Ok right ->
  type e0 = DataTypeObject L ->
  IsDateOrDateTime L = true ->
  stored_as (FieldType L) left ->
  (forall R, type e1 = DataTypeObject R -> DateBinaryOperationTraits Op L R = None) ->
  execute Op garbage st arguments result = Throw (second_argument_rejected Op right).
Proof.
  intros Ha0 Ha1 He0 He1 Hc0 Hleft Hright Ht0 Hd Hs Hinv. unfold execute.
  destruct (candidates_before L) as (l1 & l2 & E & H). rewrite E.
  rewrite Forall_forall in H.
  rewrite any_of_prefix
    by (intros y Hy;
        apply (executeLeftType_skip Op garbage st arguments result arg0 e0 p0 left
                 Ha0 He0 Hc0 Hleft L y Ht0 Hs (H y Hy))).
  cbn [any_of]. unfold executeLeftType. rewrite Hd.
  unfold argument, getByPosition.
  rewrite Ha0; cbn [of_option bind]. rewrite He0; cbn [of_option bind].
  rewrite Ht0, is_DataType_same. cbn [negb].
  rewrite (executeLeftTypeDispatch_rejects Op garbage st arguments result arg0 arg1
             e0 e1 p0 left right Ha0 He0 Hc0 Hleft Ha1 He1 Hright).
  - destruct (stored_as_cases _ _ Hs) as [(a & ->)|(s & a & ->)]; unfold is_ColumnType.
    + rewrite as_ColumnVector_same. reflexivity.
    + rewrite as_ColumnConst_same, orb_true_r. reflexivity.
  - intros R' ct.
    destruct (is_DataType R' (type e1)) eqn:Ed.
    + apply is_DataType_true in Ed.
      apply (executeRightType_invalid Op garbage st arguments result arg1 e1 p0 Ha1 He1).
      * rewrite Hd. reflexivity.
      * apply Hinv. exact Ed.
    + apply (executeRightType_skip Op garbage st arguments result arg1 e1 p0 right
               Ha1 He1 Hright).
      rewrite Hd. cbn [orb]. exact Ed.
Qed.

(** ** The kernels at the edges *)

Lemma zero_in_range (T : NumType) : in_range T 0.
Proof. destruct T; unfold in_range, min_value, max_value; simpl; lia. Qed.

Lemma equal_zero_literal (B : NumType) :
  is_integral B = true -> equal B (VInt 0) Int32 (int_literal 0) = true.
Proof.
  intros HB. rewrite equal_int; auto using zero_in_range.
  unfold in_range, min_value, max_value; simpl; lia.
Qed.

Lemma overridden_default {NT : NumberTraits} (A B : NumType) (Op : Operation) :
  specialized A B Op = true -> overridden A B Op (ResultType Op A B) = true.
Proof. intros H. unfold overridden. rewrite H, NumType_eqb_refl. reflexivity. Qed.

(** X6.  For a specialised pair of types and the constant zero, the kernel
    that [execute] calls throws the division by zero before it looks at the
    data, even for a vector of no elements; the generic kernel it replaces
    throws at the first element, and returns normally for a vector of no
    elements. *)
Theorem zero_constant_throws {NT : NumberTraits} (Op : Operation) (A B : NumType) :
  specialized A B Op = true ->
  (forall a c,
     BinaryOperationImpl_vector_constant A B Op (ResultType Op A B) a (VInt 0) c
     = Throw DivisionByZero)
  /\ (forall c,
        BinaryOperationImplBase_vector_constant A B Op (ResultType Op A B) [] (VInt 0) c
        = Ok c)
  /\ (forall x a c,
        BinaryOperationImplBase_vector_constant A B Op (ResultType Op A B) (x :: a) (VInt 0) c
        = Throw DivisionByZero).
Proof.
  intros Hs. pose proof Hs as Hs'.
  apply specialized_iff in Hs' as (HOp & HA & HB & _ & _).
  pose proof (equal_zero_literal B HB) as E0.
  split; [|split].
  - intros a c. unfold BinaryOperationImpl_vector_constant.
    rewrite overridden_default by exact Hs.
    destruct HOp as [-> | ->].
    + unfold DivideIntegralByConstantImpl_vector_constant. cbv zeta. rewrite E0. reflexivity.
    + unfold ModuloByConstantImpl_vector_constant. cbv zeta. rewrite E0. reflexivity.
  - intros c. reflexivity.
  - intros x a c. unfold BinaryOperationImplBase_vector_constant.
    cbn [length for_loop read nth_error of_option bind].
    destruct HOp as [-> | ->]; cbn [apply].
    + unfold DivideIntegralImpl_apply, throwIfDivisionLeadsToFPE. rewrite E0. reflexivity.
    + unfold ModuloImpl_apply. cbv zeta. rewrite (ToInteger_of_integral A HA).
      unfold static_cast. rewrite conv_same.
      rewrite (conv_int_in_range B A 0) by auto using zero_in_range.
      cbn [of_option bind]. unfold throwIfDivisionLeadsToFPE.
      rewrite (equal_zero_literal A HA). reflexivity.
Qed.

(** X7.  Integer division and modulo by the same constant compose, on the
    kernels that [execute] calls for a specialised pair of types whose result
    type is the left type, and for a constant that is a value of the left
    type as well as of the right type and is neither [0] nor [-1]: every
    element is its quotient times the constant plus its remainder, the
    remainder is smaller in magnitude than the constant, and it has the sign
    of the element or is zero. *)
Theorem quotient_remainder_compose {NT : NumberTraits} (A B : NumType) (b : Z)
  (zs : list Z) (c c' : PODArray) :
  specialized A B DivideIntegralImpl = true ->
  ResultType DivideIntegralImpl A B = A ->
  ResultType ModuloImpl A B = A ->
  in_range B b -> in_range A b -> b <> 0 -> b <> -1 ->
  Forall (in_range A) zs ->
  length c = length zs -> length c' = length zs ->
  exists qs rs,
    BinaryOperationImpl_vector_constant A B DivideIntegralImpl A (map VInt zs) (VInt b) c
    = Ok (map VInt qs)
    /\ BinaryOperationImpl_vector_constant A B ModuloImpl A (map VInt zs) (VInt b) c'
       = Ok (map VInt rs)
    /\ length qs = length zs /\ length rs = length zs
    /\ forall i z q r,
         nth_error zs i = Some z -> nth_error qs i = Some q -> nth_error rs i = Some r ->
         z = q * b + r /\ Z.abs r < Z.abs b /\ 0 <= r * z.
Proof.
  intros Hs HRd HRm HbB HbA Hb0 Hb1 Hzs Hc Hc'.
  pose proof Hs as Hs'. apply specialized_iff in Hs' as (_ & HA & HB & Hbits & Hsg).
  assert (Hsm : specialized A B ModuloImpl = true).
  { apply specialized_iff. repeat split; auto. }
  exists (map (fun z => Z.quot z b) zs), (map (fun z => Z.rem z b) zs).
  split; [|split; [|split; [|split]]].
  - unfold BinaryOperationImpl_vector_constant, overridden.
    rewrite Hs, HRd, NumType_eqb_refl. cbn [andb].
    rewrite (fast_quotients A B b HA HB HbB HbA Hb0 Hb1 zs c Hs HRd Hzs Hc).
    unfold quotients. rewrite map_map. reflexivity.
  - unfold BinaryOperationImpl_vector_constant, overridden.
    rewrite Hsm, HRm, NumType_eqb_refl. cbn [andb].
    rewrite (fast_remainders A B b HA HB HbB HbA Hb0 Hb1 zs c' Hsm Hzs Hc').
    unfold remainders. rewrite HRm, map_map. f_equal. apply map_ext.
    intros z. rewrite conv_same. reflexivity.
  - apply length_map.
  - apply length_map.
  - intros i z q r Hz Hq Hr.
    rewrite nth_error_map, Hz in Hq. rewrite nth_error_map, Hz in Hr.
    injection Hq as <-. injection Hr as <-.
    pose proof (Z.quot_rem' z b) as E.
    pose proof (Z.rem_bound_abs z b Hb0) as Hbd.
    pose proof (Z.rem_sign_mul z b Hb0) as Hsgn.
    repeat split; lia.
Qed.

(** X8.  In the generic kernels a constant operand is a vector filled with
    it: the [vector_constant] and the [constant_vector] kernel give what the
    [vector_vector] kernel gives when the constant is repeated over the length
    of the other operand, whatever the buffer is and also when they fail. *)
Theorem constant_as_repeated_vector {NT : NumberTraits} (A B : NumType) (Op : Operation)
  (R : NumType) (c : PODArray) :
  (forall a b,
     BinaryOperationImplBase_vector_constant A B Op R a b c
     = BinaryOperationImplBase_vector_vector A B Op R a (repeat b (length a)) c)
  /\ (forall a b,
        BinaryOperationImplBase_constant_vector A B Op R a b c
        = BinaryOperationImplBase_vector_vector A B Op R (repeat a (length b)) b c).
Proof.
  split; intros a b.
  - unfold BinaryOperationImplBase_vector_constant, BinaryOperationImplBase_vector_vector.
    cbv zeta. apply for_loop_ext. intros i s.
    unfold read. destruct (nth_error a i) as [x|] eqn:Hx; cbn [of_option bind]; [|reflexivity].
    assert (Hi : (i < length a)%nat) by (apply nth_error_Some; congruence).
    rewrite nth_error_repeat by exact Hi. reflexivity.
  - unfold BinaryOperationImplBase_constant_vector, BinaryOperationImplBase_vector_vector.
    cbv zeta. rewrite repeat_length. apply for_loop_ext. intros i s.
    unfold read. destruct (nth_error b i) as [y|] eqn:Hy.
    + assert (Hi : (i < length b)%nat) by (apply nth_error_Some; congruence).
      rewrite nth_error_repeat by exact Hi. reflexivity.
    + apply nth_error_None in Hy.
      assert (nth_error (repeat a (length b)) i = None) as ->
        by (apply nth_error_None; rewrite repeat_length; exact Hy).
      reflexivity.
Qed.

Lemma mapM_seq_read {Y : Type} (G : Value -> outcome Y) (b : PODArray) (n k : nat) :
  (k + n <= length b)%nat ->
  mapM (fun i => y <- read b i ;; G y) (seq k n) = mapM G (firstn n (skipn k b)).
Proof.
  revert k; induction n as [|n IH]; intros k Hn; [reflexivity|].
  destruct (nth_error b k) as [x|] eqn:Hx; [|apply nth_error_None in Hx; lia].
  cbn [seq mapM]. unfold read at 1. rewrite Hx. cbn [of_option bind].
  rewrite IH by lia. rewrite (skipn_nth_error _ _ _ Hx). reflexivity.
Qed.

Lemma for_loop_overrun (F : nat -> outcome Value) (n k : nat) (c : PODArray) :
  (forall i, (k <= i < k + n)%nat -> exists r, F i = Ok r) ->
  (k <= length c < k + n)%nat ->
  for_loop n k (fun i c => r <- F i ;; write c i r) c = Undefined.
Proof.
  revert k c; induction n as [|n IH]; intros k c HF Hc; [lia|].
  cbn [for_loop]. destruct (HF k ltac:(lia)) as (r & ->). cbn [bind].
  unfold write. destruct (Nat.ltb_spec k (length c)) as [Hk|Hk]; [|reflexivity].
  cbn [bind]. apply IH.
  - intros i Hi. apply HF. lia.
  - rewrite length_update. lia.
Qed.

(** X9.  A constant on the left and a vector on the right: the buffer of the
    result has the size of the constant, and the loop runs over the vector.
    When the vector is not longer, the elements past its length are left as
    the allocator gave them; when it is longer and every element can be
    computed, the loop writes past the end of the buffer. *)
Theorem constant_vector_sizes {NT : NumberTraits} (Op : Operation) (garbage : nat -> Z)
  (T0 T1 R : NumType) (s : nat) (a : Value) (b : PODArray) :
  ((length b <= s)%nat ->
   kernel_column Op garbage T0 T1 R (ColumnConst T0 s a) (ColumnVector T1 b)
   = (rs <- mapM (fun y => apply Op T0 T1 R a y) b ;;
      Ok (ColumnVector R (rs ++ skipn (length b) (resize garbage R s)))))
  /\ ((s < length b)%nat ->
      (forall y, In y b -> exists r, apply Op T0 T1 R a y = Ok r) ->
      kernel_column Op garbage T0 T1 R (ColumnConst T0 s a) (ColumnVector T1 b)
      = Undefined).
Proof.
  unfold kernel_column, BinaryOperationImpl_constant_vector,
    BinaryOperationImplBase_constant_vector. cbv zeta.
  assert (E : forall c,
            for_loop (length b) 0
              (fun i c0 => y <- read b i ;; r <- apply Op T0 T1 R a y ;; write c0 i r) c
            = for_loop (length b) 0
                (fun i c0 => r <- (y <- read b i ;; apply Op T0 T1 R a y) ;; write c0 i r) c).
  { intros c. apply for_loop_ext. intros i c0. rewrite bind_assoc. reflexivity. }
  rewrite E. split.
  - intros Hl.
    pose proof (for_loop_writes (fun i => y <- read b i ;; apply Op T0 T1 R a y)
                  (length b) [] (resize garbage R s)) as H.
    cbn [length app] in H. rewrite H by (rewrite length_resize; exact Hl).
    rewrite (mapM_seq_read (fun y => apply Op T0 T1 R a y) b (length b) 0)
      by (simpl; lia).
    cbn [skipn]. rewrite firstn_all.
    destruct (mapM (fun y => apply Op T0 T1 R a y) b); reflexivity.
  - intros Hl Hall.
    rewrite for_loop_overrun; [reflexivity| |].
    + intros i Hi. destruct (nth_error b i) as [y|] eqn:Hy;
        [|apply nth_error_None in Hy; lia].
      unfold read. rewrite Hy. cbn [of_option bind].
      apply Hall. eapply nth_error_In. exact Hy.
    + rewrite length_resize. lia.
Qed.

(** ** Addition, subtraction and multiplication of integers *)

Lemma bits_pos (T : NumType) : 0 < bits T.
Proof. destruct T; simpl; lia. Qed.

Lemma pow_bits_pos (T : NumType) : 0 < 2 ^ bits T.
Proof. apply Z.pow_pos_nonneg; [lia|]. pose proof (bits_pos T). lia. Qed.

Lemma wrap_eqm (T : NumType) (z : Z) : wrap T z mod 2 ^ bits T = z mod 2 ^ bits T.
Proof.
  pose proof (pow_bits_pos T) as HM. unfold wrap. destruct (is_signed T).
  - rewrite Zminus_mod_idemp_l. f_equal. lia.
  - apply Z.mod_mod. lia.
Qed.

Lemma wrap_congr (T : NumType) (x y : Z) :
  x mod 2 ^ bits T = y mod 2 ^ bits T -> wrap T x = wrap T y.
Proof.
  intros H. rewrite <- (wrap_mod T x), <- (wrap_mod T y), H. reflexivity.
Qed.

Lemma eqm_narrow (R C : NumType) (x y : Z) :
  bits R <= bits C ->
  x mod 2 ^ bits C = y mod 2 ^ bits C -> x mod 2 ^ bits R = y mod 2 ^ bits R.
Proof.
  intros Hb H.
  assert (D : (2 ^ bits R | 2 ^ bits C)).
  { exists (2 ^ (bits C - bits R)). rewrite <- Z.pow_add_r.
    - f_equal. lia.
    - lia.
    - pose proof (bits_pos R). lia. }
  rewrite <- (Z.mod_mod_divide x _ _ D), <- (Z.mod_mod_divide y _ _ D), H.
  reflexivity.
Qed.

Lemma conv_int_wrap (X Y : NumType) (z : Z) :
  is_integral Y = true -> in_range X z ->
  conv X Y (VInt z) = Some (VInt (wrap Y z)).
Proof.
  intros HY Hz. unfold conv. destruct (NumType_eq_dec X Y) as [<-|].
  - rewrite wrap_in_range by exact Hz. reflexivity.
  - rewrite HY. reflexivity.
Qed.

Lemma common_integral (R B : NumType) :
  is_integral R = true -> is_integral B = true ->
  is_integral (common R B) = true
  /\ bits R <= bits (common R B)
  /\ (is_signed (common R B) = true ->
      (forall z, in_range R z -> in_range (common R B) z)
      /\ (forall z, in_range B z -> in_range (common R B) z)).
Proof.
  intros HR HB.
  destruct R; try discriminate HR; destruct B; try discriminate HB;
    (split; [reflexivity|]); (split; [simpl; lia|]);
    simpl; intros Hs; try discriminate Hs;
    split; intros z; unfold in_range, min_value, max_value; simpl; lia.
Qed.

(** The three operators and the operations on the integers they stand for. *)
Lemma int_binop_arith (C : NumType) (op : operator) (f : Z -> Z -> Z) (x y : Z) :
  (op = Add /\ f = Z.add) \/ (op = Sub /\ f = Z.sub) \/ (op = Mul /\ f = Z.mul) ->
  int_binop C op x y
  = if is_signed C
    then if in_rangeb C (f x y) then Ok (f x y) else Undefined
    else Ok (f x y mod 2 ^ bits C).
Proof. intros [[-> ->]|[[-> ->]|[-> ->]]]; reflexivity. Qed.

Lemma arith_eqm (f : Z -> Z -> Z) (m x x' y y' : Z) :
  f = Z.add \/ f = Z.sub \/ f = Z.mul ->
  x mod m = x' mod m -> y mod m = y' mod m -> f x y mod m = f x' y' mod m.
Proof.
  intros [->|[->| ->]] Hx Hy.
  - rewrite (Zplus_mod x y), Hx, Hy, <- Zplus_mod. reflexivity.
  - rewrite (Zminus_mod x y), Hx, Hy, <- Zminus_mod. reflexivity.
  - rewrite (Zmult_mod x y), Hx, Hy, <- Zmult_mod. reflexivity.
Qed.

Lemma unsigned_in_range (C : NumType) (z : Z) :
  is_signed C = false -> in_range C (z mod 2 ^ bits C).
Proof.
  intros Hs. unfold in_range, min_value, max_value. rewrite Hs.
  pose proof (Z.mod_pos_bound z _ (pow_bits_pos C)). lia.
Qed.

Section Arithmetic.

Context {NT : NumberTraits}.
Variables (A B R : NumType) (a b : Z).

Hypothesis integral_A : is_integral A = true.
Hypothesis integral_B : is_integral B = true.
Hypothesis integral_R : is_integral R = true.
Hypothesis a_in_A : in_range A a.
Hypothesis b_in_B : in_range B b.

(** What the three bodies [static_cast<Result>(a) op b] compute. *)
Lemma arithmetic_apply (Op : Operation) (f : Z -> Z -> Z) :
  arithmetic Op = Some f ->
  apply Op A B R (VInt a) (VInt b)
  = (let C := common R B in
     r <- (if is_signed C
           then if in_rangeb C (f (wrap C (wrap R a)) (wrap C b))
                then Ok (f (wrap C (wrap R a)) (wrap C b)) else Undefined
           else Ok (f (wrap C (wrap R a)) (wrap C b) mod 2 ^ bits C)) ;;
     Ok (VInt (wrap R r))).
Proof.
  intros Hf.
  destruct (common_integral R B integral_R integral_B) as (HC & Hb & Hin).
  assert (E : forall op,
            (op = Add /\ f = Z.add) \/ (op = Sub /\ f = Z.sub) \/ (op = Mul /\ f = Z.mul) ->
            (x <- static_cast A R (VInt a) ;;
             r <- binary_expr R x op B (VInt b) ;;
             return_as R r)
            = (let C := common R B in
               r <- (if is_signed C
                     then if in_rangeb C (f (wrap C (wrap R a)) (wrap C b))
                          then Ok (f (wrap C (wrap R a)) (wrap C b)) else Undefined
                     else Ok (f (wrap C (wrap R a)) (wrap C b) mod 2 ^ bits C)) ;;
               Ok (VInt (wrap R r)))).
  { intros op Hop. unfold static_cast.
    rewrite (conv_int_wrap A R a integral_R a_in_A). cbn [of_option bind].
    unfold binary_expr. cbv zeta.
    rewrite (conv_int_wrap R (common R B) (wrap R a) HC (wrap_range R a)).
    rewrite (conv_int_wrap B (common R B) b HC b_in_B). cbn [of_option bind].
    rewrite (int_binop_arith _ op f _ _ Hop).
    destruct (is_signed (common R B)) eqn:Hs.
    - destruct (in_rangeb (common R B) (f (wrap (common R B) (wrap R a)) (wrap (common R B) b)))
        eqn:Hr; cbn [bind]; [|reflexivity].
      unfold return_as. cbn [fst snd].
      apply in_rangeb_spec in Hr.
      rewrite (conv_int_wrap (common R B) R _ integral_R Hr). reflexivity.
    - cbn [bind]. unfold return_as. cbn [fst snd].
      rewrite (conv_int_wrap (common R B) R _ integral_R (unsigned_in_range _ _ Hs)).
      reflexivity. }
  destruct Op; try discriminate Hf; injection Hf as <-; cbn [apply];
    [unfold PlusImpl_apply|unfold MultiplyImpl_apply|unfold MinusImpl_apply];
    apply E; tauto.
Qed.

End Arithmetic.

Lemma wrap_wrap_eqm (R C : NumType) (z : Z) :
  bits R <= bits C -> wrap C z mod 2 ^ bits R = z mod 2 ^ bits R.
Proof. intros Hb. apply (eqm_narrow R C); [exact Hb|apply wrap_eqm]. Qed.

Lemma arithmetic_cases (Op : Operation) (f : Z -> Z -> Z) :
  arithmetic Op = Some f -> f = Z.add \/ f = Z.sub \/ f = Z.mul.
Proof. destruct Op; intros H; try discriminate H; injection H as <-; auto. Qed.

Lemma arithmetic_eqm (f : Z -> Z -> Z) (R C : NumType) (a b : Z) :
  f = Z.add \/ f = Z.sub \/ f = Z.mul ->
  bits R <= bits C ->
  f (wrap C (wrap R a)) (wrap C b) mod 2 ^ bits R = f a b mod 2 ^ bits R.
Proof.
  intros Hf Hbits. apply arith_eqm; [exact Hf| |].
  - rewrite (wrap_wrap_eqm R _ _ Hbits). apply wrap_eqm.
  - apply (wrap_wrap_eqm R _ _ Hbits).
Qed.

(** The outcome of the three operations: undefined, or the result reduced
    to the result type. *)
Lemma arithmetic_outcome {NT : NumberTraits} (Op : Operation) (f : Z -> Z -> Z)
  (A B R : NumType) (a b : Z) :
  arithmetic Op = Some f ->
  is_integral B = true -> is_integral R = true ->
  in_range A a -> in_range B b ->
  apply Op A B R (VInt a) (VInt b)
  = if is_signed (common R B)
       && negb (in_rangeb (common R B) (f (wrap (common R B) (wrap R a)) (wrap (common R B) b)))
    then Undefined
    else Ok (VInt (wrap R (f a b))).
Proof.
  intros Hf HB HR Ha Hb.
  rewrite (arithmetic_apply A B R a b HB HR Ha Hb Op f Hf). cbv zeta.
  destruct (common_integral R B HR HB) as (HC & Hbits & _).
  pose proof (arithmetic_eqm f R (common R B) a b (arithmetic_cases Op f Hf) Hbits) as E.
  destruct (is_signed (common R B)).
  - destruct (in_rangeb _ _); [|reflexivity].
    cbn [bind andb negb]. do 2 f_equal. apply wrap_congr. exact E.
  - cbn [bind andb]. do 2 f_equal. apply wrap_congr. rewrite <- E.
    apply (eqm_narrow R (common R B)); [exact Hbits|].
    apply Z.mod_mod. pose proof (pow_bits_pos (common R B)). lia.
Qed.


(** X11.  The cast of the left operand to the result type does what the
    comment in [PlusImpl] says it is for: when both operands and the
    mathematical result are values of the result type [R], the sum, the
    difference and the product are exact, whatever the types of the operands
    are. *)
Theorem arithmetic_exact {NT : NumberTraits} (Op : Operation) (f : Z -> Z -> Z)
  (A B R : NumType) (a b : Z) :
  arithmetic Op = Some f ->
  is_integral A = true -> is_integral B = true -> is_integral R = true ->
  in_range A a -> in_range B b ->
  in_range R a -> in_range R b -> in_range R (f a b) ->
  apply Op A B R (VInt a) (VInt b) = Ok (VInt (f a b)).
Proof.
  intros Hf HA HB HR Ha Hb HRa HRb HRf.
  rewrite (arithmetic_outcome Op f A B R a b Hf HB HR Ha Hb).
  rewrite (wrap_in_range R (f a b) HRf).
  destruct (common_integral R B HR HB) as (HC & Hbits & Hin).
  destruct (is_signed (common R B)); [|reflexivity].
  destruct (Hin eq_refl) as [HinR HinB].
  rewrite (wrap_in_range R a HRa).
  rewrite (wrap_in_range _ a (HinR _ HRa)).
  rewrite (wrap_in_range _ b (HinB _ Hb)).
  replace (in_rangeb (common R B) (f a b)) with true; [reflexivity|].
  symmetry. apply in_rangeb_spec. apply HinR. exact HRf.
Qed.

(** X12.  The difference of two dates and of two dates with time, which
    [DateBinaryOperationTraits] types as [Int32]: it is always defined; for
    two dates it is the exact number of days, for two dates with time it is
    the number of seconds reduced to 32 bits in two's complement. *)
Theorem date_difference {NT : NumberTraits} (T Tres : DataType) (a b : Z) :
  IsDateOrDateTime T = true ->
  DateBinaryOperationTraits MinusImpl T T = Some Tres ->
  in_range (FieldType T) a -> in_range (FieldType T) b ->
  apply MinusImpl (FieldType T) (FieldType T) (FieldType Tres) (VInt a) (VInt b)
  = Ok (VInt (wrap Int32 (a - b)))
  /\ (T = DataTypeDate -> wrap Int32 (a - b) = a - b).
Proof.
  intros Hd HT Ha Hb.
  assert (Tres = DataTypeInt32) as ->.
  { destruct T; try discriminate Hd; vm_compute in HT; congruence. }
  assert (HI : is_integral (FieldType T) = true)
    by (destruct T; try discriminate Hd; reflexivity).
  split.
  - rewrite (arithmetic_outcome MinusImpl Z.sub (FieldType T) (FieldType T) Int32 a b
               eq_refl HI eq_refl Ha Hb).
    destruct T; try discriminate Hd; cbn [FieldType].
    + assert (Ha' : in_range Int32 a)
        by (revert Ha; unfold in_range, min_value, max_value; simpl; lia).
      assert (Hb' : in_range Int32 b)
        by (revert Hb; unfold in_range, min_value, max_value; simpl; lia).
      change (common Int32 UInt16) with Int32.
      rewrite !(wrap_in_range Int32 a Ha'), (wrap_in_range Int32 b Hb').
      replace (in_rangeb Int32 (a - b)) with true; [reflexivity|].
      symmetry. apply in_rangeb_spec.
      revert Ha Hb; unfold in_range, min_value, max_value; simpl; lia.
    + reflexivity.
  - intros ->. apply wrap_in_range.
    revert Ha Hb; unfold in_range, min_value, max_value; simpl; lia.
Qed.

(** ** The operations on dates *)

(** X13.  [DateBinaryOperationTraits] is the table of its comment: a date
    plus an integer and an integer plus a date give the date type, a date
    minus a date of the same type gives [Int32], a date minus an integer gives
    the date type, and everything else is [InvalidType].  So the sum is
    symmetric in its two types. *)
Theorem date_operations_table (Op : Operation) (L R : DataType) :
  (forall T,
     DateBinaryOperationTraits Op L R = Some T <->
     (Op = PlusImpl /\ IsDateOrDateTime L = true /\ IsIntegral R = true /\ T = L)
     \/ (Op = PlusImpl /\ IsIntegral L = true /\ IsDateOrDateTime R = true /\ T = R)
     \/ (Op = MinusImpl /\ IsDateOrDateTime L = true /\ R = L /\ T = DataTypeInt32)
     \/ (Op = MinusImpl /\ IsDateOrDateTime L = true /\ IsIntegral R = true /\ T = L))
  /\ DateBinaryOperationTraits PlusImpl L R = DateBinaryOperationTraits PlusImpl R L.
Proof.
  split.
  - intros T. unfold DateBinaryOperationTraits.
    destruct (Operation_eq_dec Op PlusImpl) as [->|Hp].
    + destruct (IsDateOrDateTime L) eqn:EL, (IsIntegral R) eqn:ER,
        (IsIntegral L) eqn:EIL, (IsDateOrDateTime R) eqn:EDR; cbn [andb];
        try (destruct L; discriminate);
        try (destruct R; discriminate);
        split; intros H;
        try discriminate H;
        try (injection H as <-; tauto);
        try (destruct H as [(_ & H1 & H2 & H3)|[(_ & H1 & H2 & H3)|[(H0 & _)|(H0 & _)]]];
             congruence).
    + destruct (Operation_eq_dec Op MinusImpl) as [->|Hm].
      * destruct (IsDateOrDateTime L) eqn:EL.
        -- destruct (DataType_eq_dec L R) as [<-|Hne].
           ++ split; intros H.
              ** injection H as <-. tauto.
              ** destruct H as [(H0 & _)|[(H0 & _)|[(_ & _ & _ & ->)|(_ & _ & H2 & _)]]];
                   try discriminate H0; [reflexivity|].
                 destruct L; discriminate.
           ++ destruct (IsIntegral R) eqn:ER; split; intros H;
                try discriminate H;
                try (injection H as <-; tauto);
                destruct H as [(H0 & _)|[(H0 & _)|[(_ & _ & H2 & _)|(_ & _ & H2 & H3)]]];
                congruence.
        -- split; intros H; [discriminate H|].
           destruct H as [(H0 & _)|[(H0 & _)|[(_ & H1 & _)|(_ & H1 & _)]]]; congruence.
      * split; intros H; [discriminate H|].
        destruct H as [(H0 & _)|[(H0 & _)|[(H0 & _)|(H0 & _)]]]; congruence.
  - destruct L, R; reflexivity.
Qed.

(** ** The unary functions *)

Lemma NoDup_unary_candidates : NoDup unary_candidates.
Proof.
  unfold unary_candidates.
  repeat (constructor; [simpl; intuition discriminate|]). constructor.
Qed.

Lemma In_unary_candidates (T : DataType) :
  IsDateOrDateTime T = false <-> In T unary_candidates.
Proof.
  split.
  - destruct T; simpl; intros H; try discriminate H; tauto.
  - simpl. intros H.
    repeat (destruct H as [<-|H]; [reflexivity|]). destruct H.
Qed.

Lemma NoDup_unary_field_types : NoDup unary_field_types.
Proof.
  unfold unary_field_types.
  repeat (constructor; [simpl; intuition discriminate|]). constructor.
Qed.

Lemma In_unary_field_types (T : NumType) : In T unary_field_types.
Proof. destruct T; simpl; tauto. Qed.

Lemma around {X : Type} (l : list X) (x : X) :
  NoDup l -> In x l -> exists l1 l2, l = l1 ++ x :: l2 /\ ~ In x l1 /\ ~ In x l2.
Proof.
  intros N H. destruct (in_split x l H) as (l1 & l2 & E).
  exists l1, l2. split; [exact E|].
  rewrite E in N. apply NoDup_remove_2 in N. rewrite in_app_iff in N. tauto.
Qed.

Section UnaryDispatch.

Context {UT : UnaryNumberTraits}.
Variable Op : UnaryOperation.

(** X14.  The unary [getReturnType] is a lookup too: for one argument of a
    numeric type it returns the data type of the result type of the
    operation; a date, a date with time and an unknown type are reported as
    illegal, and any other number of arguments as a wrong number.  It never
    has undefined behaviour. *)
Theorem unary_getReturnType_table (arguments : list IDataType) :
  unary_getReturnType Op arguments
  = match arguments with
    | [DataTypeObject T] =>
        if IsDateOrDateTime T
        then Throw (mkException ("Illegal type " ++ IDataType_getName (DataTypeObject T)
                                 ++ " of argument of function " ++ unary_getName Op)
                                ILLEGAL_TYPE_OF_ARGUMENT)
        else Ok (Some (DataTypeObject
                         (DataTypeFromFieldType (UnaryResultType Op (FieldType T)))))
    | [ForeignDataType n] =>
        Throw (mkException ("Illegal type " ++ n
                            ++ " of argument of function " ++ unary_getName Op)
                           ILLEGAL_TYPE_OF_ARGUMENT)
    | _ =>
        Throw (mkException ("Number of arguments for function " ++ unary_getName Op
                            ++ " doesn't match: passed " ++ toString (length arguments)
                            ++ ", should be 1.")
                           NUMBER_OF_ARGUMENTS_DOESNT_MATCH)
    end.
Proof.
  destruct arguments as [|x [|y t]]; try reflexivity.
  - unfold unary_getReturnType. cbn [length Nat.eqb negb].
    destruct x as [T|n].
    + assert (Hother : forall T0 r, T0 <> T ->
                checkType Op T0 [DataTypeObject T] r = Ok (false, r)).
      { intros T0 r H0. unfold checkType. cbn [nth_error of_option bind].
        rewrite is_DataType_other by exact H0. reflexivity. }
      destruct (IsDateOrDateTime T) eqn:Ed.
      * rewrite any_of_none; [reflexivity|].
        intros T0 HT0. apply Hother. intros ->.
        apply In_unary_candidates in HT0. congruence.
      * apply In_unary_candidates in Ed.
        destruct (around _ _ NoDup_unary_candidates Ed) as (l1 & l2 & E & H1 & H2).
        rewrite E.
        rewrite any_of_prefix by (intros z Hz; apply Hother; congruence).
        cbn [any_of]. unfold checkType at 1. cbn [nth_error of_option bind].
        rewrite is_DataType_same. reflexivity.
    + rewrite any_of_none; [reflexivity|]. intros T0 _. reflexivity.
  - destruct x; reflexivity.
Qed.

End UnaryDispatch.

Section UnaryExecute.

Context {UT : UnaryNumberTraits}.
Variable Op : UnaryOperation.
Variable garbage : nat -> Z.

Variable st : State.
Variable arguments : ColumnNumbers.
Variable result : nat.
Variable arg0 : nat.
Variable e0 : ColumnWithNameAndType.
Variable col : IColumn.

Hypothesis Ha0 : nth_error arguments 0 = Some arg0.
Hypothesis He0 : nth_error (block st) arg0 = Some e0.
Hypothesis Hcol : deref st (column e0) = Ok col.

Lemma executeType_skip (T : NumType) :
  as_ColumnVector T col = None -> as_ColumnConst T col = None ->
  executeType Op garbage T arguments result st = Ok (false, st).
Proof.
  intros E1 E2. unfold executeType, argument, getByPosition.
  rewrite Ha0; cbn [of_option bind]. rewrite He0; cbn [of_option bind].
  rewrite Hcol; cbn [bind]. rewrite E1, E2. reflexivity.
Qed.

Lemma executeType_run (T0 : NumType) (e_res : ColumnWithNameAndType) :
  nth_error (block st) result = Some e_res ->
  stored_as T0 col ->
  executeType Op garbage T0 arguments result st
  = (col' <- unary_kernel_column Op garbage T0 col ;;
     Ok (true, with_result st result e_res col')).
Proof.
  intros Hres Hs. unfold executeType, argument, getByPosition.
  rewrite Ha0; cbn [of_option bind]. rewrite He0; cbn [of_option bind].
  rewrite Hcol; cbn [bind].
  destruct (stored_as_cases T0 col Hs) as [(a & ->)|(s & a & ->)].
  - rewrite as_ColumnVector_same. cbv zeta. unfold new_column, set_column.
    cbn [block memory]. rewrite Hres. cbn [bind unary_kernel_column]. cbv zeta.
    destruct (UnaryOperationImpl_vector T0 Op a
                (resize garbage (UnaryResultType Op T0) (length a))) as [c| |];
      cbn [bind]; try reflexivity.
    rewrite store_new_column. reflexivity.
  - assert (as_ColumnVector T0 (ColumnConst T0 s a) = None) as -> by reflexivity.
    rewrite as_ColumnConst_same. cbv zeta. cbn [unary_kernel_column]. cbv zeta.
    destruct (UnaryOperationImpl_constant T0 Op a) as [r| |]; cbn [bind]; try reflexivity.
    unfold new_column, set_column. cbn [block memory]. rewrite Hres. reflexivity.
Qed.

End UnaryExecute.

(** X15.  The unary [execute] looks at the storage of the argument only:
    for a vector or a constant of a numeric field type it is the kernel of
    that shape and nothing else, whatever the declared type of the argument
    is; so it also computes on the column of a date, which [getReturnType]
    rejects.  When the kernel returns a column, [execute] returns the state
    with that column, newly allocated, at the result position; when the
    kernel has undefined behaviour, so has [execute]. *)
Theorem unary_execute_stored {UT : UnaryNumberTraits} (Op : UnaryOperation)
  (garbage : nat -> Z) (st : State) (arguments : ColumnNumbers) (result arg0 : nat)
  (e0 e_res : ColumnWithNameAndType) (col : IColumn) (T0 : NumType) :
  nth_error arguments 0 = Some arg0 ->
  nth_error (block st) arg0 = Some e0 ->
  nth_error (block st) result = Some e_res ->
  deref st (column e0) = Ok col ->
  stored_as T0 col ->
  unary_execute Op garbage st arguments result
  = (col' <- unary_kernel_column Op garbage T0 col ;;
     Ok (with_result st result e_res col')).
Proof.
  intros Ha0 He0 Hres Hcol Hs. unfold unary_execute.
  destruct (around _ _ NoDup_unary_field_types (In_unary_field_types T0))
    as (l1 & l2 & E & H1 & H2).
  rewrite E. rewrite any_of_prefix.
  - cbn [any_of].
    rewrite (executeType_run Op garbage st arguments result arg0 e0 col Ha0 He0 Hcol
               T0 e_res Hres Hs).
    destruct (unary_kernel_column Op garbage T0 col); reflexivity.
  - intros T HT.
    assert (Hne : T <> T0) by congruence.
    apply (executeType_skip Op garbage st arguments result arg0 e0 col Ha0 He0 Hcol).
    + apply (as_ColumnVector_other T0); assumption.
    + apply (as_ColumnConst_other T0); assumption.
Qed.

(** X16.  A column that is neither a vector nor a constant of a numeric
    type is reported by the unary [execute] as an illegal column, by its
    name. *)
Theorem unary_execute_foreign {UT : UnaryNumberTraits} (Op : UnaryOperation)
  (garbage : nat -> Z) (st : State) (arguments : ColumnNumbers) (result arg0 : nat)
  (e0 : ColumnWithNameAndType) (n : string) :
  nth_error arguments 0 = Some arg0 ->
  nth_error (block st) arg0 = Some e0 ->
  deref st (column e0) = Ok (ForeignColumn n) ->
  unary_execute Op garbage st arguments result
  = Throw (mkException ("Illegal column " ++ n ++ " of argument of function "
                        ++ unary_getName Op)
                       ILLEGAL_COLUMN).
Proof.
  intros Ha0 He0 Hcol. unfold unary_execute.
  rewrite any_of_none.
  - cbn [bind fst snd]. unfold argument, getByPosition.
    rewrite Ha0; cbn [of_option bind]. rewrite He0; cbn [of_option bind].
    rewrite Hcol. reflexivity.
  - intros T _.
    apply (executeType_skip Op garbage st arguments result arg0 e0 (ForeignColumn n)
             Ha0 He0 Hcol); reflexivity.
Qed.

(** ** The buffer of the result *)

Lemma for_loop_buffer (F : nat -> outcome Value) (n : nat) (c c' : PODArray) :
  length c = n -> length c' = n ->
  for_loop n 0 (fun i c => r <- F i ;; write c i r) c
  = for_loop n 0 (fun i c => r <- F i ;; write c i r) c'.
Proof.
  intros <- H'. rewrite for_loop_fills. rewrite <- H'. rewrite for_loop_fills.
  rewrite H'. reflexivity.
Qed.

Lemma for_loop_buffer_ext (body : nat -> PODArray -> outcome PODArray)
  (F : nat -> outcome Value) (n : nat) (c c' : PODArray) :
  (forall i s, body i s = (r <- F i ;; write s i r)) ->
  length c = n -> length c' = n ->
  for_loop n 0 body c = for_loop n 0 body c'.
Proof.
  intros Hb Hc Hc'.
  rewrite (for_loop_ext n 0 body _ c Hb), (for_loop_ext n 0 body _ c' Hb).
  apply for_loop_buffer; assumption.
Qed.

(** X17.  The generic kernels and the unary kernel never read the buffer
    they fill: with a buffer of the length of the input, what they return does
    not depend on what the buffer held, so what the allocator left in it never
    shows in a result. *)
Theorem kernels_ignore_buffer {NT : NumberTraits} {UT : UnaryNumberTraits}
  (A B R : NumType) (Op : Operation) (UOp : UnaryOperation) (n : nat) (c c' : PODArray) :
  length c = n -> length c' = n ->
  (forall a b, length a = n ->
     BinaryOperationImplBase_vector_vector A B Op R a b c
     = BinaryOperationImplBase_vector_vector A B Op R a b c')
  /\ (forall a b, length a = n ->
        BinaryOperationImplBase_vector_constant A B Op R a b c
        = BinaryOperationImplBase_vector_constant A B Op R a b c')
  /\ (forall a b, length b = n ->
        BinaryOperationImplBase_constant_vector A B Op R a b c
        = BinaryOperationImplBase_constant_vector A B Op R a b c')
  /\ (forall a, length a = n ->
        UnaryOperationImpl_vector A UOp a c = UnaryOperationImpl_vector A UOp a c').
Proof.
  intros Hc Hc'. repeat split.
  - intros a b Ha. unfold BinaryOperationImplBase_vector_vector. cbv zeta. rewrite Ha.
    apply (for_loop_buffer_ext _
             (fun i => x <- read a i ;; y <- read b i ;; apply Op A B R x y));
      try assumption.
    intros i s. rewrite !bind_assoc.
    destruct (read a i); cbn [bind]; [|reflexivity..]. rewrite bind_assoc. reflexivity.
  - intros a b Ha. unfold BinaryOperationImplBase_vector_constant. cbv zeta. rewrite Ha.
    apply (for_loop_buffer_ext _ (fun i => x <- read a i ;; apply Op A B R x b));
      try assumption.
    intros i s. rewrite bind_assoc. reflexivity.
  - intros a b Hb. unfold BinaryOperationImplBase_constant_vector. cbv zeta. rewrite Hb.
    apply (for_loop_buffer_ext _ (fun i => y <- read b i ;; apply Op A B R a y));
      try assumption.
    intros i s. rewrite bind_assoc. reflexivity.
  - intros a Ha. unfold UnaryOperationImpl_vector. cbv zeta. rewrite Ha.
    apply (for_loop_buffer_ext _ (fun i => x <- read a i ;; unary_apply UOp A x));
      try assumption.
    intros i s. rewrite bind_assoc. reflexivity.
Qed.

(** ** Negation and complement *)

Lemma promote_integral (R : NumType) :
  is_integral R = true ->
  is_integral (promote R) = true /\ bits R <= bits (promote R).
Proof. destruct R; intros H; try discriminate H; simpl; split; (reflexivity || lia). Qed.

Lemma opp_eqm (m x y : Z) : x mod m = y mod m -> (- x) mod m = (- y) mod m.
Proof.
  intros H. change (- x) with (0 - x). change (- y) with (0 - y).
  rewrite (Zminus_mod 0 x), (Zminus_mod 0 y), H. reflexivity.
Qed.

Lemma min_value_small (R : NumType) (x : Z) :
  is_integral R = true -> in_range R x -> bits R < 32 -> x <> min_value (promote R).
Proof.
  destruct R; intros HR Hx Hb; try discriminate HR; simpl in Hb; try lia;
    revert Hx; unfold in_range, min_value, max_value; simpl; lia.
Qed.

Lemma promote_wide (R : NumType) :
  is_integral R = true -> 32 <= bits R -> promote R = R.
Proof. destruct R; intros HR Hb; try discriminate HR; simpl in Hb; try lia; reflexivity. Qed.

Lemma promote_small (R : NumType) :
  is_integral R = true -> bits R < 32 -> promote R = Int32.
Proof. destruct R; intros HR Hb; try discriminate HR; simpl in Hb; try lia; reflexivity. Qed.

(** [-static_cast<R>(a)], returned as an [R]. *)
Lemma negate_cast (A R : NumType) (a : Z) :
  is_integral R = true -> in_range A a ->
  (x <- static_cast A R (VInt a) ;; r <- negate_expr R x ;; return_as R r)
  = if is_signed R && (32 <=? bits R) && (wrap R a =? min_value R)
    then Undefined
    else Ok (VInt (wrap R (- a))).
Proof.
  intros HR Ha. unfold static_cast.
  rewrite (conv_int_wrap A R a HR Ha). cbn [of_option bind].
  pose proof (wrap_range R a) as Hx.
  pose proof (wrap_eqm R a) as Ex.
  destruct (promote_integral R HR) as (HP & Hbits).
  unfold negate_expr. cbv zeta.
  rewrite (conv_int_in_range R (promote R) _ HP (in_range_promote R _ HR Hx)).
  cbn [of_option bind].
  assert (Eneg : wrap R (- wrap R a) = wrap R (- a)).
  { apply wrap_congr. apply opp_eqm. exact Ex. }
  destruct (Z.leb_spec 32 (bits R)) as [Hw|Hw].
  - rewrite (promote_wide R HR Hw). rewrite andb_true_r.
    destruct (is_signed R) eqn:Hs; cbn [andb].
    + destruct (Z.eqb_spec (wrap R a) (min_value R)) as [E|E]; [reflexivity|].
      cbn [bind]. unfold return_as. cbn [fst snd]. rewrite conv_same. cbn [of_option].
      do 2 f_equal. rewrite <- Eneg. symmetry. apply wrap_in_range.
      revert Hx E. unfold in_range, min_value, max_value. rewrite Hs. lia.
    + cbn [bind]. unfold return_as. cbn [fst snd]. rewrite conv_same. cbn [of_option].
      do 2 f_equal. rewrite <- Eneg. unfold wrap at 2. rewrite Hs. reflexivity.
  - rewrite andb_false_r. cbn [andb].
    pose proof (min_value_small R _ HR Hx Hw) as Hmin.
    rewrite (promote_small R HR Hw) in *. cbn [is_signed].
    destruct (Z.eqb_spec (wrap R a) (min_value Int32)) as [E|_]; [contradiction|].
    cbn [bind]. unfold return_as. cbn [fst snd].
    rewrite (conv_int_wrap Int32 R (- wrap R a) HR).
    + cbn [of_option]. rewrite Eneg. reflexivity.
    + apply (in_range_promote R _ HR) in Hx. rewrite (promote_small R HR Hw) in Hx.
      revert Hx Hmin. unfold in_range, min_value, max_value. simpl. lia.
Qed.

(** X18.  [negate] of an integer, in the result type [R] of the operation:
    it has undefined behaviour exactly when [R] is a signed type of at least
    32 bits and the operand, brought to [R], is its least value; otherwise it
    returns the negative reduced to [R], which is exact when the operand and
    its negative are values of [R].  It never throws. *)
Theorem NegateImpl_apply_outcome {UT : UnaryNumberTraits} (A : NumType) (a : Z) :
  is_integral A = true -> is_integral (ResultOfNegate A) = true -> in_range A a ->
  NegateImpl_apply A (VInt a)
  = (if is_signed (ResultOfNegate A) && (32 <=? bits (ResultOfNegate A))
        && (wrap (ResultOfNegate A) a =? min_value (ResultOfNegate A))
     then Undefined
     else Ok (VInt (wrap (ResultOfNegate A) (- a))))
  /\ (in_range (ResultOfNegate A) a -> in_range (ResultOfNegate A) (- a) ->
      NegateImpl_apply A (VInt a) = Ok (VInt (- a))).
Proof.
  intros HA HR Ha. unfold NegateImpl_apply. cbv zeta.
  rewrite (negate_cast A (ResultOfNegate A) a HR Ha).
  split; [reflexivity|].
  intros Hra Hrn. rewrite (wrap_in_range _ a Hra), (wrap_in_range _ (- a) Hrn).
  destruct (is_signed (ResultOfNegate A)) eqn:Hs; [|reflexivity].
  destruct (Z.eqb_spec a (min_value (ResultOfNegate A))) as [E|E];
    [|rewrite andb_false_r; reflexivity].
  exfalso. revert Hra Hrn. unfold in_range, min_value, max_value in *.
  rewrite Hs in *. subst a.
  pose proof (pow_bits_pos (ResultOfNegate A)).
  assert (0 < 2 ^ (bits (ResultOfNegate A) - 1)).
  { apply Z.pow_pos_nonneg; [lia|]. pose proof (bits_pos (ResultOfNegate A)). lia. }
  lia.
Qed.

(** [~static_cast<R>(a)], returned as an [R]. *)
Lemma bitnot_cast (A R : NumType) (a : Z) :
  is_integral R = true -> in_range A a ->
  (x <- static_cast A R (VInt a) ;; r <- bitnot_expr R x ;; return_as R r)
  = Ok (VInt (wrap R (- a - 1))).
Proof.
  intros HR Ha. unfold static_cast.
  rewrite (conv_int_wrap A R a HR Ha). cbn [of_option bind].
  pose proof (wrap_range R a) as Hx.
  pose proof (wrap_eqm R a) as Ex.
  destruct (promote_integral R HR) as (HP & Hbits).
  unfold bitnot_expr. cbv zeta.
  rewrite (conv_int_in_range R (promote R) _ HP (in_range_promote R _ HR Hx)).
  cbn [of_option bind].
  assert (El : Z.lnot (wrap R a) = - wrap R a - 1) by (unfold Z.lnot; lia).
  assert (Enot : wrap R (- wrap R a - 1) = wrap R (- a - 1)).
  { apply wrap_congr.
    rewrite (Zminus_mod (- wrap R a) 1), (Zminus_mod (- a) 1).
    rewrite (opp_eqm _ _ _ Ex). reflexivity. }
  rewrite El.
  destruct (is_signed (promote R)) eqn:Hs; cbn [bind]; unfold return_as; cbn [fst snd].
  - rewrite (conv_int_wrap (promote R) R _ HR).
    + cbn [of_option]. rewrite Enot. reflexivity.
    + apply (in_range_promote R _ HR) in Hx. revert Hx.
      unfold in_range, min_value, max_value. rewrite Hs. lia.
  - rewrite (conv_int_wrap (promote R) R _ HR (unsigned_in_range _ _ Hs)).
    cbn [of_option]. rewrite <- Enot. do 2 f_equal. apply wrap_congr.
    apply (eqm_narrow R (promote R)); [exact Hbits|].
    apply Z.mod_mod. pose proof (pow_bits_pos (promote R)). lia.
Qed.

Lemma wrap_complement (R : NumType) (a : Z) :
  in_range R a ->
  wrap R (- a - 1) = (if is_signed R then -1 else max_value R) - a.
Proof.
  intros Ha. destruct (is_signed R) eqn:Hs.
  - replace (-1 - a) with (- a - 1) by lia.
    apply wrap_in_range. revert Ha. unfold in_range, min_value, max_value.
    rewrite Hs. lia.
  - rewrite <- (wrap_in_range R (max_value R - a)).
    + apply wrap_congr. unfold max_value. rewrite Hs.
      replace (2 ^ bits R - 1 - a) with (- a - 1 + 1 * 2 ^ bits R) by lia.
      rewrite Z.mod_add; [reflexivity|]. pose proof (pow_bits_pos R). lia.
    + revert Ha. unfold in_range, min_value, max_value. rewrite Hs. lia.
Qed.

(** X19.  [bitNot] of an integer, when the result type is the type of the
    operand: it is always defined; the operand and the result add up to [-1]
    in a signed type and to the greatest value in an unsigned one, and
    [bitNot] of the result is the operand again. *)
Theorem BitNotImpl_apply_involution {UT : UnaryNumberTraits} (A : NumType) (a : Z) :
  is_integral A = true -> ResultOfBitNot A = A -> in_range A a ->
  exists r,
    BitNotImpl_apply A (VInt a) = Ok (VInt r)
    /\ in_range A r
    /\ a + r = (if is_signed A then -1 else max_value A)
    /\ BitNotImpl_apply A (VInt r) = Ok (VInt a).
Proof.
  intros HA HR Ha.
  assert (E : forall z, in_range A z ->
            BitNotImpl_apply A (VInt z)
            = Ok (VInt ((if is_signed A then -1 else max_value A) - z))).
  { intros z Hz. unfold BitNotImpl_apply. cbv zeta. rewrite HR.
    rewrite (bitnot_cast A A z HA Hz), (wrap_complement A z Hz). reflexivity. }
  exists ((if is_signed A then -1 else max_value A) - a).
  assert (Hr : in_range A ((if is_signed A then -1 else max_value A) - a)).
  { revert Ha. unfold in_range, min_value, max_value.
    destruct (is_signed A); lia. }
  split; [apply E; exact Ha|]. split; [exact Hr|]. split; [lia|].
  rewrite (E _ Hr). do 2 f_equal. lia.
Qed.

(** ** The shifts *)

Lemma common_same (R : NumType) : is_integral R = true -> common R R = promote R.
Proof. destruct R; intros H; try discriminate H; reflexivity. Qed.

(** X20.  The two shifts do not check the count: a count that is a value of
    the result type [R] and is negative, or not below the width to which [R]
    is promoted, gives undefined behaviour, and no exception. *)
Theorem shift_count_unchecked {NT : NumberTraits} (A B R : NumType) (a b : Z) :
  is_integral A = true -> is_integral B = true -> is_integral R = true ->
  in_range A a -> in_range B b -> in_range R b ->
  b < 0 \/ bits (promote R) <= b ->
  apply BitShiftLeftImpl A B R (VInt a) (VInt b) = Undefined
  /\ apply BitShiftRightImpl A B R (VInt a) (VInt b) = Undefined.
Proof.
  intros HA HB HR Ha Hb HRb Hcount.
  destruct (promote_integral R HR) as (HP & Hbits).
  assert (E : forall op, op = Shl \/ op = Shr ->
            bitwise_apply op A B R (VInt a) (VInt b) = Undefined).
  { intros op Hop. unfold bitwise_apply, static_cast.
    rewrite (conv_int_wrap A R a HR Ha), (conv_int_in_range B R b HR HRb).
    cbn [of_option bind]. unfold binary_expr. cbv zeta.
    rewrite (common_same R HR).
    rewrite (conv_int_in_range R (promote R) _ HP
               (in_range_promote R _ HR (wrap_range R a))).
    rewrite (conv_int_in_range R (promote R) b HP (in_range_promote R _ HR HRb)).
    cbn [of_option bind].
    assert (C : (b <? 0) || (bits (promote R) <=? b) = true).
    { apply orb_true_iff. destruct Hcount as [H|H]; [left|right].
      - apply Z.ltb_lt. exact H.
      - apply Z.leb_le. exact H. }
    destruct Hop as [-> | ->]; cbn [int_binop]; rewrite C; reflexivity. }
  split; [apply (E Shl)|apply (E Shr)]; auto.
Qed.

(** ** Floating results *)

Lemma conv_to_floating (A R : NumType) (a : Value) :
  is_floating R = true -> has_type A a -> exists f, conv A R a = Some (VFloat f).
Proof.
  intros HR Ha. unfold conv. destruct (NumType_eq_dec A R) as [->|_].
  - destruct a as [z|f]; [|eauto].
    destruct Ha as [Hi _]. unfold is_floating in HR. rewrite Hi in HR. discriminate HR.
  - unfold is_floating in HR. destruct (is_integral R); [discriminate HR|].
    destruct a; eauto.
Qed.

Lemma common_floating (R B : NumType) :
  is_floating R = true -> is_floating (common R B) = true.
Proof. destruct R; intros H; try discriminate H; destruct B; reflexivity. Qed.

(** X21.  With a floating result type the sum, the difference, the product
    and the floating division are total: for operands that are values of
    their types they return a floating value, without an exception and
    without undefined behaviour, also when the divisor is zero. *)
Theorem floating_operations_total {NT : NumberTraits} (Op : Operation)
  (A B R : NumType) (a b : Value) :
  Op = PlusImpl \/ Op = MinusImpl \/ Op = MultiplyImpl \/ Op = DivideFloatingImpl ->
  is_floating R = true -> has_type A a -> has_type B b ->
  exists f, apply Op A B R a b = Ok (VFloat f).
Proof.
  intros HOp HR Ha Hb.
  assert (E : forall op, op = Add \/ op = Sub \/ op = Mul \/ op = Div ->
            exists f, (x <- static_cast A R a ;;
                       r <- binary_expr R x op B b ;;
                       return_as R r) = Ok (VFloat f)).
  { intros op Hop. unfold static_cast.
    destruct (conv_to_floating A R a HR Ha) as (x & ->). cbn [of_option bind].
    unfold binary_expr. cbv zeta.
    pose proof (common_floating R B HR) as HC.
    destruct (conv_to_floating R (common R B) (VFloat x) HC HR) as (x' & ->).
    destruct (conv_to_floating B (common R B) b HC Hb) as (y' & ->).
    cbn [of_option bind].
    assert (exists r, float_binop (common R B) op x' y' = Ok r) as (r & ->).
    { destruct Hop as [->|[->|[->| ->]]]; simpl; eauto. }
    cbn [bind]. unfold return_as. cbn [fst snd].
    destruct (conv_to_floating (common R B) R (VFloat r) HR HC) as (r' & ->).
    cbn [of_option]. eauto. }
  destruct HOp as [->|[->|[->| ->]]]; cbn [apply];
    [unfold PlusImpl_apply|unfold MinusImpl_apply|unfold MultiplyImpl_apply
    |unfold DivideFloatingImpl_apply]; apply E; auto.
Qed.

Lemma shiftr_in_range (R : NumType) (x b : Z) :
  0 <= b -> in_range R x -> in_range R (Z.shiftr x b).
Proof.
  intros Hb Hx. rewrite Z.shiftr_div_pow2 by exact Hb.
  assert (Hd : 0 < 2 ^ b) by (apply Z.pow_pos_nonneg; lia).
  pose proof (Z.div_mod x (2 ^ b) ltac:(lia)) as E.
  pose proof (Z.mod_pos_bound x (2 ^ b) Hd) as Hm.
  assert (Hmin : min_value R <= 0).
  { unfold min_value. destruct (is_signed R); [|lia].
    assert (0 < 2 ^ (bits R - 1)); [|lia].
    apply Z.pow_pos_nonneg; [lia|]. pose proof (bits_pos R). lia. }
  assert (Hmax : 0 <= max_value R).
  { unfold max_value. pose proof (pow_bits_pos R).
    destruct (is_signed R); [|lia].
    assert (0 < 2 ^ (bits R - 1)); [|lia].
    apply Z.pow_pos_nonneg; [lia|]. pose proof (bits_pos R). lia. }
  unfold in_range in *.
  destruct (Z.le_gt_cases 0 x) as [Hpos|Hneg].
  - assert (H0 : 0 <= x / 2 ^ b) by (apply Z.div_pos; lia).
    set (d := 2 ^ b) in *. set (q := x / d) in *. set (r := x mod d) in *.
    clearbody q r d. assert (q <= x) by nia. lia.
  - assert (H0 : x / 2 ^ b < 0) by (apply Z.div_lt_upper_bound; lia).
    set (d := 2 ^ b) in *. set (q := x / d) in *. set (r := x mod d) in *.
    clearbody q r d. assert (x <= q) by nia. lia.
Qed.

(** X22.  The right shift of an integer by a count that is a value of the
    result type [R]: undefined for a negative count and for a count not below
    the width to which [R] is promoted, and otherwise the operand, brought to
    [R], divided by the power of two and rounded down. *)
Theorem BitShiftRightImpl_apply_outcome {NT : NumberTraits} (A B R : NumType) (a b : Z) :
  is_integral A = true -> is_integral B = true -> is_integral R = true ->
  in_range A a -> in_range B b -> in_range R b ->
  apply BitShiftRightImpl A B R (VInt a) (VInt b)
  = if (b <? 0) || (bits (promote R) <=? b) then Undefined
    else Ok (VInt (wrap R a / 2 ^ b)).
Proof.
  intros HA HB HR Ha Hb HRb.
  destruct (promote_integral R HR) as (HP & Hbits).
  cbn [apply]. unfold BitShiftRightImpl_apply, bitwise_apply, static_cast.
  rewrite (conv_int_wrap A R a HR Ha), (conv_int_in_range B R b HR HRb).
  cbn [of_option bind]. unfold binary_expr. cbv zeta.
  rewrite (common_same R HR).
  rewrite (conv_int_in_range R (promote R) _ HP
             (in_range_promote R _ HR (wrap_range R a))).
  rewrite (conv_int_in_range R (promote R) b HP (in_range_promote R _ HR HRb)).
  cbn [of_option bind int_binop].
  destruct ((b <? 0) || (bits (promote R) <=? b)) eqn:C; [reflexivity|].
  apply orb_false_iff in C as [C1 C2]. apply Z.ltb_ge in C1.
  cbn [bind]. unfold return_as. cbn [fst snd].
  rewrite (conv_int_in_range (promote R) R _ HR
             (shiftr_in_range R _ b C1 (wrap_range R a))).
  rewrite Z.shiftr_div_pow2 by exact C1. reflexivity.
Qed.

(** X23.  The bitwise and, or and exclusive or of two integers are total:
    with an integer result type they return an integer, without an exception
    and without undefined behaviour. *)
Theorem bitwise_operations_total {NT : NumberTraits} (Op : Operation)
  (A B R : NumType) (a b : Z) :
  Op = BitAndImpl \/ Op = BitOrImpl \/ Op = BitXorImpl ->
  is_integral A = true -> is_integral B = true -> is_integral R = true ->
  in_range A a -> in_range B b ->
  exists r, apply Op A B R (VInt a) (VInt b) = Ok (VInt r).
Proof.
  intros HOp HA HB HR Ha Hb.
  destruct (promote_integral R HR) as (HP & Hbits).
  assert (E : forall op, op = And \/ op = Or \/ op = Xor ->
            exists r, bitwise_apply op A B R (VInt a) (VInt b) = Ok (VInt r)).
  { intros op Hop. unfold bitwise_apply, static_cast.
    rewrite (conv_int_wrap A R a HR Ha), (conv_int_wrap B R b HR Hb).
    cbn [of_option bind]. unfold binary_expr. cbv zeta.
    rewrite (common_same R HR).
    rewrite (conv_int_in_range R (promote R) _ HP
               (in_range_promote R _ HR (wrap_range R a))).
    rewrite (conv_int_in_range R (promote R) _ HP
               (in_range_promote R _ HR (wrap_range R b))).
    cbn [of_option bind].
    assert (exists r, int_binop (promote R) op (wrap R a) (wrap R b) = Ok r) as (r & ->).
    { destruct Hop as [->|[->| ->]]; simpl; eauto. }
    cbn [bind]. unfold return_as. cbn [fst snd].
    unfold conv. destruct (NumType_eq_dec (promote R) R); [cbn [of_option]; eauto|].
    rewrite HR. cbn [of_option]. eauto. }
  destruct HOp as [->|[->| ->]]; cbn [apply];
    [unfold BitAndImpl_apply|unfold BitOrImpl_apply|unfold BitXorImpl_apply];
    apply E; auto.
Qed.

(** ** The further theorems at concrete inputs *)

(** A date column plus a constant of [UInt8]: the days are added in
    [UInt16]. *)
Lemma execute_well_typed_witness :
  @execute spec_traits PlusImpl zeroed
    (two_columns DataTypeDate (ColumnVector UInt16 [VInt 17000; VInt 65535])
                 DataTypeUInt8 (ColumnConst UInt8 2 (VInt 1)))
    [0; 1]%nat 2%nat
  = (col <- @kernel_column spec_traits PlusImpl zeroed UInt16 UInt8 UInt16
              (ColumnVector UInt16 [VInt 17000; VInt 65535])
              (ColumnConst UInt8 2 (VInt 1)) ;;
     Ok (with_result
           (two_columns DataTypeDate (ColumnVector UInt16 [VInt 17000; VInt 65535])
                        DataTypeUInt8 (ColumnConst UInt8 2 (VInt 1)))
           2 (mkColumnWithNameAndType None (ForeignDataType "") "c") col))
  /\ @kernel_column spec_traits PlusImpl zeroed UInt16 UInt8 UInt16
       (ColumnVector UInt16 [VInt 17000; VInt 65535]) (ColumnConst UInt8 2 (VInt 1))
     = Ok (ColumnVector UInt16 [VInt 17001; VInt 0]).
Proof.
  split; [|vm_compute; reflexivity].
  apply (@execute_well_typed spec_traits PlusImpl zeroed
           (two_columns DataTypeDate (ColumnVector UInt16 [VInt 17000; VInt 65535])
                        DataTypeUInt8 (ColumnConst UInt8 2 (VInt 1)))
           [0; 1]%nat 2%nat 0%nat 1%nat
           (mkColumnWithNameAndType (Some 0%nat) (DataTypeObject DataTypeDate) "a")
           (mkColumnWithNameAndType (Some 1%nat) (DataTypeObject DataTypeUInt8) "b")
           (mkColumnWithNameAndType None (ForeignDataType "") "c")
           0%nat
           (ColumnVector UInt16 [VInt 17000; VInt 65535])
           (ColumnConst UInt8 2 (VInt 1))
           DataTypeDate DataTypeUInt8 DataTypeDate);
    reflexivity.
Defined.

(** A column of strings as the first argument of [plus]. *)
Lemma execute_foreign_left_witness :
  @execute spec_traits PlusImpl zeroed
    (two_columns DataTypeUInt8 (ForeignColumn "ColumnString")
                 DataTypeUInt8 (ColumnConst UInt8 2 (VInt 1)))
    [0; 1]%nat 2%nat
  = Throw (mkException "Illegal column ColumnString of first argument of function plus"
                       ILLEGAL_COLUMN).
Proof.
  apply (@execute_foreign_left spec_traits PlusImpl zeroed
           (two_columns DataTypeUInt8 (ForeignColumn "ColumnString")
                        DataTypeUInt8 (ColumnConst UInt8 2 (VInt 1)))
           [0; 1]%nat 2%nat 0%nat
           (mkColumnWithNameAndType (Some 0%nat) (DataTypeObject DataTypeUInt8) "a")
           0%nat "ColumnString");
    reflexivity.
Defined.

(** A column of strings as the second argument of [multiply]. *)
Lemma execute_foreign_right_witness :
  @execute spec_traits MultiplyImpl zeroed
    (two_columns DataTypeUInt8 (ColumnConst UInt8 2 (VInt 1))
                 DataTypeUInt8 (ForeignColumn "ColumnString"))
    [0; 1]%nat 2%nat
  = Throw (mkException "Illegal column ColumnString of second argument of function multiply"
                       ILLEGAL_COLUMN).
Proof.
  apply (@execute_foreign_right spec_traits MultiplyImpl zeroed
           (two_columns DataTypeUInt8 (ColumnConst UInt8 2 (VInt 1))
                        DataTypeUInt8 (ForeignColumn "ColumnString"))
           [0; 1]%nat 2%nat 0%nat 1%nat
           (mkColumnWithNameAndType (Some 0%nat) (DataTypeObject DataTypeUInt8) "a")
           (mkColumnWithNameAndType (Some 1%nat) (DataTypeObject DataTypeUInt8) "b")
           0%nat (ColumnConst UInt8 2 (VInt 1)) UInt8 "ColumnString");
    reflexivity.
Defined.

(** A date minus a date with time. *)
Lemma execute_rejects_invalid_date_witness :
  @execute spec_traits MinusImpl zeroed
    (two_columns DataTypeDate (ColumnVector UInt16 [VInt 17000])
                 DataTypeDateTime (ColumnVector UInt32 [VInt 5]))
    [0; 1]%nat 2%nat
  = Throw (mkException
             "Illegal column ColumnVector<UInt32> of second argument of function minus"
             ILLEGAL_COLUMN).
Proof.
  apply (@execute_rejects_invalid_date spec_traits MinusImpl zeroed
           (two_columns DataTypeDate (ColumnVector UInt16 [VInt 17000])
                        DataTypeDateTime (ColumnVector UInt32 [VInt 5]))
           [0; 1]%nat 2%nat 0%nat 1%nat
           (mkColumnWithNameAndType (Some 0%nat) (DataTypeObject DataTypeDate) "a")
           (mkColumnWithNameAndType (Some 1%nat) (DataTypeObject DataTypeDateTime) "b")
           0%nat (ColumnVector UInt16 [VInt 17000]) (ColumnVector UInt32 [VInt 5])
           DataTypeDate);
    try reflexivity.
  intros R H. injection H as <-. reflexivity.
Defined.

(** [intDiv] of [UInt32] by the [UInt32] constant zero. *)
Lemma zero_constant_throws_witness :
  specialized UInt32 UInt32 DivideIntegralImpl = true
  /\ (forall a c,
        @BinaryOperationImpl_vector_constant spec_traits UInt32 UInt32 DivideIntegralImpl
          (@ResultType spec_traits DivideIntegralImpl UInt32 UInt32) a (VInt 0) c
        = Throw DivisionByZero)
  /\ (forall c,
        @BinaryOperationImplBase_vector_constant spec_traits UInt32 UInt32 DivideIntegralImpl
          (@ResultType spec_traits DivideIntegralImpl UInt32 UInt32) [] (VInt 0) c
        = Ok c)
  /\ (forall x a c,
        @BinaryOperationImplBase_vector_constant spec_traits UInt32 UInt32 DivideIntegralImpl
          (@ResultType spec_traits DivideIntegralImpl UInt32 UInt32) (x :: a) (VInt 0) c
        = Throw DivisionByZero).
Proof.
  split; [reflexivity|].
  exact (@zero_constant_throws spec_traits DivideIntegralImpl UInt32 UInt32 eq_refl).
Defined.

(** Three values of [Int64] divided by the [Int32] constant [3]. *)
Lemma quotient_remainder_compose_witness :
  Forall (in_range Int64) [-7; 7; 10]
  /\ in_range Int32 3 /\ in_range Int64 3
  /\ exists qs rs,
       @BinaryOperationImpl_vector_constant spec_traits Int64 Int32 DivideIntegralImpl Int64
         (map VInt [-7; 7; 10]) (VInt 3) (repeat (VInt 0) 3)
       = Ok (map VInt qs)
       /\ @BinaryOperationImpl_vector_constant spec_traits Int64 Int32 ModuloImpl Int64
            (map VInt [-7; 7; 10]) (VInt 3) (repeat (VInt 0) 3)
          = Ok (map VInt rs)
       /\ length qs = length [-7; 7; 10] /\ length rs = length [-7; 7; 10]
       /\ forall i z q r,
            nth_error [-7; 7; 10] i = Some z -> nth_error qs i = Some q ->
            nth_error rs i = Some r ->
            z = q * 3 + r /\ Z.abs r < Z.abs 3 /\ 0 <= r * z.
Proof.
  assert (H1 : Forall (in_range Int64) [-7; 7; 10]) by (repeat constructor; solve_range).
  assert (H2 : in_range Int32 3) by solve_range.
  assert (H3 : in_range Int64 3) by solve_range.
  repeat (split; [assumption|]).
  apply (@quotient_remainder_compose spec_traits Int64 Int32 3 [-7; 7; 10]
           (repeat (VInt 0) 3) (repeat (VInt 0) 3));
    try reflexivity; try assumption; lia.
Defined.

(** A constant of four rows and a vector of two: two rows are computed. *)
Lemma constant_vector_sizes_witness :
  @kernel_column spec_traits PlusImpl zeroed UInt8 UInt8 UInt16
    (ColumnConst UInt8 4 (VInt 1)) (ColumnVector UInt8 [VInt 10; VInt 20])
  = (rs <- mapM (fun y => @apply spec_traits PlusImpl UInt8 UInt8 UInt16 (VInt 1) y)
             [VInt 10; VInt 20] ;;
     Ok (ColumnVector UInt16 (rs ++ skipn 2 (resize zeroed UInt16 4)))).
Proof.
  apply (proj1 (@constant_vector_sizes spec_traits PlusImpl zeroed UInt8 UInt8 UInt16
                  4%nat (VInt 1) [VInt 10; VInt 20])).
  simpl. lia.
Defined.


(** The expression of the comment in [PlusImpl]: an [UInt32] times the
    [Int32] value [-1], in [Int64]. *)
Lemma arithmetic_exact_witness :
  in_range UInt32 4000000000 /\ in_range Int32 (-1)
  /\ in_range Int64 4000000000 /\ in_range Int64 (-1)
  /\ in_range Int64 (4000000000 * -1)
  /\ @apply spec_traits MultiplyImpl UInt32 Int32 Int64 (VInt 4000000000) (VInt (-1))
     = Ok (VInt (4000000000 * -1)).
Proof.
  assert (H1 : in_range UInt32 4000000000) by solve_range.
  assert (H2 : in_range Int32 (-1)) by solve_range.
  assert (H3 : in_range Int64 4000000000) by solve_range.
  assert (H4 : in_range Int64 (-1)) by solve_range.
  assert (H5 : in_range Int64 (4000000000 * -1)) by solve_range.
  repeat (split; [assumption|]).
  apply (@arithmetic_exact spec_traits MultiplyImpl Z.mul UInt32 Int32 Int64
           4000000000 (-1)); try reflexivity; assumption.
Defined.

(** Two dates with time that are more than 68 years apart. *)
Lemma date_difference_witness :
  in_range (FieldType DataTypeDateTime) 3000000000
  /\ in_range (FieldType DataTypeDateTime) 0
  /\ @apply spec_traits MinusImpl UInt32 UInt32 Int32 (VInt 3000000000) (VInt 0)
     = Ok (VInt (wrap Int32 (3000000000 - 0)))
  /\ wrap Int32 (3000000000 - 0) = -1294967296.
Proof.
  assert (H1 : in_range (FieldType DataTypeDateTime) 3000000000) by solve_range.
  assert (H2 : in_range (FieldType DataTypeDateTime) 0) by solve_range.
  repeat (split; [assumption|]).
  split; [|reflexivity].
  exact (proj1 (@date_difference spec_traits DataTypeDateTime DataTypeInt32
                  3000000000 0 eq_refl eq_refl H1 H2)).
Defined.

(** [negate] on the column of a date. *)
Lemma unary_execute_stored_witness :
  @unary_execute spec_unary_traits NegateImpl zeroed
    (one_column (DataTypeObject DataTypeDate) (ColumnVector UInt16 [VInt 1; VInt 2]))
    [0%nat] 1%nat
  = (col' <- @unary_kernel_column spec_unary_traits NegateImpl zeroed UInt16
               (ColumnVector UInt16 [VInt 1; VInt 2]) ;;
     Ok (with_result
           (one_column (DataTypeObject DataTypeDate) (ColumnVector UInt16 [VInt 1; VInt 2]))
           1 (mkColumnWithNameAndType None (ForeignDataType "") "c") col'))
  /\ @unary_kernel_column spec_unary_traits NegateImpl zeroed UInt16
       (ColumnVector UInt16 [VInt 1; VInt 2])
     = Ok (ColumnVector Int32 [VInt (-1); VInt (-2)])
  /\ exists e, @unary_getReturnType spec_unary_traits NegateImpl [DataTypeObject DataTypeDate]
               = Throw e.
Proof.
  split; [|split; [vm_compute; reflexivity|eexists; vm_compute; reflexivity]].
  apply (@unary_execute_stored spec_unary_traits NegateImpl zeroed
           (one_column (DataTypeObject DataTypeDate) (ColumnVector UInt16 [VInt 1; VInt 2]))
           [0%nat] 1%nat 0%nat
           (mkColumnWithNameAndType (Some 0%nat) (DataTypeObject DataTypeDate) "a")
           (mkColumnWithNameAndType None (ForeignDataType "") "c")
           (ColumnVector UInt16 [VInt 1; VInt 2]) UInt16);
    reflexivity.
Defined.

(** [bitNot] on a column of strings. *)
Lemma unary_execute_foreign_witness :
  @unary_execute spec_unary_traits BitNotImpl zeroed
    (one_column (ForeignDataType "String") (ForeignColumn "ColumnString"))
    [0%nat] 1%nat
  = Throw (mkException "Illegal column ColumnString of argument of function bitNot"
                       ILLEGAL_COLUMN).
Proof.
  apply (@unary_execute_foreign spec_unary_traits BitNotImpl zeroed
           (one_column (ForeignDataType "String") (ForeignColumn "ColumnString"))
           [0%nat] 1%nat 0%nat
           (mkColumnWithNameAndType (Some 0%nat) (ForeignDataType "String") "a")
           "ColumnString");
    reflexivity.
Defined.

(** Two buffers of two elements. *)
Lemma kernels_ignore_buffer_witness :
  @BinaryOperationImplBase_vector_vector spec_traits UInt8 UInt8 PlusImpl UInt16
    [VInt 1; VInt 2] [VInt 3; VInt 4] [VInt 0; VInt 0]
  = @BinaryOperationImplBase_vector_vector spec_traits UInt8 UInt8 PlusImpl UInt16
      [VInt 1; VInt 2] [VInt 3; VInt 4] [VInt 7; VInt 9].
Proof.
  exact (proj1 (@kernels_ignore_buffer spec_traits spec_unary_traits UInt8 UInt8 UInt16
                  PlusImpl NegateImpl 2%nat [VInt 0; VInt 0] [VInt 7; VInt 9]
                  eq_refl eq_refl)
           [VInt 1; VInt 2] [VInt 3; VInt 4] eq_refl).
Defined.

(** [negate] of the [UInt32] value [1]. *)
Lemma NegateImpl_apply_outcome_witness :
  in_range UInt32 1
  /\ @NegateImpl_apply spec_unary_traits UInt32 (VInt 1) = Ok (VInt (- 1)).
Proof.
  assert (H1 : in_range UInt32 1) by solve_range.
  split; [assumption|].
  apply (proj2 (@NegateImpl_apply_outcome spec_unary_traits UInt32 1 eq_refl eq_refl H1));
    solve_range.
Defined.

(** [bitNot] of the [UInt8] value [5]. *)
Lemma BitNotImpl_apply_involution_witness :
  in_range UInt8 5
  /\ exists r,
       @BitNotImpl_apply spec_unary_traits UInt8 (VInt 5) = Ok (VInt r)
       /\ in_range UInt8 r
       /\ 5 + r = (if is_signed UInt8 then -1 else max_value UInt8)
       /\ @BitNotImpl_apply spec_unary_traits UInt8 (VInt r) = Ok (VInt 5).
Proof.
  assert (H1 : in_range UInt8 5) by solve_range.
  split; [assumption|].
  exact (@BitNotImpl_apply_involution spec_unary_traits UInt8 5 eq_refl eq_refl H1).
Defined.

(** A value of [UInt64] shifted by [64]. *)
Lemma shift_count_unchecked_witness :
  in_range UInt64 1 /\ in_range UInt8 64 /\ in_range UInt64 64
  /\ @apply spec_traits BitShiftLeftImpl UInt64 UInt8 UInt64 (VInt 1) (VInt 64) = Undefined
  /\ @apply spec_traits BitShiftRightImpl UInt64 UInt8 UInt64 (VInt 1) (VInt 64) = Undefined.
Proof.
  assert (H1 : in_range UInt64 1) by solve_range.
  assert (H2 : in_range UInt8 64) by solve_range.
  assert (H3 : in_range UInt64 64) by solve_range.
  repeat (split; [assumption|]).
  apply (@shift_count_unchecked spec_traits UInt64 UInt8 UInt64 1 64);
    try reflexivity; try assumption.
  right. simpl. lia.
Defined.

(** One divided by zero, in [Float64]. *)
Lemma floating_operations_total_witness :
  has_type Float64 (VFloat (S754_finite false 4503599627370496 (-52)))
  /\ has_type Float64 (VFloat (S754_zero false))
  /\ exists f,
       @apply spec_traits DivideFloatingImpl Float64 Float64 Float64
         (VFloat (S754_finite false 4503599627370496 (-52))) (VFloat (S754_zero false))
       = Ok (VFloat f).
Proof.
  assert (H1 : has_type Float64 (VFloat (S754_finite false 4503599627370496 (-52))))
    by reflexivity.
  assert (H2 : has_type Float64 (VFloat (S754_zero false))) by reflexivity.
  repeat (split; [assumption|]).
  apply (@floating_operations_total spec_traits DivideFloatingImpl Float64 Float64 Float64);
    try reflexivity; try assumption.
  right. right. right. reflexivity.
Defined.

(** [-8] shifted right by one. *)
Lemma BitShiftRightImpl_apply_outcome_witness :
  in_range Int32 (-8) /\ in_range UInt8 1 /\ in_range Int32 1
  /\ @apply spec_traits BitShiftRightImpl Int32 UInt8 Int32 (VInt (-8)) (VInt 1)
     = Ok (VInt (-4)).
Proof.
  assert (H1 : in_range Int32 (-8)) by solve_range.
  assert (H2 : in_range UInt8 1) by solve_range.
  assert (H3 : in_range Int32 1) by solve_range.
  repeat (split; [assumption|]).
  exact (@BitShiftRightImpl_apply_outcome spec_traits Int32 UInt8 Int32 (-8) 1
           eq_refl eq_refl eq_refl H1 H2 H3).
Defined.

(** [12 & 10] in [UInt8]. *)
Lemma bitwise_operations_total_witness :
  in_range UInt8 12 /\ in_range UInt8 10
  /\ exists r, @apply spec_traits BitAndImpl UInt8 UInt8 UInt8 (VInt 12) (VInt 10)
               = Ok (VInt r).
Proof.
  assert (H1 : in_range UInt8 12) by solve_range.
  assert (H2 : in_range UInt8 10) by solve_range.
  repeat (split; [assumption|]).
  apply (@bitwise_operations_total spec_traits BitAndImpl UInt8 UInt8 UInt8 12 10);
    try reflexivity; try assumption.
  left. reflexivity.
Defined.

(** ** The faults of the scalar division and modulo *)




Section Returns.

Context {NT : NumberTraits}.


End Returns.





(** ** The faults at concrete inputs *)

